(** * Program catalog service: hierarchy builder, version resolver and
      effort upsert engine.

    A shallow embedding of [backend/service_temp.py] (class
    [ProgramCatalogService]) and of the older copy [service_temp.py] kept at
    the top of the repository, with the properties that the design document
    states about them. *)

From Stdlib Require Import Ascii String.
From stdpp Require Import functions gmap strings list fin_maps sorting pretty.

Open Scope string_scope.
Open Scope list_scope.
Open Scope nat_scope.

(** ** Python values shared by the components *)

(** What a function call leaves behind: a value, or a raised exception.
    [ValueError] is the one of the hierarchy builder, with the number of
    root candidates; [ValueError_int] the one of [int(argument)];
    [DoesNotExist] and [MultipleObjectsReturned] are those of
    [SoftwareEffortModel.objects.get]; [RelatedObjectDoesNotExist] is raised
    on reading a foreign key whose row is missing. *)
Inductive exn :=
  | ValueError (root_candidates_count : nat)
  | KeyError (key : string)
  | ValidationError (detail : string)
  | ValueError_int (argument : string)
  | DoesNotExist
  | MultipleObjectsReturned
  | RelatedObjectDoesNotExist (field : string).

Inductive result (A : Type) :=
  | Ok (a : A)
  | Raise (e : exn).
Arguments Ok {A} a.
Arguments Raise {A} e.

(** Records written to [logger], in the order of the calls. *)
Inductive log_entry :=
  | LogIntegrityError (root_candidates_count : nat)
  | LogCandidateRoot (name path : string)
  | LogOrphan (name path parent_path : string).

(** ** Dot-separated paths *)

Module Path.

Definition is_dot (c : ascii) : bool := Ascii.eqb c "."%char.

(** [s.split(".")] *)
Fixpoint split (s : string) : list string :=
  match s with
  | EmptyString => [EmptyString]
  | String c s' =>
      if is_dot c then EmptyString :: split s'
      else match split s' with
           | seg :: segs => String c seg :: segs
           | [] => [String c EmptyString]
           end
  end.

(** ["." in s] *)
Fixpoint has_dot (s : string) : bool :=
  match s with
  | EmptyString => false
  | String c s' => is_dot c || has_dot s'
  end.

(** [s.rsplit(".", 1)[0]]: what precedes the last dot, or [s] itself when it
    has none. *)
Fixpoint rsplit1_head (s : string) : string :=
  match s with
  | EmptyString => EmptyString
  | String c s' =>
      if is_dot c && negb (has_dot s') then EmptyString
      else String c (rsplit1_head s')
  end.

(** [".".join(parts)] *)
Fixpoint join (parts : list string) : string :=
  match parts with
  | [] => EmptyString
  | [seg] => seg
  | seg :: rest => seg +:+ String "." (join rest)
  end.

(** [len(p["program_path"].split("."))], the sort key and the depth test. *)
Definition depth (s : string) : nat := length (split s).

(** Number of dots, used to reason about [depth]. *)
Fixpoint dots (s : string) : nat :=
  match s with
  | EmptyString => 0
  | String c s' => (if is_dot c then 1 else 0) + dots s'
  end.

End Path.

(** ** Stable sort by an integer key: [list.sort(key=...)] *)

Section sort_by.
Context {A : Type} (key : A → nat).

  (** [x] stood before every element of [l] in the unsorted list, so on equal
      keys it stays in front. *)
Fixpoint insert_by (x : A) (l : list A) : list A :=
    match l with
    | [] => [x]
    | y :: l' => if bool_decide (key x ≤ key y) then x :: y :: l'
                 else y :: insert_by x l'
    end.

Fixpoint sort_by (l : list A) : list A :=
    match l with
    | [] => []
    | x :: l' => insert_by x (sort_by l')
    end.
End sort_by.

(** ** Hierarchy builder *)

(** A row of [_get_all_program_dicts]: the columns listed in [fields]. *)
Record ProgramDict := {
  program_id : Z;
  program_path : string;
  name : string;
  date : Z;
  expect_software_effort : bool;
  description : string;
  aliases : string;
  status : string;
  primary_location : string;
  organization_leader_name : string;
  chief_engineer_name : string;
  program_affiliation : string;
  program_value : string;
  program_type : string;
}.

(** The attributes of a [ProgramTreeNode] other than its children. *)
Record NodeData := {
  node_program_name : string;
  node_program_id : Z;
  node_program_path : string;
  node_description : string;
  node_primary_location : string;
  node_status : string;
  node_organization_leader_name : string;
  node_chief_engineer_name : string;
  node_program_type : string;
  node_program_value : string;
  expecting_software_efforts : bool;
  has_descendant_expecting_software_effort : bool;
}.

(** The tree as a value: what a caller sees when it walks [children] from the
    returned root. *)
#[local] Unset Elimination Schemes.
Inductive ProgramTreeNode :=
  | TreeNode (data : NodeData) (children : list ProgramTreeNode).
#[local] Set Elimination Schemes.

Definition tree_data (t : ProgramTreeNode) : NodeData :=
  match t with TreeNode d _ => d end.
Definition tree_children (t : ProgramTreeNode) : list ProgramTreeNode :=
  match t with TreeNode _ cs => cs end.

(** Number of nodes, and the nodes' data in pre-order. *)
Fixpoint tree_size (t : ProgramTreeNode) : nat :=
  match t with
  | TreeNode _ cs => S (sum_list (tree_size <$> cs))
  end.

Fixpoint tree_nodes (t : ProgramTreeNode) : list NodeData :=
  match t with
  | TreeNode d cs => d :: (cs ≫= tree_nodes)
  end.

(** Proper descendants of a node, in pre-order. *)
Definition tree_descendants (t : ProgramTreeNode) : list NodeData :=
  tail (tree_nodes t).

(** All subtrees of a tree, itself first. *)
Fixpoint subtrees (t : ProgramTreeNode) : list ProgramTreeNode :=
  match t with
  | TreeNode _ cs => t :: (cs ≫= subtrees)
  end.

Module Backend.

(** While the tree is built the nodes are mutable objects reached through
    three aliases ([parent_node.children], [id_path_to_node],
    [nodes_by_path]); [heap] holds the objects, a reference is an index
    into it. *)
Record node_cell := {
  cell_data : NodeData;
  cell_children : list nat;
}.

Definition map_to_dto (p_dict : ProgramDict) : NodeData :=
  {| node_program_name := name p_dict;
     node_program_id := program_id p_dict;
     node_program_path := program_path p_dict;
     node_description := description p_dict;
     node_primary_location := primary_location p_dict;
     node_status := status p_dict;
     node_organization_leader_name := organization_leader_name p_dict;
     node_chief_engineer_name := chief_engineer_name p_dict;
     node_program_type := program_type p_dict;
     node_program_value := program_value p_dict;
     expecting_software_efforts := false;
     has_descendant_expecting_software_effort := false |}.

Definition set_expecting (b : bool) (d : NodeData) : NodeData :=
  {| node_program_name := node_program_name d;
     node_program_id := node_program_id d;
     node_program_path := node_program_path d;
     node_description := node_description d;
     node_primary_location := node_primary_location d;
     node_status := node_status d;
     node_organization_leader_name := node_organization_leader_name d;
     node_chief_engineer_name := node_chief_engineer_name d;
     node_program_type := node_program_type d;
     node_program_value := node_program_value d;
     expecting_software_efforts := b;
     has_descendant_expecting_software_effort :=
       has_descendant_expecting_software_effort d |}.

Definition set_has_descendant (b : bool) (d : NodeData) : NodeData :=
  {| node_program_name := node_program_name d;
     node_program_id := node_program_id d;
     node_program_path := node_program_path d;
     node_description := node_description d;
     node_primary_location := node_primary_location d;
     node_status := node_status d;
     node_organization_leader_name := node_organization_leader_name d;
     node_chief_engineer_name := node_chief_engineer_name d;
     node_program_type := node_program_type d;
     node_program_value := node_program_value d;
     expecting_software_efforts := expecting_software_efforts d;
     has_descendant_expecting_software_effort := b |}.

(** A node as it is created in both branches:
    [map_to_dto(p)], then the two flag assignments. *)
Definition new_node (p_dict : ProgramDict) : node_cell :=
  {| cell_data :=
       set_has_descendant false
         (set_expecting (expect_software_effort p_dict) (map_to_dto p_dict));
     cell_children := [] |}.

Definition get_parent_id_path (path : string) : string :=
  if negb (Path.has_dot path) then "" else Path.rsplit1_head path.

Definition depth_key (p : ProgramDict) : nat := Path.depth (program_path p).

(** The counting loop with its [break]. *)
Fixpoint count_root_candidates (first_depth : nat) (program_data : list ProgramDict) : nat :=
  match program_data with
  | [] => 0
  | p :: rest =>
      if bool_decide (depth_key p = first_depth)
      then S (count_root_candidates first_depth rest)
      else 0
  end.

Record build_state := {
  heap : list node_cell;
  id_path_to_node : gmap string nat;
  nodes_by_path : list nat;
  log : list log_entry;
}.

(** [parent_node.children.append(child_node)] *)
Definition append_child (child : nat) (c : node_cell) : node_cell :=
  {| cell_data := cell_data c; cell_children := cell_children c ++ [child] |}.

(** One turn of the "Populate Tree" loop. *)
Definition populate_step (st : build_state) (p_dict : ProgramDict) : build_state :=
  let parent_path := get_parent_id_path (program_path p_dict) in
  match id_path_to_node st !! parent_path with
  | None =>
      {| heap := heap st;
         id_path_to_node := id_path_to_node st;
         nodes_by_path := nodes_by_path st;
         log := log st ++ [LogOrphan (name p_dict) (program_path p_dict) parent_path] |}
  | Some parent_node =>
      let child_node := length (heap st) in
      {| heap := alter (append_child child_node) parent_node (heap st) ++ [new_node p_dict];
         id_path_to_node := <[program_path p_dict := child_node]> (id_path_to_node st);
         nodes_by_path := nodes_by_path st ++ [child_node];
         log := log st |}
  end.

Definition mark_has_descendant (c : node_cell) : node_cell :=
  {| cell_data := set_has_descendant true (cell_data c);
     cell_children := cell_children c |}.

(** One turn of the "Bubble Up" loop, on the node referenced by [node]. *)
Definition bubble_step (id_path_to_node : gmap string nat)
    (h : list node_cell) (node : nat) : list node_cell :=
  match h !! node with
  | None => h
  | Some c =>
      let is_relevant :=
        expecting_software_efforts (cell_data c)
        || has_descendant_expecting_software_effort (cell_data c) in
      if is_relevant then
        let parent_path := get_parent_id_path (node_program_path (cell_data c)) in
        if negb (String.eqb parent_path "") then
          match id_path_to_node !! parent_path with
          | Some parent => alter mark_has_descendant parent h
          | None => h
          end
        else h
      else h
  end.

(** The object graph below reference [i], read back as a value. [fuel]
    bounds the depth; [None] only for a dangling reference or a chain of
    children longer than [fuel]. *)
Fixpoint reify (fuel : nat) (h : list node_cell) (i : nat) : option ProgramTreeNode :=
  match fuel with
  | 0 => None
  | S fuel' =>
      c ← h !! i;
      cs ← mapM (reify fuel' h) (cell_children c);
      Some (TreeNode (cell_data c) cs)
  end.

(** The references met by [reify], in the same pre-order. *)
Fixpoint walk (fuel : nat) (h : list node_cell) (i : nat) : option (list nat) :=
  match fuel with
  | 0 => None
  | S fuel' =>
      c ← h !! i;
      ls ← mapM (walk fuel' h) (cell_children c);
      Some (i :: concat ls)
  end.

(** The single-root branch up to the end of the "Populate Tree" loop. *)
Definition populate_tree (root_data : ProgramDict) (processing_list : list ProgramDict)
    : build_state :=
  foldl populate_step
    {| heap := [new_node root_data];
       id_path_to_node := {[ program_path root_data := 0 ]};
       nodes_by_path := [0];
       log := [] |}
    processing_list.

(** The "Bubble Up" loop: [for node in reversed(nodes_by_path)]. *)
Definition bubble_up (st : build_state) : list node_cell :=
  foldl (bubble_step (id_path_to_node st)) (heap st) (reverse (nodes_by_path st)).

(** [get_all_programs_as_tree], given what [_get_all_program_dicts()]
    returned. The result comes with the log records written. The root
    reference is [0]; the last [match] reads the returned object graph back
    as a value, and its [None] branch is never taken
    ([populate_tree_reify]). *)
Definition get_all_programs_as_tree (fetched : list ProgramDict)
    : result (option ProgramTreeNode) * list log_entry :=
  let program_data := fetched in
  match program_data with
  | [] => (Ok None, [])
  | _ :: _ =>
    let program_data := sort_by depth_key program_data in
    match program_data with
    | [] => (Ok None, [])
    | first :: rest =>
      let first_depth := depth_key first in
      let root_candidates_count := count_root_candidates first_depth program_data in
      if bool_decide (1 < root_candidates_count) then
        (Raise (ValueError root_candidates_count),
         LogIntegrityError root_candidates_count ::
         ((λ p, LogCandidateRoot (name p) (program_path p)) <$>
            take root_candidates_count program_data))
      else
        let root_data := first in
        let processing_list := rest in
        let st := populate_tree root_data processing_list in
        let h := bubble_up st in
        match reify (length h) h 0 with
        | Some root_node => (Ok (Some root_node), log st)
        | None => (Raise (KeyError "root_node"), log st)
        end
    end
  end.

End Backend.

(** The older copy of the service, [service_temp.py] at the top of the
    repository. Its rows are model instances; [convert] stands for
    [_convert_program_catalog_info_to_dto(_, ProgramTreeNode)], whose
    serializer is not part of the sources. *)
Module Legacy.

Definition get_parent_id_path (path : string) : string :=
  Path.join (removelast (Path.split path)).

Record build_state := {
  heap : list Backend.node_cell;
  id_path_to_node : gmap string nat;
}.

Definition populate_step (convert : ProgramDict → NodeData)
    (st : build_state) (program : ProgramDict) : build_state :=
  let parent_id_path := get_parent_id_path (program_path program) in
  match id_path_to_node st !! parent_id_path with
  | None => st
  | Some parent_node =>
      let child_node := length (heap st) in
      {| heap := alter (Backend.append_child child_node) parent_node (heap st)
                 ++ [ {| Backend.cell_data := convert program;
                         Backend.cell_children := [] |} ];
         id_path_to_node := <[program_path program := child_node]> (id_path_to_node st) |}
  end.

(** No root analysis, no log, no flag propagation: the first record after
    the sort is taken as the root. *)
Definition get_all_programs_as_tree (convert : ProgramDict → NodeData)
    (fetched : list ProgramDict) : option ProgramTreeNode :=
  match fetched with
  | [] => None
  | _ :: _ =>
    match sort_by Backend.depth_key fetched with
    | [] => None
    | root_program :: program_data =>
        let st0 := {| heap := [ {| Backend.cell_data := convert root_program;
                                   Backend.cell_children := [] |} ];
                      id_path_to_node := {[ program_path root_program := 0 ]} |} in
        let st := foldl (populate_step convert) st0 program_data in
        Backend.reify (length (heap st)) (heap st) 0
    end
  end.

End Legacy.

(** ** Vocabulary of the hierarchy claims *)

(** The smallest depth among the records ([0] for no record). *)
Definition min_depth (data : list ProgramDict) : nat :=
  match data with
  | [] => 0
  | p :: rest => foldr (λ q m, Backend.depth_key q `min` m) (Backend.depth_key p) rest
  end.

(** The records at the smallest depth, in the order of the input. *)
Definition root_candidates (data : list ProgramDict) : list ProgramDict :=
  filter (λ p, Backend.depth_key p = min_depth data) data.

(** A record with the given path, name and flag, used in the examples. *)
Definition sample_program (path nm : string) (expects : bool) : ProgramDict :=
  {| program_id := 0; program_path := path; name := nm; date := 0;
     expect_software_effort := expects; description := ""; aliases := "";
     status := ""; primary_location := ""; organization_leader_name := "";
     chief_engineer_name := ""; program_affiliation := ""; program_value := "";
     program_type := "" |}.

(** The example of the design document: root ["1"], ["1.1"] expecting,
    ["1.1.1"] not; listed deepest first, with an orphan. *)
Definition example_programs : list ProgramDict :=
  [ sample_program "1.1.1" "leaf" false;
    sample_program "1.1" "middle" true;
    sample_program "1" "top" false;
    sample_program "2.1" "stray" true ].

(** Two records at the top level. *)
Definition two_roots : list ProgramDict :=
  [ sample_program "1" "first" false; sample_program "2" "second" false ].

(** A root whose path is the empty string, with one expecting child. *)
Definition empty_root_programs : list ProgramDict :=
  [ sample_program "" "top" false; sample_program ".1" "below" true ].

(** The node created for a record, before any flag is propagated to it. *)
Definition node_of (p : ProgramDict) : NodeData :=
  Backend.cell_data (Backend.new_node p).

(** A path with its final dot-segment removed. *)
Definition parent_path (path : string) : string :=
  Path.join (removelast (Path.split path)).

(** [s] lies below [a]: removing one or more final dot-segments from [s]
    gives [a]. *)
Inductive descends_from (a : string) : string → Prop :=
  | descends_child s :
      Path.has_dot s = true → parent_path s = a → descends_from a s
  | descends_deeper s :
      Path.has_dot s = true → descends_from a (parent_path s) → descends_from a s.

(** Step 7 of the hierarchy builder in the words of the design document:
    a record whose parent path is the path of a node inserted so far is
    inserted, any other record is skipped as an orphan. The state is the
    pair (inserted records, orphans), both in the order met. *)
Definition place_step (acc : list ProgramDict * list ProgramDict) (p : ProgramDict)
    : list ProgramDict * list ProgramDict :=
  if bool_decide (parent_path (program_path p) ∈ program_path <$> acc.1)
  then (acc.1 ++ [p], acc.2)
  else (acc.1, acc.2 ++ [p]).

Definition place (root : ProgramDict) (records : list ProgramDict)
    : list ProgramDict * list ProgramDict :=
  foldl place_step ([root], []) records.

Definition orphan_warning (p : ProgramDict) : log_entry :=
  LogOrphan (name p) (program_path p) (parent_path (program_path p)).

(** The flag of a node as seen from its parent in the "Bubble Up" loop. *)
Definition is_relevant (d : NodeData) : bool :=
  expecting_software_efforts d || has_descendant_expecting_software_effort d.

(** The flag of a node agrees with what its children show. *)
Definition locally_flagged (s : ProgramTreeNode) : Prop :=
  has_descendant_expecting_software_effort (tree_data s) = true ↔
  ∃ c, c ∈ tree_children s ∧ is_relevant (tree_data c) = true.

(** Two trees of the same shape whose nodes are related position by
    position. *)
#[local] Unset Elimination Schemes.
Inductive tree_rel (R : NodeData → NodeData → Prop)
    : ProgramTreeNode → ProgramTreeNode → Prop :=
  | tree_rel_node d d' cs cs' :
      R d d' → Forall2 (tree_rel R) cs cs' →
      tree_rel R (TreeNode d cs) (TreeNode d' cs').
#[local] Set Elimination Schemes.

(** Number of occurrences of a reference in a list of references. *)
Definition occ (p : nat) (l : list nat) : nat := length (filter (λ x, x = p) l).

(** ** Storage and its transactions *)

(** The four aspects of an effort that are inherited or overridden; each names
    a profile model and the [local_*] foreign key of the effort to it. *)
Inductive Aspect :=
  | statement_of_work_profile
  | technical_points_of_contact
  | developer_setup
  | work_location.

#[global] Instance Aspect_eq_dec : EqDecision Aspect.
Proof. solve_decision. Defined.

Inductive Table :=
  | ProgramInfos
  | Efforts
  | Profiles (X : Aspect)
  | EffortLinks.

(** What reaches the database, in order. *)
Inductive StorageOp :=
  | Select (t : Table)
  | Insert_ (t : Table)
  | Update (t : Table)
  | Delete (t : Table)
  | Begin
  | Commit
  | Rollback.

Module Model.

(** Modelled from the spec: the models of [apps.swe_program_catalog.models]
    are not part of the sources. A row of [ProgramCatalogInfoModel] with the
    columns the service filters on; [program_active] is the [active] column
    reached through the [program] foreign key. *)
Record ProgramCatalogInfoModel := {
  id : string;
  program_id : Z;
  program_active : bool;
  date : Z;
}.

(** How [linked_software_efforts] is stored: rows of a many-to-many relation
    (the primary keys of the targets) or a JSON list of identifiers. *)
Inductive LinkedEfforts :=
  | ManyToMany (targets : gset positive)
  | JsonList (ids : list (option string)).

(** Modelled from the spec: a row of [SoftwareEffortModel]. [parent] and
    [program_catalog_info] hold the key of the row referred to. *)
Record SoftwareEffortModel := {
  pk : positive;
  uuid : string;
  name : string;
  program_catalog_info : string;
  parent : option string;
  inherit : Aspect → bool;
  local_id : Aspect → option positive;
  linked_software_efforts : LinkedEfforts;
}.

End Model.

(** The tables. [program_infos] and [efforts] list their rows in
    primary-key order, the order of [.first()]; a profile row is an attribute
    bag under its primary key. [link_field_is_m2m] is the schema fact read
    from [SoftwareEffortModel._meta]. *)
Record Database := {
  program_infos : list Model.ProgramCatalogInfoModel;
  efforts : list Model.SoftwareEffortModel;
  statement_of_work_profiles : gmap positive (gmap string string);
  technical_point_of_contacts : gmap positive (gmap string string);
  developer_setups : gmap positive (gmap string string);
  work_locations : gmap positive (gmap string string);
  link_field_is_m2m : bool;
}.

(** The table of the profile model of an aspect. *)
Definition profiles (d : Database) (X : Aspect) : gmap positive (gmap string string) :=
  match X with
  | statement_of_work_profile => statement_of_work_profiles d
  | technical_points_of_contact => technical_point_of_contacts d
  | developer_setup => developer_setups d
  | work_location => work_locations d
  end.

Record World := {
  db : Database;
  trace : list StorageOp;
  uuid4_calls : nat;
}.

(** A call of the service: it ends with a value or an exception, in a new
    state of the world. *)
Definition M (A : Type) : Type := World → result A * World.

#[global] Instance M_ret : MRet M := λ A a w, (Ok a, w).
#[global] Instance M_bind : MBind M := λ A B f m w,
  match m w with
  | (Ok a, w') => f a w'
  | (Raise e, w') => (Raise e, w')
  end.

Definition raise {A} (e : exn) : M A := λ w, (Raise e, w).

Definition get_db : M Database := λ w, (Ok (db w), w).

Definition put_db (d : Database) : M unit := λ w,
  (Ok tt, {| db := d; trace := trace w; uuid4_calls := uuid4_calls w |}).

Definition record_op (op : StorageOp) : M unit := λ w,
  (Ok tt, {| db := db w; trace := trace w ++ [op]; uuid4_calls := uuid4_calls w |}).

(** The world after further operations have reached the database. *)
Definition traced (ops : list StorageOp) (w : World) : World :=
  {| db := db w; trace := trace w ++ ops; uuid4_calls := uuid4_calls w |}.

(** The world with another content of the tables. *)
Definition stored (d : Database) (w : World) : World :=
  {| db := d; trace := trace w; uuid4_calls := uuid4_calls w |}.

(** [with transaction.atomic():] the writes of the body are kept when it
    ends normally and undone when it raises. *)
Definition atomic {A} (body : M A) : M A := λ w,
  match (record_op Begin ≫= λ _, body) w with
  | (Ok a, w') => (record_op Commit ≫= λ _, mret a) w'
  | (Raise e, w') =>
      (Raise e, {| db := db w; trace := trace w' ++ [Rollback];
                   uuid4_calls := uuid4_calls w' |})
  end.

Definition set_efforts (es : list Model.SoftwareEffortModel) (d : Database) : Database :=
  {| program_infos := program_infos d; efforts := es;
     statement_of_work_profiles := statement_of_work_profiles d;
     technical_point_of_contacts := technical_point_of_contacts d;
     developer_setups := developer_setups d;
     work_locations := work_locations d;
     link_field_is_m2m := link_field_is_m2m d |}.

Definition set_profiles (X : Aspect) (t : gmap positive (gmap string string))
    (d : Database) : Database :=
  {| program_infos := program_infos d; efforts := efforts d;
     statement_of_work_profiles :=
       if decide (X = statement_of_work_profile) then t else statement_of_work_profiles d;
     technical_point_of_contacts :=
       if decide (X = technical_points_of_contact) then t else technical_point_of_contacts d;
     developer_setups :=
       if decide (X = developer_setup) then t else developer_setups d;
     work_locations :=
       if decide (X = work_location) then t else work_locations d;
     link_field_is_m2m := link_field_is_m2m d |}.

(** *** Queries and writes *)

Definition select_program_infos : M (list Model.ProgramCatalogInfoModel) :=
  _ ← record_op (Select ProgramInfos); d ← get_db; mret (program_infos d).

(** [SoftwareEffortModel.objects.filter(uuid=u).first()]; the [uuid] column
    is compared as text, as the numeric fallback of the link resolution
    presupposes. *)
Definition select_effort_by_uuid (u : string) : M (option Model.SoftwareEffortModel) :=
  _ ← record_op (Select Efforts); d ← get_db;
  mret (snd <$> list_find (λ e, Model.uuid e = u) (efforts d)).

(** [SoftwareEffortModel.objects.filter(pk=k).first()] *)
Definition select_effort_by_pk (k : Z) : M (option Model.SoftwareEffortModel) :=
  _ ← record_op (Select Efforts); d ← get_db;
  mret (snd <$> list_find (λ e, Zpos (Model.pk e) = k) (efforts d)).

(** [SoftwareEffortModel.objects.get(uuid=u)]: the one row that matches;
    [DoesNotExist] without a match, [MultipleObjectsReturned] with several. *)
Definition get_effort_by_uuid (u : string) : M Model.SoftwareEffortModel :=
  _ ← record_op (Select Efforts); d ← get_db;
  match filter (λ e, Model.uuid e = u) (efforts d) with
  | [] => raise DoesNotExist
  | [effort] => mret effort
  | _ => raise MultipleObjectsReturned
  end.

(** [try: body] with [except] clauses: [except e] is the handler of the
    first clause that matches [e], if one does. *)
Definition try_except {A} (body : M A) (except : exn → option (M A)) : M A := λ w,
  match body w with
  | (Ok a, w') => (Ok a, w')
  | (Raise e, w') =>
      match except e with
      | Some handler => handler w'
      | None => (Raise e, w')
      end
  end.

(** The name of the foreign key of an aspect. *)
Definition local_field (X : Aspect) : string :=
  match X with
  | statement_of_work_profile => "local_statement_of_work_profile"
  | technical_points_of_contact => "local_technical_points_of_contact"
  | developer_setup => "local_developer_setup"
  | work_location => "local_work_location"
  end.

(** Reading [effort.local_<X>] under [getattr(effort, name, None)]: nothing
    without a key, else the row, fetched; nothing again where the key has no
    row, since the default of [getattr] takes the place of the
    [RelatedObjectDoesNotExist], an [AttributeError]. *)
Definition related (effort : Model.SoftwareEffortModel) (X : Aspect)
    : M (option (positive * gmap string string)) :=
  match Model.local_id effort X with
  | None => mret None
  | Some k =>
      _ ← record_op (Select (Profiles X)); d ← get_db;
      mret ((λ row, (k, row)) <$> profiles d X !! k)
  end.

(** Reading [effort.local_<X>] as an attribute, the key being set: the row,
    fetched, or [RelatedObjectDoesNotExist] where the key has no row. *)
Definition related_object (effort : Model.SoftwareEffortModel) (X : Aspect)
    : M (positive * gmap string string) :=
  existing_rel ← related effort X;
  match existing_rel with
  | Some rel => mret rel
  | None => raise (RelatedObjectDoesNotExist (local_field X))
  end.

(** Modelled from the spec: [hard_delete()] destroys the row. *)
Definition hard_delete_profile (X : Aspect) (k : positive) : M unit :=
  _ ← record_op (Delete (Profiles X)); d ← get_db;
  put_db (set_profiles X (delete k (profiles d X)) d).

Definition hard_delete_effort (effort : Model.SoftwareEffortModel) : M unit :=
  _ ← record_op (Delete Efforts); d ← get_db;
  put_db (set_efforts (filter (λ e, Model.pk e ≠ Model.pk effort) (efforts d)) d).

(** [model_class.objects.create] on the dumped attributes, the new key
    returned. *)
Definition create_profile (X : Aspect) (row : gmap string string) : M positive :=
  _ ← record_op (Insert_ (Profiles X)); d ← get_db;
  let k := fresh (dom (profiles d X)) in
  _ ← put_db (set_profiles X (<[k := row]> (profiles d X)) d);
  mret k.

(** [existing_rel.save()] after the [setattr] loop. *)
Definition save_profile (X : Aspect) (k : positive) (row : gmap string string) : M unit :=
  _ ← record_op (Update (Profiles X)); d ← get_db;
  put_db (set_profiles X (<[k := row]> (profiles d X)) d).

(** The table with the row of [effort]'s key replaced by [effort]. *)
Definition write_row (effort : Model.SoftwareEffortModel)
    (rows : list Model.SoftwareEffortModel) : list Model.SoftwareEffortModel :=
  (λ e, if decide (Model.pk e = Model.pk effort) then effort else e) <$> rows.

(** [instance.save()] *)
Definition save_effort (effort : Model.SoftwareEffortModel) : M unit :=
  _ ← record_op (Update Efforts); d ← get_db;
  put_db (set_efforts (write_row effort (efforts d)) d).

(** ** Python values in effort payloads *)

Module Py.

Inductive scalar :=
  | None_
  | Bool (b : bool)
  | Int (z : Z)
  | Str (s : string).

(** Truth value, as tested by [if v:]. *)
Definition truthy (v : scalar) : bool :=
  match v with
  | None_ => false
  | Bool b => b
  | Int z => negb (z =? 0)%Z
  | Str s => negb (String.eqb s "")
  end.

(** [str(v)] *)
Definition str (v : scalar) : string :=
  match v with
  | None_ => "None"
  | Bool true => "True"
  | Bool false => "False"
  | Int z => pretty z
  | Str s => s
  end.

(** [s.strip()], [s.isdigit()] and [int(s)], which the link resolution
    applies to identifiers. What they do is decided by the character tables
    and the settings of the interpreter; the service is modelled over any
    three such functions, a [string] standing for a Python [str]. [int]
    raises a [ValueError] where it rejects its argument. *)
Class Builtins := {
  strip : string → string;
  isdigit : string → bool;
  int : string → result Z;
}.

(** The three built-ins on text of the characters U+0000 to U+00FF, a
    [string] read as the sequence of its code points: CPython's tables on
    that range, and [int] with the default limit of 4300 digits. *)
Module Latin1.

(** [c.isspace()]: U+0009 to U+000D, U+001C to U+0020, U+0085, U+00A0. *)
Definition is_space (c : ascii) : bool :=
  let n := nat_of_ascii c in
  ((9 <=? n) && (n <=? 13)) || ((28 <=? n) && (n <=? 32)) || (n =? 133) || (n =? 160).

Fixpoint lstrip (s : string) : string :=
  match s with
  | EmptyString => EmptyString
  | String c s' => if is_space c then lstrip s' else s
  end.

Fixpoint rstrip (s : string) : string :=
  match s with
  | EmptyString => EmptyString
  | String c s' =>
      match rstrip s' with
      | EmptyString => if is_space c then EmptyString else String c EmptyString
      | r => String c r
      end
  end.

(** [s.strip()] *)
Definition strip (s : string) : string := rstrip (lstrip s).

(** The decimal digits, ["0"] to ["9"]. *)
Definition is_decimal (c : ascii) : bool :=
  let n := nat_of_ascii c in (48 <=? n) && (n <=? 57).

(** [c.isdigit()]: the decimal digits and the superscripts U+00B2, U+00B3
    and U+00B9, which are digits without being decimal. *)
Definition is_digit (c : ascii) : bool :=
  let n := nat_of_ascii c in
  is_decimal c || (n =? 178) || (n =? 179) || (n =? 185).

Fixpoint all_digits (s : string) : bool :=
  match s with
  | EmptyString => true
  | String c s' => is_digit c && all_digits s'
  end.

(** [s.isdigit()] *)
Definition isdigit (s : string) : bool :=
  negb (String.eqb s "") && all_digits s.

(** The white space that [int] skips around a literal: U+0009 to U+000D
    and U+0020, and beyond ASCII the spaces U+0085 and U+00A0. *)
Definition int_space (c : ascii) : bool :=
  let n := nat_of_ascii c in
  ((9 <=? n) && (n <=? 13)) || (n =? 32) || (n =? 133) || (n =? 160).

Fixpoint skip_spaces (s : string) : string :=
  match s with
  | EmptyString => EmptyString
  | String c s' => if int_space c then skip_spaces s' else s
  end.

(** The digits of a literal, single underscores allowed between them: the
    value, the number of digits and what follows; [None] for two
    underscores in a row or an underscore at the end. *)
Fixpoint scan_digits (acc : N) (digits : nat) (after_underscore : bool) (s : string)
    : option (N * nat * string) :=
  match s with
  | EmptyString => if after_underscore then None else Some (acc, digits, s)
  | String c s' =>
      if is_decimal c
      then scan_digits (10 * acc + N.of_nat (nat_of_ascii c - 48))%N (S digits) false s'
      else if Ascii.eqb c "_"%char
      then if after_underscore then None else scan_digits acc digits true s'
      else if after_underscore then None else Some (acc, digits, s)
  end.

Definition max_str_digits : nat := 4300.

(** [int(s)]: white space, a sign, digits, white space. *)
Definition int (s : string) : result Z :=
  let literal := skip_spaces s in
  let '(negative, literal) :=
    match literal with
    | String "+"%char rest => (false, rest)
    | String "-"%char rest => (true, rest)
    | _ => (false, literal)
    end in
  match literal with
  | String "_"%char _ => Raise (ValueError_int s)
  | _ =>
      match scan_digits 0 0 false literal with
      | Some (n, digits, rest) =>
          if (digits =? 0) || (max_str_digits <? digits)
             || negb (String.eqb (skip_spaces rest) "")
          then Raise (ValueError_int s)
          else Ok (if negative then - Z.of_N n else Z.of_N n)%Z
      | None => Raise (ValueError_int s)
      end
  end.

End Latin1.

#[global] Instance latin1 : Builtins :=
  {| strip := Latin1.strip; isdigit := Latin1.isdigit; int := Latin1.int |}.

(** An optional string under [if x:]. *)
Definition truthy_str (x : option string) : bool :=
  match x with
  | Some s => negb (String.eqb s "")
  | None => false
  end.

End Py.

(** An entry of [linked_software_efforts] in a payload: a scalar, or a dict
    of scalars. *)
Inductive raw_link :=
  | RawScalar (v : Py.scalar)
  | RawDict (d : gmap string Py.scalar).

(** The [SoftwareEffort] payload. A profile is given by its [model_dump()]. *)
Module Payload.
Record SoftwareEffort := {
  uuid : option string;
  name : string;
  parent_uuid : option string;
  inherit : Aspect → bool;
  profile : Aspect → option (gmap string string);
  linked_software_efforts : option (list raw_link);
}.
End Payload.

(** ** The service on the store (backend copy) *)

Module Service.
Section service.

(** The interpreter's [str.strip], [str.isdigit] and [int]. *)
Context {builtins : Py.Builtins}.

(** [uuid.UUID(s)] followed by the canonical text of the result; [None]
    where the constructor raises. *)
Variable uuid_ctor : string → option string.

(** The values that the [uuid] default of a new effort takes, call after
    call. *)
Variable uuid4 : nat → string.

(** [Program], and [_convert_program_catalog_info_to_dto]: the serializer's
    [.data], the copy of its ["program"] entry and [Program.model_validate],
    none of which is in the sources. [model_validate] returns an instance of
    the class or raises. *)
Variable Program : Type.
Variable convert_program_catalog_info_to_dto :
  option Model.ProgramCatalogInfoModel → result Program.

(** [Max("date")] over a group of rows (never empty). *)
Definition max_date (dates : list Z) : Z :=
  match dates with
  | [] => 0%Z
  | d :: ds => foldr Z.max d ds
  end.

(** [_get_latest_programs]: [filter(program__active=True)], then
    [values("program_id")] groups the rows by [program_id], then
    [annotate(latest_date=Max("date"))] is computed per group. The rows of
    the result are pairs (program_id, latest_date). *)
Definition _get_latest_programs : M (list (Z * Z)) :=
  rows ← select_program_infos;
  let active := filter (λ r, Model.program_active r = true) rows in
  mret ((λ pid, (pid, max_date (Model.date <$>
                     filter (λ r, Model.program_id r = pid) active)))
        <$> remove_dups (Model.program_id <$> active)).

(** The filter shared by [get_program_by_uuid] and [get_program_by_id]. *)
Definition current_active (latest : list (Z * Z)) (r : Model.ProgramCatalogInfoModel) : Prop :=
  Model.program_active r = true ∧ Model.date r ∈ latest.*2.

#[global] Instance current_active_dec latest r : Decision (current_active latest r).
Proof. unfold current_active. apply _. Defined.

Definition lift_result {A} (r : result A) : M A := λ w, (r, w).

Definition get_program_by_uuid (id : string) : M (option Program) :=
  latest_program_info ← _get_latest_programs;
  rows ← select_program_infos;
  let model := snd <$> list_find (λ r, current_active latest_program_info r
                                       ∧ Model.id r = id) rows in
  p ← lift_result (convert_program_catalog_info_to_dto model);
  mret (Some p).

Definition get_program_by_id (id : Z) : M (option Program) :=
  latest_program_info ← _get_latest_programs;
  rows ← select_program_infos;
  let model := snd <$> list_find (λ r, current_active latest_program_info r
                                       ∧ Model.program_id r = id) rows in
  p ← lift_result (convert_program_catalog_info_to_dto model);
  mret (Some p).

(** [delete_effort_by_uuid]. Each of the four tests is on the stored key
    ([local_*_id]); where the key is set, [effort.local_*] fetches the row
    that [hard_delete()] is called on. *)
Definition delete_local (effort : Model.SoftwareEffortModel) (X : Aspect) : M unit :=
  if bool_decide (is_Some (Model.local_id effort X))
  then rel ← related_object effort X; hard_delete_profile X rel.1
  else mret tt.

Definition delete_effort_by_uuid (effort_uuid : string) : M bool :=
  match uuid_ctor effort_uuid with
  | None => mret false
  | Some valid_uuid =>
      found ← try_except (effort ← get_effort_by_uuid valid_uuid; mret (Some effort))
                 (λ e, match e with
                       | DoesNotExist => Some (mret None)
                       | _ => None
                       end);
      match found with
      | None => mret false
      | Some effort =>
          _ ← atomic (
            _ ← delete_local effort statement_of_work_profile;
            _ ← delete_local effort developer_setup;
            _ ← delete_local effort technical_points_of_contact;
            _ ← delete_local effort work_location;
            hard_delete_effort effort);
          mret true
      end
  end.

(** *** [save_efforts_for_program] *)

(** [_create_effort_relation] *)
Definition _create_effort_relation (effort_data : option (gmap string string))
    (django_model : Aspect) : M (option positive) :=
  let relation_data := effort_data in
  match relation_data with
  | Some d =>
      if bool_decide (d ≠ ∅)
      then k ← create_profile django_model d; mret (Some k)
      else mret None
  | None => mret None
  end.

(** The local helper [manage_local_profile]; it returns the key that the
    caller then assigns to the foreign key. *)
Definition manage_local_profile (effort_inst : Model.SoftwareEffortModel)
    (inherit_flag : bool) (input_profile_data : option (gmap string string))
    (model_class : Aspect) (fk_field_name : Aspect) : M (option positive) :=
  existing_rel ← related effort_inst fk_field_name;
  if inherit_flag then
    _ ← match existing_rel with
        | Some (k, _) => hard_delete_profile fk_field_name k
        | None => mret tt
        end;
    mret None
  else
    match input_profile_data with
    | None => mret (fst <$> existing_rel)
    | Some d =>
        match existing_rel with
        | Some (k, row) => _ ← save_profile fk_field_name k (d ∪ row); mret (Some k)
        | None => _create_effort_relation input_profile_data model_class
        end
    end.

Definition set_local (X : Aspect) (k : option positive)
    (e : Model.SoftwareEffortModel) : Model.SoftwareEffortModel :=
  {| Model.pk := Model.pk e; Model.uuid := Model.uuid e; Model.name := Model.name e;
     Model.program_catalog_info := Model.program_catalog_info e;
     Model.parent := Model.parent e; Model.inherit := Model.inherit e;
     Model.local_id := <[X := k]> (Model.local_id e);
     Model.linked_software_efforts := Model.linked_software_efforts e |}.

Definition set_linked (l : Model.LinkedEfforts)
    (e : Model.SoftwareEffortModel) : Model.SoftwareEffortModel :=
  {| Model.pk := Model.pk e; Model.uuid := Model.uuid e; Model.name := Model.name e;
     Model.program_catalog_info := Model.program_catalog_info e;
     Model.parent := Model.parent e; Model.inherit := Model.inherit e;
     Model.local_id := Model.local_id e;
     Model.linked_software_efforts := l |}.

(** The "Update scalars", "Update inheritance flags" and "Update Parent"
    assignments. *)
Definition update_scalars (data : Payload.SoftwareEffort)
    (program_instance : Model.ProgramCatalogInfoModel)
    (parent_instance : option Model.SoftwareEffortModel)
    (e : Model.SoftwareEffortModel) : Model.SoftwareEffortModel :=
  {| Model.pk := Model.pk e; Model.uuid := Model.uuid e;
     Model.name := Payload.name data;
     Model.program_catalog_info := Model.id program_instance;
     Model.parent := Model.uuid <$> parent_instance;
     Model.inherit := Payload.inherit data;
     Model.local_id := Model.local_id e;
     Model.linked_software_efforts := Model.linked_software_efforts e |}.

(** The [if instance:] branch. *)
Definition update_effort (data : Payload.SoftwareEffort)
    (program_instance : Model.ProgramCatalogInfoModel)
    (parent_instance : option Model.SoftwareEffortModel)
    (instance : Model.SoftwareEffortModel) : M Model.SoftwareEffortModel :=
  let instance := update_scalars data program_instance parent_instance instance in
  k ← manage_local_profile instance
        (Payload.inherit data statement_of_work_profile)
        (Payload.profile data statement_of_work_profile)
        statement_of_work_profile statement_of_work_profile;
  let instance := set_local statement_of_work_profile k instance in
  k ← manage_local_profile instance
        (Payload.inherit data technical_points_of_contact)
        (Payload.profile data technical_points_of_contact)
        technical_points_of_contact technical_points_of_contact;
  let instance := set_local technical_points_of_contact k instance in
  k ← manage_local_profile instance
        (Payload.inherit data developer_setup)
        (Payload.profile data developer_setup)
        developer_setup developer_setup;
  let instance := set_local developer_setup k instance in
  k ← manage_local_profile instance
        (Payload.inherit data work_location)
        (Payload.profile data work_location)
        work_location work_location;
  let instance := set_local work_location k instance in
  _ ← save_effort instance;
  mret instance.

(** A profile of the "Creating new effort" branch. *)
Definition create_local (data : Payload.SoftwareEffort) (X : Aspect) : M (option positive) :=
  if negb (Payload.inherit data X) && bool_decide (is_Some (Payload.profile data X))
  then _create_effort_relation (Payload.profile data X) X
  else mret None.

(** [SoftwareEffortModel.objects.create(...)]: the row gets the next key and
    a [uuid] of its own, not the one of the payload. *)
Definition create_effort_row (data : Payload.SoftwareEffort)
    (program_instance : Model.ProgramCatalogInfoModel)
    (parent_instance : option Model.SoftwareEffortModel)
    (locals : Aspect → option positive) : M Model.SoftwareEffortModel := λ w,
  let d := db w in
  let instance :=
    {| Model.pk := Pos.succ (foldr Pos.max 1%positive (Model.pk <$> efforts d));
       Model.uuid := uuid4 (uuid4_calls w);
       Model.name := Payload.name data;
       Model.program_catalog_info := Model.id program_instance;
       Model.parent := Model.uuid <$> parent_instance;
       Model.inherit := Payload.inherit data;
       Model.local_id := locals;
       Model.linked_software_efforts :=
         if link_field_is_m2m d then Model.ManyToMany ∅ else Model.JsonList [] |} in
  (Ok instance,
   {| db := set_efforts (efforts d ++ [instance]) d;
      trace := trace w ++ [Insert_ Efforts];
      uuid4_calls := S (uuid4_calls w) |}).

(** The [else] branch. *)
Definition create_effort (data : Payload.SoftwareEffort)
    (program_instance : Model.ProgramCatalogInfoModel)
    (parent_instance : option Model.SoftwareEffortModel) : M Model.SoftwareEffortModel :=
  sow_profile ← create_local data statement_of_work_profile;
  tech_contacts ← create_local data technical_points_of_contact;
  developer_setup_ ← create_local data developer_setup;
  work_location_ ← create_local data work_location;
  create_effort_row data program_instance parent_instance
    (λ X, match X with
          | statement_of_work_profile => sow_profile
          | technical_points_of_contact => tech_contacts
          | developer_setup => developer_setup_
          | work_location => work_location_
          end).

(** The identifier taken from a raw entry; [None] is Python's [None]. *)
Definition extract_identifier (raw_item : raw_link) : option string :=
  match raw_item with
  | RawDict d =>
      head (omap (λ k, v ← d !! k; if Py.truthy v then Some (Py.str v) else None)
                 ["uuid"; "id"; "pk"])
  | RawScalar v => Some (Py.strip (Py.str v))
  end.

(** The local helper [resolve_identifier_to_instance]. Nothing catches the
    [ValueError] of [int(identifier)]: it leaves the helper, the loop and the
    transaction. *)
Definition resolve_identifier_to_instance (identifier : option string)
    : M (option Model.SoftwareEffortModel) :=
  if negb (Py.truthy_str identifier) then mret None
  else
    let identifier := default "" identifier in
    found ← select_effort_by_uuid identifier;
    match found with
    | Some e => mret (Some e)
    | None =>
        if Py.isdigit identifier
        then pk ← lift_result (Py.int identifier); select_effort_by_pk pk
        else mret None
    end.

(** One turn of [for raw_item in raw_links], on the pair
    ([resolved_targets], [resolved_ids]). *)
Definition link_step
    (acc : list Model.SoftwareEffortModel * list (option string))
    (raw_item : raw_link)
    : M (list Model.SoftwareEffortModel * list (option string)) :=
  let identifier := extract_identifier raw_item in
  target ← resolve_identifier_to_instance identifier;
  match target with
  | Some t => mret (acc.1 ++ [t], acc.2 ++ [Some (Model.uuid t)])
  | None => mret (acc.1, acc.2 ++ [identifier])
  end.

Fixpoint for_each {A B} (f : B → A → M B) (acc : B) (l : list A) : M B :=
  match l with
  | [] => mret acc
  | x :: l' => acc' ← f acc x; for_each f acc' l'
  end.

(** [instance.linked_software_efforts.set(resolved_targets)] *)
Definition set_links (instance : Model.SoftwareEffortModel)
    (resolved_targets : list Model.SoftwareEffortModel) : M unit :=
  _ ← record_op (Update EffortLinks); d ← get_db;
  put_db (set_efforts
            (write_row
               (set_linked (Model.ManyToMany (list_to_set (Model.pk <$> resolved_targets)))
                           instance)
               (efforts d)) d).

(** Step 3, "Handle Linked Software Efforts". *)
Definition link_efforts (instance : Model.SoftwareEffortModel)
    (raw_links : list raw_link) : M unit :=
  d ← get_db;
  resolved ← for_each link_step ([], []) raw_links;
  if link_field_is_m2m d
  then set_links instance resolved.1
  else save_effort (set_linked (Model.JsonList resolved.2) instance).

(** Steps 1 and 2 inside the transaction: the parent, then the effort
    itself, updated when the payload's UUID finds it and created otherwise. *)
Definition upsert_effort (data : Payload.SoftwareEffort)
    (program_instance : Model.ProgramCatalogInfoModel) : M Model.SoftwareEffortModel :=
  parent_instance ←
    (if Py.truthy_str (Payload.parent_uuid data)
     then select_effort_by_uuid (default "" (Payload.parent_uuid data))
     else mret None);
  let effort_uuid := Payload.uuid data in
  instance ←
    (if Py.truthy_str effort_uuid
     then select_effort_by_uuid (default "" effort_uuid)
     else mret None);
  match instance with
  | Some existing => update_effort data program_instance parent_instance existing
  | None => create_effort data program_instance parent_instance
  end.

(** The body of [with transaction.atomic():]. *)
Definition save_transaction (data : Payload.SoftwareEffort)
    (program_instance : Model.ProgramCatalogInfoModel) : M unit :=
  instance ← upsert_effort data program_instance;
  match Payload.linked_software_efforts data with
  | None => mret tt
  | Some raw_links => link_efforts instance raw_links
  end.

Definition save_efforts_for_program (id : Z)
    (new_effort_data : option Payload.SoftwareEffort) : M unit :=
  match new_effort_data with
  | None => mret tt
  | Some data =>
      rows ← select_program_infos;
      match list_find (λ r, Model.program_id r = id) rows with
      | None => mret tt
      | Some (_, program_instance) => atomic (save_transaction data program_instance)
      end
  end.

End service.
End Service.

(** ** The version resolver of the older copy *)

Module LegacyService.

(** [_get_latest_programs] of [service_temp.py]:
    [filter(program__active=True).annotate(latest_date=Max("date"))] comes
    before [values("program_id", "latest_date")], so the aggregate is taken
    per row (each row is its own group) and [values] only selects the two
    columns. *)
Definition _get_latest_programs : M (list (Z * Z)) :=
  rows ← select_program_infos;
  let active := filter (λ r, Model.program_active r = true) rows in
  mret ((λ r, (Model.program_id r, Service.max_date [Model.date r])) <$> active).

End LegacyService.

(** ** Sample stores *)

(** Nothing stored, nothing done yet. *)
Definition empty_world : World :=
  {| db := {| program_infos := []; efforts := [];
              statement_of_work_profiles := ∅; technical_point_of_contacts := ∅;
              developer_setups := ∅; work_locations := ∅;
              link_field_is_m2m := false |};
     trace := []; uuid4_calls := 0 |}.

(** Program 101 in two active versions, dated 5 and 9. *)
Definition two_versions_world : World :=
  {| db := {| program_infos :=
                [ {| Model.id := "a"; Model.program_id := 101;
                     Model.program_active := true; Model.date := 5 |};
                  {| Model.id := "b"; Model.program_id := 101;
                     Model.program_active := true; Model.date := 9 |} ];
              efforts := [];
              statement_of_work_profiles := ∅; technical_point_of_contacts := ∅;
              developer_setups := ∅; work_locations := ∅;
              link_field_is_m2m := false |};
     trace := []; uuid4_calls := 0 |}.

(** ** Vocabulary of the deletion claim *)

(** The store after [delete_local]. *)
Definition without_local (effort : Model.SoftwareEffortModel) (X : Aspect)
    (d : Database) : Database :=
  match Model.local_id effort X with
  | Some k => set_profiles X (delete k (profiles d X)) d
  | None => d
  end.

(** What reaches the database for the linked profiles, in order: each is
    fetched, then deleted. *)
Definition local_deletes (effort : Model.SoftwareEffortModel) : list StorageOp :=
  [statement_of_work_profile; developer_setup; technical_points_of_contact; work_location]
  ≫= λ X, match Model.local_id effort X with
          | Some _ => [Select (Profiles X); Delete (Profiles X)]
          | None => []
          end.

(** The keys of [effort] that are set refer to stored profile rows. *)
Definition locals_stored (effort : Model.SoftwareEffortModel) (d : Database) : Prop :=
  ∀ X k, Model.local_id effort X = Some k → is_Some (profiles d X !! k).

(** An effort with two local profiles, and its store. *)
Definition sample_effort : Model.SoftwareEffortModel :=
  {| Model.pk := 1; Model.uuid := "e-1"; Model.name := "effort";
     Model.program_catalog_info := "a"; Model.parent := None;
     Model.inherit := λ X, match X with
                           | statement_of_work_profile | work_location => false
                           | _ => true
                           end;
     Model.local_id := λ X, match X with
                            | statement_of_work_profile => Some 1%positive
                            | work_location => Some 2%positive
                            | _ => None
                            end;
     Model.linked_software_efforts := Model.JsonList [] |}.

Definition sample_world : World :=
  {| db := {| program_infos :=
                [ {| Model.id := "a"; Model.program_id := 101;
                     Model.program_active := true; Model.date := 5 |} ];
              efforts := [sample_effort];
              statement_of_work_profiles := {[ 1%positive := {[ "scope" := "old" ]} ]};
              technical_point_of_contacts := ∅;
              developer_setups := ∅;
              work_locations := {[ 2%positive := {[ "site" := "north" ]} ]};
              link_field_is_m2m := false |};
     trace := []; uuid4_calls := 0 |}.




(** ** Vocabulary of the effort claims *)

(** The local [X] profile that an effort is linked to: its key and row. *)
Definition linked_profile (X : Aspect) (e : Model.SoftwareEffortModel) (d : Database)
    : option (positive * gmap string string) :=
  k ← Model.local_id e X; row ← profiles d X !! k; Some (k, row).

(** The payload supplies data for [X]: a profile with at least one
    attribute. *)
Definition supplies (data : Payload.SoftwareEffort) (X : Aspect) : Prop :=
  ∃ d, Payload.profile data X = Some d ∧ d ≠ ∅.

(** The profile reconciliation rule of the design document as one function
    of (flag, data, existing reference): the next reference and the next
    content of the profile table. *)
Definition reconcile (inherit_flag : bool) (input : option (gmap string string))
    (old : option (positive * gmap string string))
    (table : gmap positive (gmap string string))
    : option positive * gmap positive (gmap string string) :=
  if inherit_flag then
    (None, match old with Some (k, _) => delete k table | None => table end)
  else
    match input, old with
    | None, _ => (fst <$> old, table)
    | Some d, Some (k, row) => (Some k, <[k := d ∪ row]> table)
    | Some d, None =>
        if bool_decide (d ≠ ∅)
        then (Some (fresh (dom table)), <[fresh (dom table) := d]> table)
        else (None, table)
    end.

(** The identifier that the flat list keeps for an entry: the canonical
    UUID of the effort it resolves to, else the identifier taken from it. *)
Definition resolve_in {builtins : Py.Builtins} (rows : list Model.SoftwareEffortModel)
    (identifier : option string) : option Model.SoftwareEffortModel :=
  match identifier with
  | None => None
  | Some s =>
      if String.eqb s "" then None
      else
        match list_find (λ e, Model.uuid e = s) rows with
        | Some (_, e) => Some e
        | None =>
            if Py.isdigit s
            then match Py.int s with
                 | Ok pk => snd <$> list_find (λ e, Zpos (Model.pk e) = pk) rows
                 | Raise _ => None
                 end
            else None
        end
  end.

(** [int] accepts the identifier if [isdigit] does: its numeric fallback
    raises nothing. *)
Definition int_accepts {builtins : Py.Builtins} (identifier : option string) : bool :=
  match identifier with
  | None => true
  | Some s =>
      if Py.isdigit s
      then match Py.int s with Ok _ => true | Raise _ => false end
      else true
  end.

(** The links of a payload, if it has any, hold no identifier that
    [isdigit] accepts and [int] rejects. *)
Definition links_accepted {builtins : Py.Builtins} (data : Payload.SoftwareEffort) : bool :=
  match Payload.linked_software_efforts data with
  | None => true
  | Some raw_links =>
      forallb (λ raw_item, int_accepts (Service.extract_identifier raw_item)) raw_links
  end.

(** What the flat list keeps for an entry: the canonical UUID of the effort
    that its identifier resolves to, else the identifier taken from it. *)
Definition stored_identifier {builtins : Py.Builtins} (rows : list Model.SoftwareEffortModel)
    (raw_item : raw_link) : option string :=
  match resolve_in rows (Service.extract_identifier raw_item) with
  | Some t => Some (Model.uuid t)
  | None => Service.extract_identifier raw_item
  end.

(** The efforts that the entries resolve to, unresolved entries dropped. *)
Definition resolved_targets {builtins : Py.Builtins} (rows : list Model.SoftwareEffortModel)
    (raw_links : list raw_link) : list Model.SoftwareEffortModel :=
  omap (λ raw_item, resolve_in rows (Service.extract_identifier raw_item)) raw_links.

(** The value of [linked_software_efforts] after step 3, in either storage
    shape. *)
Definition linked_value {builtins : Py.Builtins} (m2m : bool) (rows : list Model.SoftwareEffortModel)
    (raw_links : list raw_link) : Model.LinkedEfforts :=
  if m2m
  then Model.ManyToMany (list_to_set (Model.pk <$> resolved_targets rows raw_links))
  else Model.JsonList (stored_identifier rows <$> raw_links).

(** The effort that a UUID finds in a store. *)
Definition effort_of (u : string) (w : World) : option Model.SoftwareEffortModel :=
  snd <$> list_find (λ e, Model.uuid e = u) (efforts (db w)).


(** A payload that overrides the statement of work and inherits the rest,
    under the UUID of [sample_effort]. *)
Definition sample_payload : Payload.SoftwareEffort :=
  {| Payload.uuid := Some "e-1"; Payload.name := "renamed";
     Payload.parent_uuid := None;
     Payload.inherit := λ X, match X with
                             | statement_of_work_profile => false
                             | _ => true
                             end;
     Payload.profile := λ X, match X with
                             | statement_of_work_profile => Some {[ "scope" := "new" ]}
                             | _ => None
                             end;
     Payload.linked_software_efforts :=
       Some [ RawScalar (Py.Str " e-1 "); RawDict {[ "name" := Py.Str "x" ]};
              RawDict {[ "id" := Py.Str "nowhere" ]}; RawScalar (Py.Int 1) ] |}.

(** The same payload under a UUID that no effort has. *)
Definition unmatched_payload : Payload.SoftwareEffort :=
  {| Payload.uuid := Some "e-9"; Payload.name := Payload.name sample_payload;
     Payload.parent_uuid := None;
     Payload.inherit := Payload.inherit sample_payload;
     Payload.profile := Payload.profile sample_payload;
     Payload.linked_software_efforts := None |}.

(** UUIDs handed out to new efforts in the examples. *)
Definition sample_uuid4 (n : nat) : string := "new-" +:+ pretty n.

(** The effort that step 2 updates: the one found under the payload's
    UUID, if the payload has one. *)
Definition upsert_target (data : Payload.SoftwareEffort) (w : World)
    : option Model.SoftwareEffortModel :=
  if Py.truthy_str (Payload.uuid data)
  then effort_of (default "" (Payload.uuid data)) w
  else None.


(** A store with program 101 and nothing else, and the stores after one
    and two calls with [unmatched_payload]. *)
Definition program_world : World :=
  {| db := {| program_infos :=
                [ {| Model.id := "a"; Model.program_id := 101;
                     Model.program_active := true; Model.date := 5 |} ];
              efforts := [];
              statement_of_work_profiles := ∅; technical_point_of_contacts := ∅;
              developer_setups := ∅; work_locations := ∅;
              link_field_is_m2m := false |};
     trace := []; uuid4_calls := 0 |}.












(** ** Reading the efforts of a program *)

Module ServiceReads.
Section get_efforts.

(** [SoftwareEffortSerializer(software_efforts, many=True).data], row by
    row, and [SoftwareEffort.model_validate]: neither is in the sources, and
    either may raise. *)
Context {Item SoftwareEffort : Type}.
Variable serialize : Model.SoftwareEffortModel → result Item.
Variable model_validate : Item → result SoftwareEffort.

(** A comprehension over a list, left to right, up to the first exception. *)
Fixpoint each {A B} (f : A → result B) (l : list A) : result (list B) :=
  match l with
  | [] => Ok []
  | x :: l' =>
      match f x with
      | Raise e => Raise e
      | Ok y => match each f l' with
                | Raise e => Raise e
                | Ok ys => Ok (y :: ys)
                end
      end
  end.

(** [get_efforts_for_program] of the backend copy. The program row is
    filtered on [program_id] and on the latest dates, not on
    [program__active]; [software_efforts.count()] in the log call is a query
    of its own. *)
Definition get_efforts_for_program (id : Z) : M (option (list SoftwareEffort)) :=
  latest_program_info ← Service._get_latest_programs;
  rows ← select_program_infos;
  let program := snd <$> list_find (λ r, Model.program_id r = id
                                         ∧ Model.date r ∈ latest_program_info.*2) rows in
  match program with
  | None => mret None
  | Some program =>
      _ ← record_op (Select Efforts);
      _ ← record_op (Select Efforts); d ← get_db;
      let software_efforts :=
        filter (λ e, Model.program_catalog_info e = Model.id program) (efforts d) in
      serialized_data ← Service.lift_result (each serialize software_efforts);
      dtos ← Service.lift_result (each model_validate serialized_data);
      mret (Some dtos)
  end.

End get_efforts.
End ServiceReads.

(** The dates that [_get_latest_programs] yields: for each program with an
    active row, the largest date of its active rows. *)
Definition latest_dates (rows : list Model.ProgramCatalogInfoModel) : list Z :=
  let active := filter (λ r, Model.program_active r = true) rows in
  (λ pid, Service.max_date (Model.date <$> filter (λ r, Model.program_id r = pid) active))
  <$> remove_dups (Model.program_id <$> active).

(** The program row whose efforts [get_efforts_for_program] reads. *)
Definition program_read (id : Z) (d : Database) : option Model.ProgramCatalogInfoModel :=
  snd <$> list_find (λ r, Model.program_id r = id
                          ∧ Model.date r ∈ latest_dates (program_infos d))
                    (program_infos d).

(** The efforts attached to a program row, in table order. *)
Definition efforts_of (program : Model.ProgramCatalogInfoModel) (d : Database)
    : list Model.SoftwareEffortModel :=
  filter (λ e, Model.program_catalog_info e = Model.id program) (efforts d).

(** The parent that step 1 of [save_efforts_for_program] resolves. *)
Definition parent_read (data : Payload.SoftwareEffort) (w : World)
    : option Model.SoftwareEffortModel :=
  if Py.truthy_str (Payload.parent_uuid data)
  then effort_of (default "" (Payload.parent_uuid data)) w
  else None.

(** ** Facts about paths *)

Module PathFacts.
Import Path.

Lemma split_nonempty s : split s ≠ [].
Proof. induction s as [|c s IH]; simpl; [done|]. destruct (is_dot c); [done|]. by destruct (split s). Qed.

Lemma depth_dots s : depth s = S (dots s).
Proof.
  unfold depth. induction s as [|c s IH]; simpl; [done|].
  destruct (is_dot c); simpl; [by rewrite IH|].
  pose proof (split_nonempty s). by destruct (split s).
Qed.

Lemma depth_pos s : 1 ≤ depth s.
Proof. rewrite depth_dots. lia. Qed.

Lemma has_dot_false_dots s : has_dot s = false → dots s = 0.
Proof.
  induction s as [|c s IH]; simpl; [done|].
  destruct (is_dot c); simpl; [done|]. auto.
Qed.

Lemma has_dot_true_dots s : has_dot s = true → dots (rsplit1_head s) + 1 = dots s.
Proof.
  induction s as [|c s IH]; simpl; [done|].
  destruct (is_dot c) eqn:Hc, (has_dot s) eqn:Hs; simpl; intros; try done.
  - rewrite Hc. specialize (IH eq_refl). lia.
  - by rewrite has_dot_false_dots.
  - rewrite Hc. specialize (IH eq_refl). lia.
Qed.

Lemma empty_depth : depth "" = 1.
Proof. done. Qed.

Lemma has_dot_false_split s : has_dot s = false → split s = [s].
Proof.
  induction s as [|c s IH]; simpl; [done|].
  destruct (is_dot c); simpl; [done|]. intros Hs. by rewrite (IH Hs).
Qed.

Lemma has_dot_true_split s : has_dot s = true → ∃ seg seg' segs, split s = seg :: seg' :: segs.
Proof.
  intros Hs. pose proof (depth_dots s) as Hd. pose proof (has_dot_true_dots s Hs).
  unfold depth in Hd. destruct (split s) as [|seg [|seg' segs]]; simpl in *; try lia. eauto.
Qed.

Lemma join_cons_char c seg segs : join (String c seg :: segs) = String c (join (seg :: segs)).
Proof. by destruct segs. Qed.

Lemma is_dot_eq c : is_dot c = true → c = "."%char.
Proof. unfold is_dot. by intros ?%Ascii.eqb_eq. Qed.

(** The two ways in which the repository computes a parent path agree:
    [parts = path.split("."); parts.pop(); ".".join(parts)] in the older
    copy, the [rsplit] with its guard in the backend copy. *)
Lemma join_removelast_split s :
  join (removelast (split s)) = if negb (has_dot s) then "" else rsplit1_head s.
Proof.
  induction s as [|c s IH]; [done|].
  cbn [split has_dot rsplit1_head].
  destruct (is_dot c) eqn:Hc; cbn [orb andb negb].
  - apply is_dot_eq in Hc as ->.
    destruct (has_dot s) eqn:Hs; cbn [negb] in *.
    + destruct (has_dot_true_split s Hs) as (seg & seg' & segs & Hsp).
      rewrite Hsp in *. cbn [removelast] in *.
      by rewrite <- IH.
    + by rewrite (has_dot_false_split s Hs).
  - destruct (has_dot s) eqn:Hs; cbn [negb] in *.
    + destruct (has_dot_true_split s Hs) as (seg & seg' & segs & Hsp).
      rewrite Hsp in *. cbn [removelast] in *.
      by rewrite join_cons_char, IH.
    + by rewrite (has_dot_false_split s Hs).
Qed.

Lemma depth_rsplit1_head s : has_dot s = true → S (depth (rsplit1_head s)) = depth s.
Proof. intros Hs. rewrite !depth_dots. pose proof (has_dot_true_dots s Hs). lia. Qed.

Lemma depth_no_dot s : has_dot s = false → depth s = 1.
Proof. intros Hs. by rewrite depth_dots, has_dot_false_dots. Qed.

Lemma depth_has_dot s : 1 < depth s → has_dot s = true.
Proof.
  intros Hd. destruct (has_dot s) eqn:Hs; [done|].
  rewrite depth_no_dot in Hd by done. lia.
Qed.

End PathFacts.

(** ** Facts about the stable sort *)

Section sort_by_facts.
Context {A : Type} (key : A → nat).

Definition key_le (a b : A) : Prop := key a ≤ key b.

Lemma insert_by_perm x l : insert_by key x l ≡ₚ x :: l.
Proof.
    induction l as [|y l IH]; simpl; [done|].
    case_bool_decide; [done|]. rewrite IH. apply Permutation_swap.
Qed.

Lemma sort_by_perm l : sort_by key l ≡ₚ l.
Proof.
    induction l as [|x l IH]; simpl; [done|].
    by rewrite insert_by_perm, IH.
Qed.

Lemma insert_by_sorted x l :
    StronglySorted key_le l → StronglySorted key_le (insert_by key x l).
Proof.
    induction 1 as [|y l Hl IH Hy]; simpl.
    - repeat constructor.
    - case_bool_decide as Hxy.
      + constructor; [by constructor|].
        constructor; [done|]. eapply Forall_impl; [exact Hy|].
        unfold key_le. intros; simpl in *. lia.
      + constructor; [done|]. rewrite insert_by_perm.
        constructor; [|done]. unfold key_le. lia.
Qed.

Lemma sort_by_sorted l : StronglySorted key_le (sort_by key l).
Proof.
    induction l as [|x l IH]; simpl; [constructor|].
    by apply insert_by_sorted.
Qed.

  (** Stability: records of equal key keep their order. *)
Lemma insert_by_filter_key m x l :
    filter (λ a, key a = m) (insert_by key x l) = filter (λ a, key a = m) (x :: l).
Proof.
    induction l as [|y l IH]; simpl; [done|].
    case_bool_decide as Hxy; [done|].
    rewrite filter_cons, IH, !filter_cons.
    repeat case_decide; try done. lia.
Qed.

Lemma sort_by_filter_key m l :
    filter (λ a, key a = m) (sort_by key l) = filter (λ a, key a = m) l.
Proof.
    induction l as [|x l IH]; simpl; [done|].
    by rewrite insert_by_filter_key, !filter_cons, IH.
Qed.
End sort_by_facts.

(** ** Parent paths and depth *)

Section parent_paths.
Import Backend.

Lemma get_parent_id_path_spec s : get_parent_id_path s = parent_path s.
Proof. unfold get_parent_id_path, parent_path. by rewrite PathFacts.join_removelast_split. Qed.

Lemma parent_path_depth s : Path.has_dot s = true → S (Path.depth (parent_path s)) = Path.depth s.
Proof.
    intros Hs. unfold parent_path. rewrite PathFacts.join_removelast_split, Hs. simpl.
    by apply PathFacts.depth_rsplit1_head.
Qed.

Lemma parent_path_no_dot s : Path.has_dot s = false → parent_path s = "".
Proof. intros Hs. unfold parent_path. by rewrite PathFacts.join_removelast_split, Hs. Qed.

Lemma descends_from_depth a s : descends_from a s → Path.depth a < Path.depth s.
Proof.
    induction 1 as [s Hs <-|s Hs _ IH].
    - rewrite <- (parent_path_depth s Hs). lia.
    - rewrite <- (parent_path_depth s Hs). lia.
Qed.
End parent_paths.

(** ** Trees as values *)

Section tree_induction.
Variable P : ProgramTreeNode → Prop.
Hypothesis Hnode : ∀ d cs, Forall P cs → P (TreeNode d cs).

Fixpoint ProgramTreeNode_ind (t : ProgramTreeNode) : P t :=
    match t with
    | TreeNode d cs =>
        Hnode d cs
          ((fix go (l : list ProgramTreeNode) : Forall P l :=
              match l with
              | [] => Forall_nil_2 P
              | c :: l' => Forall_cons_2 P c l' (ProgramTreeNode_ind c) (go l')
              end) cs)
    end.
End tree_induction.

Lemma tree_size_nodes t : tree_size t = length (tree_nodes t).
Proof.
  induction t as [d cs IH] using ProgramTreeNode_ind. simpl. f_equal.
  induction IH as [|c cs Hc _ IHcs]; [done|].
  rewrite fmap_cons, bind_cons, length_app, <- Hc, <- IHcs. done.
Qed.

Lemma tree_nodes_cons t : tree_nodes t = tree_data t :: tree_descendants t.
Proof. by destruct t. Qed.

Lemma subtrees_self t : t ∈ subtrees t.
Proof. destruct t. by left. Qed.

Lemma subtrees_child d cs c s : c ∈ cs → s ∈ subtrees c → s ∈ subtrees (TreeNode d cs).
Proof. intros Hc Hs. simpl. right. apply list_elem_of_bind. eauto. Qed.

Lemma subtrees_trans t s s' : s ∈ subtrees t → s' ∈ subtrees s → s' ∈ subtrees t.
Proof.
  revert s s'. induction t as [d cs IH] using ProgramTreeNode_ind. intros s s'.
  simpl. intros [->|(c & Hs & Hc)%list_elem_of_bind]%elem_of_cons Hs'; [done|].
  rewrite Forall_forall in IH. eapply subtrees_child; [done|]. by eapply IH.
Qed.

(** From the local reading of the flag to the one over all proper
    descendants. *)
Lemma flags_descendants t :
  (∀ s, s ∈ subtrees t → locally_flagged s) →
  (has_descendant_expecting_software_effort (tree_data t) = true ↔
   ∃ d, d ∈ tree_descendants t ∧ expecting_software_efforts d = true).
Proof.
  induction t as [d cs IH] using ProgramTreeNode_ind. intros Hloc.
  rewrite Forall_forall in IH.
  assert (∀ c, c ∈ cs →
    (is_relevant (tree_data c) = true ↔
     ∃ d', d' ∈ tree_nodes c ∧ expecting_software_efforts d' = true)) as Hc.
  { intros c Hin. unfold is_relevant. rewrite orb_true_iff, tree_nodes_cons.
    rewrite (IH c Hin) by (intros s Hs; apply Hloc; by eapply subtrees_child).
    split.
    - intros [He|(d' & Hd' & He)]; [exists (tree_data c)|exists d'];
        (split; [|done]); [by left|by right].
    - intros (d' & [->|Hd']%elem_of_cons & He); [by left|right; eauto]. }
  pose proof (Hloc _ (subtrees_self _)) as Ht. unfold locally_flagged in Ht.
  simpl in Ht. unfold tree_descendants. simpl. rewrite Ht. split.
  - intros (c & Hin & Hrel). apply (Hc c Hin) in Hrel as (d' & Hd' & He).
    exists d'. split; [|done]. apply list_elem_of_bind. eauto.
  - intros (d' & (c & Hd' & Hin)%list_elem_of_bind & He).
    exists c. split; [done|]. apply (Hc c Hin). eauto.
Qed.

(** ** Reading the object graph back *)

#[global] Instance node_cell_inhabited : Inhabited Backend.node_cell :=
    populate (Backend.new_node {| program_id := 0; program_path := ""; name := ""; date := 0;
       expect_software_effort := false; description := ""; aliases := "";
       status := ""; primary_location := ""; organization_leader_name := "";
       chief_engineer_name := ""; program_affiliation := ""; program_value := "";
       program_type := "" |}).

Section reify_facts.
Import Backend.

Lemma occ_cons p x l : occ p (x :: l) = (if decide (x = p) then 1 else 0) + occ p l.
Proof. unfold occ. rewrite filter_cons. by case_decide. Qed.

Lemma occ_app p l1 l2 : occ p (l1 ++ l2) = occ p l1 + occ p l2.
Proof. unfold occ. by rewrite filter_app, length_app. Qed.

Lemma occ_perm p l1 l2 : l1 ≡ₚ l2 → occ p l1 = occ p l2.
Proof. unfold occ. by intros ->. Qed.

Lemma occ_seq p n : p < n → occ p (seq 0 n) = 1.
Proof.
    induction n as [|n IH]; [lia|]. intros Hp.
    rewrite seq_S, occ_app, occ_cons. simpl.
    destruct (decide (p = n)) as [->|Hne].
    - rewrite decide_True by done. unfold occ.
      assert (filter (λ x, x = n) (seq 0 n) = []) as ->; [|done].
      clear. assert (∀ x, x ∈ seq 0 n → x ≠ n) as Hx by (intros x ?%elem_of_seq; lia).
      induction (seq 0 n) as [|y l IHl]; [done|].
      rewrite filter_cons, decide_False.
      + apply IHl. intros ??. apply Hx. by right.
      + apply Hx. by left.
    - rewrite decide_False by done. rewrite IH by lia. done.
Qed.

  (** [walk] and [reify] succeed together, and [walk] lists the cells of the
      nodes of the tree. *)
Lemma walk_reify fuel h i l :
    walk fuel h i = Some l →
    ∃ t, reify fuel h i = Some t
         ∧ tree_nodes t = (λ k, cell_data (h !!! k)) <$> l
         ∧ tree_data t = cell_data (h !!! i).
Proof.
    revert i l. induction fuel as [|fuel IH]; intros i l; simpl; [done|].
    destruct (h !! i) as [c|] eqn:Hi; simpl; [|done].
    destruct (mapM (walk fuel h) (cell_children c)) as [ls|] eqn:Hm; simpl; [|done].
    intros [= <-]. apply mapM_Some_1 in Hm.
    assert (∃ ts, mapM (reify fuel h) (cell_children c) = Some ts
                  ∧ ts ≫= tree_nodes
                    = (λ k, cell_data (h !!! k)) <$> concat ls) as (ts & -> & Hts).
    { induction Hm as [|j lj js ls Hj _ (ts & Hts & Hn)]; simpl.
      - by exists [].
      - destruct (IH _ _ Hj) as (t & Ht & Htn & _).
        exists (t :: ts). rewrite Ht, Hts. split; [done|].
        by rewrite bind_cons, Htn, Hn, fmap_app. }
    simpl. eexists; split; [done|].
    rewrite (list_lookup_total_correct _ _ _ Hi). simpl. by rewrite Hts.
Qed.

  (** Only the [children] lists matter to [walk]. *)
Lemma walk_children_ext fuel h h' i :
    cell_children <$> h = cell_children <$> h' → walk fuel h i = walk fuel h' i.
Proof.
    intros Hc. revert i. induction fuel as [|fuel IH]; intros i; simpl; [done|].
    assert (cell_children <$> h !! i = cell_children <$> h' !! i) as Hi
      by (by rewrite <- !list_lookup_fmap, Hc).
    destruct (h !! i) as [c|], (h' !! i) as [c'|]; simplify_eq/=; [|done].
    rewrite Hi. by erewrite mapM_ext by (intros; apply IH).
Qed.
Lemma walk_S fuel h i :
  walk (S fuel) h i =
    c ← h !! i; ls ← mapM (walk fuel h) (cell_children c); Some (i :: concat ls).
Proof. done. Qed.

(** Appending a fresh leaf under [p] adds it to the walk once for every
    time the walk passes through [p]. *)
Lemma walk_extend h p cell fuel i l :
  cell_children cell = [] →
  walk fuel h i = Some l →
  ∃ l', walk (S fuel) (alter (append_child (length h)) p h ++ [cell]) i = Some l'
        ∧ l' ≡ₚ l ++ replicate (occ p l) (length h).
Proof.
  intros Hcell. set (h' := alter (append_child (length h)) p h ++ [cell]).
  revert i l. induction fuel as [|fuel IH]; intros i l; [done|].
  intros Hw. rewrite walk_S in Hw.
  destruct (h !! i) as [c|] eqn:Hi; [|done]. cbn [mbind option_bind] in Hw.
  destruct (mapM (walk fuel h) (cell_children c)) as [ls|] eqn:Hm; [|done].
  cbn [mbind option_bind] in Hw. injection Hw as <-. apply mapM_Some_1 in Hm.
  assert (∃ ls', Forall2 (λ k lk, walk (S fuel) h' k = Some lk) (cell_children c) ls'
                 ∧ concat ls' ≡ₚ concat ls ++ replicate (occ p (concat ls)) (length h))
    as (ls' & Hls' & Hperm).
  { induction Hm as [|j lj js ls Hj _ (ls' & Hls' & Hp)].
    - by exists [].
    - destruct (IH _ _ Hj) as (lj' & Hlj' & Hpj).
      exists (lj' :: ls'). split; [by constructor|].
      simpl. rewrite Hpj, Hp, occ_app, replicate_add.
      rewrite <- !(assoc_L (++)). f_equiv.
      rewrite !(assoc_L (++)). f_equiv. apply Permutation_app_comm. }
  assert (i < length h) as Hlt by (by eapply lookup_lt_Some).
  assert (h' !! i = Some (if decide (p = i) then append_child (length h) c else c)) as Hi'.
  { unfold h'. rewrite lookup_app_l by (by rewrite length_alter).
    rewrite list_lookup_alter. case_decide; [subst p; by rewrite Hi|done]. }
  rewrite occ_cons, (walk_S (S fuel)), Hi'.
  destruct (decide (p = i)) as [->|Hne].
  - rewrite decide_True by done. cbn [mbind option_bind append_child cell_children].
    assert (mapM (walk (S fuel) h') (cell_children c ++ [length h]) = Some (ls' ++ [[length h]])) as ->.
    { apply mapM_Some, Forall2_app; [done|]. constructor; [|constructor].
      assert (h' !! length h = Some cell) as Hn.
      { unfold h'. apply list_lookup_middle. by rewrite length_alter. }
      rewrite walk_S, Hn. cbn [mbind option_bind]. by rewrite Hcell. }
    cbn [mbind option_bind]. eexists; split; [done|].
    rewrite concat_app. simpl. rewrite Hperm. constructor.
    rewrite <- !(assoc_L (++)). f_equiv.
    symmetry. apply Permutation_cons_append.
  - rewrite decide_False by done.
    apply mapM_Some in Hls'. cbn [mbind option_bind]. rewrite Hls'. cbn [mbind option_bind].
    eexists; split; [done|]. simpl. by rewrite Hperm.
Qed.

End reify_facts.

(** ** The "Populate Tree" loop *)

Section populate_facts.
Import Backend.
Variable r : ProgramDict.

Definition path_of (c : node_cell) : string := node_program_path (cell_data c).

(** What holds between two turns of the loop: [acc] is the state of
    [place] on the records met so far, [D] bounds their depth. *)
Record populated (D : nat) (acc : list ProgramDict * list ProgramDict)
    (st : build_state) : Prop := {
  pop_nbp : nodes_by_path st = seq 0 (length (heap st));
  pop_data : cell_data <$> heap st = node_of <$> acc.1;
  pop_root : acc.1 !! 0 = Some r;
  pop_depth : ∀ j q, acc.1 !! j = Some q → 0 < j →
      depth_key r < depth_key q ∧ depth_key q ≤ D;
  pop_map_none : ∀ k, id_path_to_node st !! k = None ↔ k ∉ program_path <$> acc.1;
  pop_map_some : ∀ k i, id_path_to_node st !! k = Some i →
      ∃ c, heap st !! i = Some c ∧ path_of c = k;
  pop_log : log st = orphan_warning <$> acc.2;
  pop_child : ∀ i c j, heap st !! i = Some c → j ∈ cell_children c →
      i < j ∧ ∃ cj, heap st !! j = Some cj
                   ∧ id_path_to_node st !! parent_path (path_of cj) = Some i;
  pop_parent : ∀ j cj, 0 < j → heap st !! j = Some cj →
      ∃ i c, id_path_to_node st !! parent_path (path_of cj) = Some i
             ∧ heap st !! i = Some c ∧ j ∈ cell_children c;
  pop_flags : ∀ i c, heap st !! i = Some c →
      has_descendant_expecting_software_effort (cell_data c) = false;
  pop_walk : ∃ l, walk (length (heap st)) (heap st) 0 = Some l
                  ∧ l ≡ₚ seq 0 (length (heap st));
  pop_ins_parent : ∀ j q, acc.1 !! j = Some q → 0 < j →
      parent_path (program_path q) ∈ program_path <$> acc.1;
  pop_orph : ∀ o, o ∈ acc.2 →
      (parent_path (program_path o) ∉ program_path <$> acc.1)
      ∧ depth_key r < depth_key o ∧ depth_key o ≤ D;
}.

Lemma populated_record D acc st j cj :
  populated D acc st → heap st !! j = Some cj →
  ∃ q, acc.1 !! j = Some q ∧ cell_data cj = node_of q ∧ path_of cj = program_path q.
Proof.
  intros Hpop Hj.
  assert ((cell_data <$> heap st) !! j = Some (cell_data cj)) as Hd
    by (by rewrite list_lookup_fmap, Hj).
  rewrite (pop_data _ _ _ Hpop), list_lookup_fmap in Hd.
  destruct (acc.1 !! j) as [q|]; [|done]. injection Hd as Hd.
  exists q. split; [done|]. split; [done|]. unfold path_of. by rewrite <- Hd.
Qed.

(** A node inserted after the root lies deeper than the root, hence has a
    dot, and its parent path is shallower than any record still to come. *)
Lemma populated_parent_depth D acc st j cj :
  populated D acc st → heap st !! j = Some cj → 0 < j →
  Path.has_dot (path_of cj) = true ∧ Path.depth (parent_path (path_of cj)) < D.
Proof.
  intros Hpop Hj Hpos.
  destruct (populated_record _ _ _ _ _ Hpop Hj) as (q & Hq & _ & Hpath).
  destruct (pop_depth _ _ _ Hpop j q Hq Hpos) as [Hlt Hle].
  unfold depth_key in *. rewrite <- Hpath in *.
  assert (Path.has_dot (path_of cj) = true) as Hdot.
  { apply PathFacts.depth_has_dot. pose proof (PathFacts.depth_pos (program_path r)). lia. }
  split; [done|]. pose proof (parent_path_depth _ Hdot). lia.
Qed.

Lemma populated_initial :
  populated (depth_key r) ([r], [])
    {| heap := [new_node r]; id_path_to_node := {[ program_path r := 0 ]};
       nodes_by_path := [0]; log := [] |}.
Proof.
  split; simpl; try done.
  - intros [|j] q; simpl; [lia|]. by rewrite lookup_nil.
  - intros k. rewrite lookup_singleton_None, list_elem_of_singleton. naive_solver.
  - intros k i [<- <-]%lookup_singleton_Some. by eexists.
  - intros [|i] c j; simpl; [|by rewrite lookup_nil].
    intros [= <-]. simpl. by intros ?%elem_of_nil.
  - intros [|j] cj; [lia|]. simpl. by rewrite lookup_nil.
  - intros [|i] c; simpl; [|by rewrite lookup_nil]. by intros [= <-].
  - by exists [0].
  - intros [|j] q; simpl; [lia|]. by rewrite lookup_nil.
  - by intros o ?%elem_of_nil.
Qed.
(** The heap after [parent_node.children.append(child_node)] and the
    creation of the child. *)
Lemma lookup_extended (h : list node_cell) pi x i c :
  (alter (append_child (length h)) pi h ++ [x]) !! i = Some c ↔
  (i = length h ∧ c = x)
  ∨ (∃ c0, h !! i = Some c0
           ∧ c = if decide (pi = i) then append_child (length h) c0 else c0).
Proof.
  rewrite lookup_snoc_Some, length_alter, list_lookup_alter. split.
  - intros [[Hlt Hi]|[-> ->]]; [right|by left].
    destruct (lookup_lt_is_Some_2 h i Hlt) as [c0 Hc0].
    exists c0. split; [done|]. case_decide; subst; rewrite Hc0 in Hi; by simplify_eq/=.
  - intros [[-> ->]|(c0 & Hc0 & ->)]; [by right|left].
    split; [by eapply lookup_lt_Some|]. case_decide; subst; by rewrite Hc0.
Qed.

Lemma extended_same_data (pi i n : nat) (c0 : node_cell) :
  cell_data (if decide (pi = i) then append_child n c0 else c0) = cell_data c0.
Proof. by case_decide. Qed.

Lemma populated_step D acc st p :
  populated D acc st → D ≤ depth_key p → depth_key r < depth_key p →
  populated (depth_key p) (place_step acc p) (populate_step st p).
Proof.
  intros Hpop HD Hr. unfold populate_step, place_step.
  rewrite get_parent_id_path_spec. set (pp := parent_path (program_path p)).
  assert (Path.has_dot (program_path p) = true) as Hdot.
  { apply PathFacts.depth_has_dot. pose proof (PathFacts.depth_pos (program_path r)).
    unfold depth_key in *. lia. }
  assert (S (Path.depth pp) = depth_key p) as Hppd by (by apply parent_path_depth).
  assert (program_path p ≠ pp) as Hne.
  { intros Heq. unfold depth_key in Hppd. rewrite <- Heq in Hppd. lia. }
  assert (∀ j cj, heap st !! j = Some cj → 0 < j →
            program_path p ≠ parent_path (path_of cj)) as Hstable.
  { intros j cj Hj Hpos Heq.
    destruct (populated_parent_depth _ _ _ _ _ Hpop Hj Hpos) as [_ Hlt].
    rewrite <- Heq in Hlt. unfold depth_key in *. lia. }
  destruct (id_path_to_node st !! pp) as [pi|] eqn:Hpp.
  - assert (pp ∈ program_path <$> acc.1) as Hin.
    { destruct (decide (pp ∈ program_path <$> acc.1)) as [|Hn]; [done|].
      apply (pop_map_none _ _ _ Hpop) in Hn. congruence. }
    rewrite bool_decide_true by done.
    destruct (pop_map_some _ _ _ Hpop pp pi Hpp) as (cpi & Hcpi & Hpath).
    assert (pi < length (heap st)) as Hpilt by (by eapply lookup_lt_Some).
    split; simpl.
    + rewrite (pop_nbp _ _ _ Hpop), length_app, length_alter. simpl.
      by rewrite Nat.add_1_r, seq_S.
    + rewrite !fmap_app. f_equal. rewrite <- (pop_data _ _ _ Hpop).
      rewrite (list_fmap_alter cell_data _ id) by (by apply Forall_true).
      by apply list_alter_id.
    + rewrite lookup_app_l; [by apply (pop_root _ _ _ Hpop)|].
      eapply lookup_lt_Some, (pop_root _ _ _ Hpop).
    + intros j q [[_ Hq]|[_ <-]]%lookup_snoc_Some Hpos; [|lia].
      destruct (pop_depth _ _ _ Hpop j q Hq Hpos). lia.
    + intros k. rewrite lookup_insert_None, fmap_app, not_elem_of_app.
      simpl. rewrite list_elem_of_singleton, (pop_map_none _ _ _ Hpop).
      split; intros [? ?]; split; done.
    + intros k i [[<- <-]|[Hk Hi]]%lookup_insert_Some.
      * exists (new_node p). split; [|done]. apply lookup_extended. by left.
      * destruct (pop_map_some _ _ _ Hpop k i Hi) as (c & Hc & Hcp).
        eexists. split; [apply lookup_extended; right; eauto|].
        unfold path_of. by rewrite extended_same_data.
    + apply (pop_log _ _ _ Hpop).
    + intros i c j [[-> ->]|(c0 & Hc0 & ->)]%lookup_extended Hj.
      { by apply elem_of_nil in Hj. }
      assert (j ∈ cell_children c0 ∨ (pi = i ∧ j = length (heap st))) as [Hold|[Hpi Hjn]].
      { case_decide; [|by left]. simpl in Hj.
        apply elem_of_app in Hj as [?|Hn%list_elem_of_singleton]; [by left|by right]. }
      * destruct (pop_child _ _ _ Hpop i c0 j Hc0 Hold) as (Hlt & cj & Hcj & Hm).
        split; [done|]. eexists. split; [apply lookup_extended; right; eauto|].
        unfold path_of. rewrite extended_same_data.
        rewrite lookup_insert_ne; [done|]. apply (Hstable j cj Hcj). lia.
      * subst i j. split; [done|].
        exists (new_node p). split; [apply lookup_extended; by left|].
        by rewrite lookup_insert_ne.
    + intros j cj Hpos [[-> ->]|(c0 & Hc0 & ->)]%lookup_extended.
      * exists pi, (append_child (length (heap st)) cpi).
        split; [by rewrite lookup_insert_ne|].
        split; [apply lookup_extended; right; exists cpi; by rewrite decide_True|].
        simpl. apply elem_of_app. right. by left.
      * destruct (pop_parent _ _ _ Hpop j c0 Hpos Hc0) as (i & c & Hm & Hc & Hj).
        unfold path_of. rewrite extended_same_data.
        eexists i, _. split; [|split; [apply lookup_extended; right; eauto|]].
        -- rewrite lookup_insert_ne; [done|]. by apply (Hstable j c0 Hc0).
        -- case_decide; [|done]. simpl. apply elem_of_app. by left.
    + intros i c [[-> ->]|(c0 & Hc0 & ->)]%lookup_extended; [done|].
      rewrite extended_same_data. by apply (pop_flags _ _ _ Hpop i).
    + destruct (pop_walk _ _ _ Hpop) as (l & Hl & Hperm).
      destruct (walk_extend (heap st) pi (new_node p) _ 0 l eq_refl Hl) as (l' & Hl' & Hperm').
      exists l'. rewrite length_app, length_alter. simpl. rewrite Nat.add_1_r.
      split; [done|]. rewrite Hperm', (occ_perm _ _ _ Hperm), occ_seq by done.
      rewrite seq_S. cbn [replicate]. by rewrite Hperm.
    + intros j q [[_ Hq]|[_ <-]]%lookup_snoc_Some Hpos; rewrite fmap_app, elem_of_app; left.
      * by apply (pop_ins_parent _ _ _ Hpop j).
      * done.
    + intros o Ho. destruct (pop_orph _ _ _ Hpop o Ho) as (Hn & Hro & HoD).
      split; [|lia]. rewrite fmap_app, not_elem_of_app. split; [done|].
      simpl. rewrite list_elem_of_singleton. intros Heq.
      assert (Path.has_dot (program_path o) = true) as Hodot.
      { apply PathFacts.depth_has_dot. pose proof (PathFacts.depth_pos (program_path r)).
        unfold depth_key in *. lia. }
      pose proof (parent_path_depth _ Hodot) as Hd. rewrite Heq in Hd.
      unfold depth_key in *. lia.
  - assert (pp ∉ program_path <$> acc.1) as Hnin by (by apply (pop_map_none _ _ _ Hpop)).
    rewrite bool_decide_false by done.
    destruct Hpop. split; simpl; try done.
    + intros j q Hq Hpos. destruct (pop_depth0 j q Hq Hpos). lia.
    + by rewrite fmap_app, pop_log0.
    + intros o [Ho|Hop%list_elem_of_singleton]%elem_of_app.
      * destruct (pop_orph0 o Ho) as (? & ? & ?). split; [done|lia].
      * by subst o.
Qed.

Lemma populated_foldl D acc st records :
  populated D acc st →
  StronglySorted (key_le depth_key) records →
  (∀ p, p ∈ records → D ≤ depth_key p ∧ depth_key r < depth_key p) →
  ∃ D', populated D' (foldl place_step acc records) (foldl populate_step st records).
Proof.
  intros Hpop Hs. revert D acc st Hpop.
  induction Hs as [|p records Hs IH Hp]; intros D acc st Hpop Hall; simpl; [by eauto|].
  destruct (Hall p) as [HD Hr]; [by left|].
  apply (IH (depth_key p)); [by apply (populated_step D)|].
  intros q Hq. split; [|apply Hall; by right].
  rewrite Forall_forall in Hp. by apply Hp.
Qed.

End populate_facts.

(** ** The "Bubble Up" loop *)

Section bubble_facts.
Import Backend.
Variable m : gmap string nat.

(** The part of the heap that the loop reads but does not change: the tree
    structure, and its agreement with [id_path_to_node]. *)
Record tree_shaped (h : list node_cell) : Prop := {
  ts_child : ∀ i c j, h !! i = Some c → j ∈ cell_children c →
      i < j ∧ ∃ cj, h !! j = Some cj ∧ m !! parent_path (path_of cj) = Some i;
  ts_parent : ∀ j cj, 0 < j → h !! j = Some cj →
      parent_path (path_of cj) ≠ ""
      ∧ ∃ i c, m !! parent_path (path_of cj) = Some i
               ∧ h !! i = Some c ∧ j ∈ cell_children c;
  ts_root : ∀ c, h !! 0 = Some c →
      parent_path (path_of c) = "" ∨ m !! parent_path (path_of c) = None;
}.

(** The flags once the nodes of reference [k] and above have been visited. *)
Definition flags_upto (k : nat) (h : list node_cell) : Prop :=
  ∀ i c, h !! i = Some c →
    (has_descendant_expecting_software_effort (cell_data c) = true ↔
     ∃ j cj, j ∈ cell_children c ∧ k ≤ j ∧ h !! j = Some cj
             ∧ is_relevant (cell_data cj) = true).

Lemma lookup_marked (h : list node_cell) pi i c :
  alter mark_has_descendant pi h !! i = Some c ↔
  ∃ c0, h !! i = Some c0 ∧ c = if decide (pi = i) then mark_has_descendant c0 else c0.
Proof.
  rewrite list_lookup_alter. case_decide as Hpi.
  - subst pi. destruct (h !! i) as [c0|]; simpl.
    + split; [intros [= <-]; by eexists|by intros (? & [= <-] & ->)].
    + split; [done|by intros (? & ? & ?)].
  - split; [intros Hc; by eexists|by intros (? & -> & ->)].
Qed.

Lemma marked_path (pi i : nat) (c0 : node_cell) :
  path_of (if decide (pi = i) then mark_has_descendant c0 else c0) = path_of c0.
Proof. by case_decide. Qed.

Lemma marked_children (pi i : nat) (c0 : node_cell) :
  cell_children (if decide (pi = i) then mark_has_descendant c0 else c0) = cell_children c0.
Proof. by case_decide. Qed.

Lemma marked_relevant (pi i : nat) (c0 : node_cell) :
  is_relevant (cell_data c0) = true →
  is_relevant (cell_data (if decide (pi = i) then mark_has_descendant c0 else c0)) = true.
Proof.
  case_decide; [|done]. unfold is_relevant. simpl. intros _. apply orb_true_r.
Qed.

Lemma tree_shaped_mark h pi : tree_shaped h → tree_shaped (alter mark_has_descendant pi h).
Proof.
  intros [Hchild Hparent Hroot]. split.
  - intros i c j (c0 & Hc0 & ->)%lookup_marked Hj. rewrite marked_children in Hj.
    destruct (Hchild i c0 j Hc0 Hj) as (Hlt & cj & Hcj & Hm).
    split; [done|]. eexists. split; [apply lookup_marked; eauto|].
    by rewrite marked_path.
  - intros j cj Hpos (c0 & Hc0 & ->)%lookup_marked. rewrite marked_path.
    destruct (Hparent j c0 Hpos Hc0) as (Hne & i & c & Hm & Hc & Hj).
    split; [done|]. eexists i, _. split; [done|].
    split; [apply lookup_marked; eauto|]. by rewrite marked_children.
  - intros c (c0 & Hc0 & ->)%lookup_marked. rewrite marked_path. by apply Hroot.
Qed.

(** The turns of the loop that change nothing. *)
Lemma flags_upto_skip h k :
  tree_shaped h → flags_upto (S k) h →
  (∀ ck, h !! k = Some ck → is_relevant (cell_data ck) = true → k = 0) →
  flags_upto k h.
Proof.
  intros Hts Hflags Hk i c Hi. rewrite (Hflags i c Hi).
  split; intros (j & cj & Hj & Hle & Hcj & Hrel); exists j, cj.
  - repeat split; try done. lia.
  - repeat split; try done. destruct (decide (j = k)) as [->|]; [|lia].
    specialize (Hk cj Hcj Hrel). subst k.
    destruct (ts_child h Hts i c 0 Hi Hj). lia.
Qed.

Lemma bubble_step_flags h k :
  tree_shaped h → flags_upto (S k) h →
  tree_shaped (bubble_step m h k) ∧ flags_upto k (bubble_step m h k).
Proof.
  intros Hts Hflags. unfold bubble_step.
  destruct (h !! k) as [ck|] eqn:Hk;
    [|split; [done|apply flags_upto_skip; [done..|intros; congruence]]].
  change (expecting_software_efforts (cell_data ck)
          || has_descendant_expecting_software_effort (cell_data ck))
    with (is_relevant (cell_data ck)).
  destruct (is_relevant (cell_data ck)) eqn:Hrel;
    [|split; [done|apply flags_upto_skip; [done..|intros; congruence]]].
  rewrite get_parent_id_path_spec. change (node_program_path (cell_data ck)) with (path_of ck).
  assert (0 < k → parent_path (path_of ck) ≠ ""
            ∧ ∃ i c, m !! parent_path (path_of ck) = Some i
                     ∧ h !! i = Some c ∧ k ∈ cell_children c) as Hpar.
  { intros Hpos. by apply (ts_parent h Hts). }
  destruct (String.eqb (parent_path (path_of ck)) "") eqn:Hemp; simpl.
  { apply String.eqb_eq in Hemp. split; [done|]. apply flags_upto_skip; [done..|].
    intros ck' ? _. destruct k; [done|]. destruct Hpar as [? _]; [lia|done]. }
  apply String.eqb_neq in Hemp.
  destruct (m !! parent_path (path_of ck)) as [pi|] eqn:Hm; cycle 1.
  { split; [done|]. apply flags_upto_skip; [done..|].
    intros ck' ? _. destruct k; [done|]. by destruct Hpar as (_ & ? & ? & ? & _); [lia|]. }
  split; [by apply tree_shaped_mark|].
  assert (0 < k) as Hpos.
  { destruct k; [|lia]. destruct (ts_root h Hts ck Hk); congruence. }
  destruct (Hpar Hpos) as (_ & pi' & cp & Hm' & Hcp & Hkin).
  assert (pi' = pi) as -> by congruence.
  destruct (ts_child h Hts pi cp k Hcp Hkin) as [Hlt _].
  intros i c' (c0 & Hc0 & ->)%lookup_marked.
  destruct (decide (pi = i)) as [<-|Hne].
  - assert (c0 = cp) as -> by congruence. simpl. split; [intros _|done].
    exists k, ck. split; [done|]. split; [done|]. split; [|done].
    apply lookup_marked. exists ck. split; [done|]. rewrite decide_False by lia. done.
  - rewrite (Hflags i c0 Hc0). split.
    + intros (j & cj & Hj & Hle & Hcj & Hr). eexists j, _.
      split; [done|]. split; [lia|]. split; [apply lookup_marked; eauto|].
      by apply marked_relevant.
    + intros (j & cj' & Hj & Hle & (cj & Hcj & ->)%lookup_marked & Hr).
      destruct (decide (j = k)) as [->|Hjk].
      * destruct (ts_child h Hts i c0 k Hc0 Hj) as (_ & ck' & Hck' & Hmi).
        assert (ck' = ck) as -> by congruence. congruence.
      * exists j, cj. split; [done|]. split; [lia|]. split; [done|].
        rewrite decide_False in Hr by lia. done.
Qed.

Lemma bubble_loop k h :
  tree_shaped h → flags_upto k h →
  flags_upto 0 (foldl (bubble_step m) h (reverse (seq 0 k))).
Proof.
  revert h. induction k as [|k IH]; intros h Hts Hflags; [done|].
  rewrite seq_S, reverse_snoc. simpl.
  destruct (bubble_step_flags h k Hts Hflags). by apply IH.
Qed.

(** Whatever the loop does, it leaves the children and every attribute other
    than the propagated flag alone. *)
Definition shape (c : node_cell) : list nat * NodeData :=
  (cell_children c, set_has_descendant false (cell_data c)).

Lemma bubble_step_shape h k : shape <$> bubble_step m h k = shape <$> h.
Proof.
  unfold bubble_step. destruct (h !! k) as [ck|]; [|done].
  repeat (case_match; try done).
  rewrite (list_fmap_alter shape _ id) by (by apply Forall_true).
  by apply list_alter_id.
Qed.

Lemma bubble_loop_shape ks h : shape <$> foldl (bubble_step m) h ks = shape <$> h.
Proof.
  revert h. induction ks as [|k ks IH]; intros h; simpl; [done|].
  by rewrite IH, bubble_step_shape.
Qed.
End bubble_facts.

(** ** From the heap to the returned tree *)

Section heap_to_tree.
Import Backend.

Lemma reify_data fuel h i t :
  reify fuel h i = Some t → ∃ c, h !! i = Some c ∧ tree_data t = cell_data c.
Proof.
  destruct fuel as [|fuel]; simpl; [done|].
  destruct (h !! i) as [c|]; simpl; [|done].
  destruct (mapM (reify fuel h) (cell_children c)); simpl; [|done].
  intros [= <-]. by exists c.
Qed.

Lemma reify_flags fuel h i t :
  flags_upto 0 h → reify fuel h i = Some t →
  ∀ s, s ∈ subtrees t → locally_flagged s.
Proof.
  intros Hflags. revert i t. induction fuel as [|fuel IH]; intros i t; simpl; [done|].
  destruct (h !! i) as [c|] eqn:Hi; simpl; [|done].
  destruct (mapM (reify fuel h) (cell_children c)) as [ts|] eqn:Hm; simpl; [|done].
  intros [= <-] s. apply mapM_Some_1 in Hm.
  simpl. intros [->|(tj & Hs & Htj)%list_elem_of_bind]%elem_of_cons.
  - unfold locally_flagged. simpl. rewrite (Hflags i c Hi). split.
    + intros (j & cj & Hj & _ & Hcj & Hrel).
      apply list_elem_of_lookup in Hj as [n Hn].
      destruct (Forall2_lookup_l _ _ _ _ _ Hm Hn) as (tj & Htj & Hr).
      exists tj. split; [by eapply list_elem_of_lookup_2|].
      apply reify_data in Hr as (cj' & Hcj' & ->). congruence.
    + intros (tj & Htj & Hrel).
      apply list_elem_of_lookup in Htj as [n Hn].
      destruct (Forall2_lookup_r _ _ _ _ _ Hm Hn) as (j & Hj & Hr).
      apply reify_data in Hr as (cj & Hcj & Hd).
      exists j, cj. split; [by eapply list_elem_of_lookup_2|].
      split; [lia|]. split; [done|]. by rewrite <- Hd.
  - apply list_elem_of_lookup in Htj as [n Hn].
    destruct (Forall2_lookup_r _ _ _ _ _ Hm Hn) as (j & Hj & Hr).
    by eapply IH.
Qed.

Lemma fmap_lookup_total_seq {B} (f : node_cell → B) (h : list node_cell) :
  (λ k, f (h !!! k)) <$> seq 0 (length h) = f <$> h.
Proof.
  apply list_eq. intros i. rewrite !list_lookup_fmap.
  destruct (decide (i < length h)) as [Hlt|Hge].
  - rewrite lookup_seq_lt by done. simpl.
    destruct (lookup_lt_is_Some_2 h i Hlt) as [c Hc].
    by rewrite Hc, (list_lookup_total_correct _ _ _ Hc).
  - rewrite lookup_seq_ge by lia. by rewrite lookup_ge_None_2 by lia.
Qed.
End heap_to_tree.

(** ** What the populated state says about nodes and orphans *)

Section populated_consequences.
Import Backend.
Context (r : ProgramDict) (D : nat) (acc : list ProgramDict * list ProgramDict)
  (st : build_state) (Hpop : populated r D acc st).

Lemma populated_ins_cases q :
  q ∈ acc.1 →
  q = r ∨ (depth_key r < depth_key q
           ∧ parent_path (program_path q) ∈ program_path <$> acc.1).
Proof.
  intros [j Hj]%list_elem_of_lookup. destruct j as [|j].
  - left. pose proof (pop_root _ _ _ _ Hpop). congruence.
  - right. split.
    + apply (pop_depth _ _ _ _ Hpop (S j) q Hj). lia.
    + apply (pop_ins_parent _ _ _ _ Hpop (S j) q Hj). lia.
Qed.

Lemma populated_map_path k i :
  id_path_to_node st !! k = Some i → ∃ q, q ∈ acc.1 ∧ program_path q = k.
Proof.
  intros Hk. destruct (decide (k ∈ program_path <$> acc.1)) as [Hin|Hnin].
  - apply list_elem_of_fmap in Hin as (q & -> & Hq). eauto.
  - apply (pop_map_none _ _ _ _ Hpop) in Hnin. congruence.
Qed.

Lemma populated_tree_shaped :
  program_path r ≠ "" → tree_shaped (id_path_to_node st) (heap st).
Proof.
  intros Hroot. split.
  - apply (pop_child _ _ _ _ Hpop).
  - intros j cj Hpos Hj.
    destruct (pop_parent _ _ _ _ Hpop j cj Hpos Hj) as (i & c & Hm & Hc & Hin).
    split; [|by eauto]. intros Hemp. rewrite Hemp in Hm.
    destruct (populated_map_path _ _ Hm) as (q & Hq & Hqp).
    destruct (populated_ins_cases q Hq) as [->|[Hlt _]]; [done|].
    unfold depth_key in Hlt. rewrite Hqp in Hlt.
    pose proof (PathFacts.depth_pos (program_path r)).
    rewrite PathFacts.empty_depth in Hlt. lia.
  - intros c Hc.
    destruct (populated_record _ _ _ _ _ _ Hpop Hc) as (q & Hq & _ & ->).
    assert (q = r) as -> by (pose proof (pop_root _ _ _ _ Hpop); congruence).
    destruct (Path.has_dot (program_path r)) eqn:Hdot;
      [right|left; by apply parent_path_no_dot].
    pose proof (parent_path_depth _ Hdot) as Hd.
    apply (pop_map_none _ _ _ _ Hpop).
    intros (q' & Hqp & Hq')%list_elem_of_fmap.
    destruct (populated_ins_cases q' Hq') as [->|[Hlt _]].
    + rewrite Hqp in Hd. lia.
    + unfold depth_key in Hlt. rewrite <- Hqp in Hlt. lia.
Qed.

Lemma populated_flags_upto : flags_upto (length (heap st)) (heap st).
Proof.
  intros i c Hi. rewrite (pop_flags _ _ _ _ Hpop i c Hi). split; [done|].
  intros (j & cj & _ & Hle & Hcj & _). apply lookup_lt_Some in Hcj. lia.
Qed.

(** Nothing is inserted at the path of an orphan, nor anywhere below it. *)
Lemma orphan_path_excluded o :
  o ∈ acc.2 → program_path o ∉ program_path <$> acc.1.
Proof.
  intros Ho (q & Hqp & Hq)%list_elem_of_fmap.
  destruct (pop_orph _ _ _ _ Hpop o Ho) as (Hn & Hlt & _).
  destruct (populated_ins_cases q Hq) as [->|[_ Hin]].
  - unfold depth_key in Hlt. rewrite Hqp in Hlt. lia.
  - by rewrite <- Hqp in Hin.
Qed.

Lemma orphan_subtree_excluded o s :
  o ∈ acc.2 → descends_from (program_path o) s → s ∉ program_path <$> acc.1.
Proof.
  intros Ho Hs. destruct (pop_orph _ _ _ _ Hpop o Ho) as (_ & Hlt & _).
  unfold depth_key in Hlt.
  induction Hs as [s Hdot Hpar|s Hdot Hs IH];
    intros (q & -> & Hq)%list_elem_of_fmap;
    pose proof (parent_path_depth _ Hdot) as Hd;
    (destruct (populated_ins_cases q Hq) as [->|[_ Hin]]).
  - rewrite Hpar in Hd. lia.
  - rewrite Hpar in Hin. by apply (orphan_path_excluded o).
  - apply descends_from_depth in Hs. lia.
  - done.
Qed.
End populated_consequences.

(** ** The single-root branch as a whole *)

Section single_root.
Import Backend.
Variables (r : ProgramDict) (rest : list ProgramDict).
Hypothesis Hsorted : StronglySorted (key_le depth_key) (r :: rest).
Hypothesis Hsingle : ¬ 1 < count_root_candidates (depth_key r) (r :: rest).

Lemma single_root_deeper p : p ∈ rest → depth_key r < depth_key p.
Proof.
  intros Hp. simpl in Hsingle. rewrite bool_decide_true in Hsingle by done.
  apply StronglySorted_inv in Hsorted as [Hrest Hr].
  destruct rest as [|q rest']; [by apply elem_of_nil in Hp|].
  simpl in Hsingle. case_bool_decide as Hq; [lia|].
  apply Forall_cons in Hr as [Hrq _]. unfold key_le in Hrq.
  assert (depth_key r < depth_key q) as Hlt by lia.
  apply elem_of_cons in Hp as [->|Hp]; [done|].
  apply StronglySorted_inv in Hrest as [_ Hq'].
  rewrite Forall_forall in Hq'. specialize (Hq' p Hp). unfold key_le in Hq'. lia.
Qed.

Lemma populate_tree_populated :
  ∃ D, populated r D (place r rest) (populate_tree r rest).
Proof.
  apply (populated_foldl r (depth_key r)).
  - apply populated_initial.
  - by apply StronglySorted_inv in Hsorted as [? _].
  - intros p Hp. pose proof (single_root_deeper p Hp). lia.
Qed.

Lemma place_perm acc l :
  (foldl place_step acc l).1 ++ (foldl place_step acc l).2 ≡ₚ acc.1 ++ acc.2 ++ l.
Proof.
  revert acc. induction l as [|p l IH]; intros acc; simpl.
  - by rewrite (right_id_L [] (++)).
  - rewrite IH. unfold place_step. case_bool_decide; simpl.
    + rewrite <- !(assoc_L (++)). f_equiv. simpl. by rewrite Permutation_middle.
    + by rewrite <- !(assoc_L (++)).
Qed.

(** The walk of the final heap, after both loops. *)
Lemma bubble_up_walk :
  let st := populate_tree r rest in
  ∃ l, walk (length (bubble_up st)) (bubble_up st) 0 = Some l
       ∧ l ≡ₚ seq 0 (length (bubble_up st))
       ∧ length (bubble_up st) = length (heap st).
Proof.
  intros st. destruct populate_tree_populated as [D Hpop]. fold st in Hpop.
  destruct (pop_walk _ _ _ _ Hpop) as (l & Hl & Hperm).
  pose proof (bubble_loop_shape (id_path_to_node st) (reverse (nodes_by_path st)) (heap st))
    as Hshape. fold (bubble_up st) in Hshape.
  assert (length (bubble_up st) = length (heap st)) as Hlen.
  { by rewrite <- (length_fmap shape), Hshape, length_fmap. }
  exists l. rewrite Hlen. split; [|done].
  rewrite <- Hl. apply walk_children_ext.
  apply (f_equal (fmap fst)) in Hshape. by rewrite <- !list_fmap_compose in Hshape.
Qed.
End single_root.

(** ** The hierarchy builder: root analysis *)

Section root_analysis.
Import Backend.

Lemma foldr_min_le (d : nat) (rest : list ProgramDict) :
    foldr (λ q m, depth_key q `min` m) d rest ≤ d
    ∧ ∀ p, p ∈ rest → foldr (λ q m, depth_key q `min` m) d rest ≤ depth_key p.
Proof.
    induction rest as [|r rest [IH1 IH2]]; simpl.
    - split; [done|]. by intros ? ?%elem_of_nil.
    - split; [lia|]. intros p [->|Hin]%elem_of_cons; [lia|].
      specialize (IH2 p Hin). lia.
Qed.

Lemma min_depth_le data p : p ∈ data → min_depth data ≤ depth_key p.
Proof.
    destruct data as [|q rest]; [by intros ?%elem_of_nil|].
    simpl. destruct (foldr_min_le (depth_key q) rest) as [H1 H2].
    intros [->|Hin]%elem_of_cons; [done|]. by apply H2.
Qed.

Lemma min_depth_attained data : data ≠ [] → ∃ p, p ∈ data ∧ depth_key p = min_depth data.
Proof.
    destruct data as [|q rest]; [done|]. intros _.
    simpl. induction rest as [|r rest IH]; simpl.
    - exists q. split; [left|done].
    - destruct IH as (p & Hin & Hp).
      destruct (decide (depth_key r ≤ foldr (λ q m, depth_key q `min` m) (depth_key q) rest)).
      + exists r. split; [right; left|lia].
      + exists p. split; [|lia].
        apply elem_of_cons in Hin as [->|Hin]; [left|right; by right].
Qed.

Lemma min_depth_perm data data' : data ≡ₚ data' → min_depth data = min_depth data'.
Proof.
    intros Hp. destruct (decide (data = [])) as [->|Hne].
    { by apply Permutation_nil_l in Hp as ->. }
    assert (data' ≠ []) as Hne' by (intros ->; by apply Permutation_nil_r in Hp).
    destruct (min_depth_attained data Hne) as (p & Hin & Hp1).
    destruct (min_depth_attained data' Hne') as (p' & Hin' & Hp1').
    rewrite Hp in Hin. rewrite <- Hp in Hin'.
    apply min_depth_le in Hin, Hin'. lia.
Qed.

Lemma min_depth_sorted_head p rest :
    StronglySorted (key_le depth_key) (p :: rest) → min_depth (p :: rest) = depth_key p.
Proof.
    intros Hs. apply StronglySorted_inv in Hs as [_ Hall].
    destruct (min_depth_attained (p :: rest)) as (q & Hin & Hq); [done|].
    pose proof (min_depth_le (p :: rest) p (list_elem_of_here _ _)) as Hle.
    apply elem_of_cons in Hin as [->|Hin]; [done|].
    rewrite Forall_forall in Hall. specialize (Hall q Hin). unfold key_le in Hall.
    apply Nat.le_antisymm; [exact Hle|]. rewrite <- Hq. exact Hall.
Qed.

  (** On a sorted list the counting loop finds every record of depth [d],
      and they are its first records. *)
Lemma count_root_candidates_sorted d l :
    StronglySorted (key_le depth_key) l →
    (∀ p, p ∈ l → d ≤ depth_key p) →
    take (count_root_candidates d l) l = filter (λ p, depth_key p = d) l
    ∧ count_root_candidates d l = length (filter (λ p, depth_key p = d) l).
Proof.
    induction 1 as [|p l Hl IH Hp]; intros Hd; simpl; [done|].
    rewrite filter_cons. case_bool_decide as Hpd; case_decide; try done.
    - destruct IH as [IH1 IH2]; [intros; apply Hd; by right|].
      simpl. by rewrite IH1, IH2.
    - assert (filter (λ p0, depth_key p0 = d) l = []) as ->; [|done].
      specialize (Hd p (list_elem_of_here _ _)).
      clear IH Hl. induction l as [|q l IHl]; [done|].
      apply Forall_cons in Hp as [Hq Hp]. unfold key_le in Hq.
      rewrite filter_cons. case_decide; [lia|]. by apply IHl.
Qed.

Lemma root_candidates_sorted data :
    root_candidates (sort_by depth_key data) = root_candidates data.
Proof.
    unfold root_candidates.
    rewrite (min_depth_perm _ _ (sort_by_perm depth_key data)).
    apply sort_by_filter_key.
Qed.

  (** What the counting loop and the slice see, in terms of the input. *)
Lemma root_analysis data first rest :
    sort_by depth_key data = first :: rest →
    depth_key first = min_depth data
    ∧ count_root_candidates (depth_key first) (first :: rest) = length (root_candidates data)
    ∧ take (count_root_candidates (depth_key first) (first :: rest)) (first :: rest)
      = root_candidates data.
Proof.
    intros Hsort.
    pose proof (sort_by_sorted depth_key data) as Hs. rewrite Hsort in Hs.
    pose proof (min_depth_sorted_head _ _ Hs) as Hmin'.
    assert (min_depth data = depth_key first) as Hmin.
    { by rewrite <- (min_depth_perm _ _ (sort_by_perm depth_key data)), Hsort. }
    split; [done|].
    destruct (count_root_candidates_sorted (depth_key first) (first :: rest) Hs) as [H1 H2].
    { intros p Hp. rewrite <- Hmin'. by apply min_depth_le. }
    rewrite H1, H2, <- root_candidates_sorted, Hsort. unfold root_candidates.
    by rewrite Hmin'.
Qed.
End root_analysis.

(** C1 (backend copy). When two or more records share the smallest depth,
    [get_all_programs_as_tree] raises [ValueError]; before that it logs the
    integrity error and then one "Candidate root" record per record of smallest
    depth, with its name and path; no tree is returned. *)
Theorem backend_multiple_roots_raise (data : list ProgramDict) :
  2 ≤ length (root_candidates data) →
  Backend.get_all_programs_as_tree data =
    (Raise (ValueError (length (root_candidates data))),
     LogIntegrityError (length (root_candidates data)) ::
       ((λ p, LogCandidateRoot (name p) (program_path p)) <$> root_candidates data)).
Proof.
  intros Hk. unfold Backend.get_all_programs_as_tree.
  destruct data as [|p0 data0] eqn:Hdata; [simpl in Hk; lia|]. rewrite <- Hdata in Hk |- *.
  destruct (sort_by Backend.depth_key data) as [|first rest] eqn:Hsort.
  { pose proof (sort_by_perm Backend.depth_key data) as Hp. rewrite Hsort in Hp.
    apply Permutation_nil_l in Hp. congruence. }
  destruct (root_analysis data first rest Hsort) as (_ & Hc & Ht).
  cbv zeta.
  rewrite Ht, Hc. rewrite bool_decide_true by lia. done.
Qed.

(** ** The returned tree *)

Section returned_tree.
Import Backend.

Lemma get_all_programs_as_tree_ok data t lg :
  get_all_programs_as_tree data = (Ok (Some t), lg) →
  ∃ r rest,
    sort_by depth_key data = r :: rest
    ∧ ¬ 1 < count_root_candidates (depth_key r) (r :: rest)
    ∧ reify (length (bubble_up (populate_tree r rest))) (bubble_up (populate_tree r rest)) 0
      = Some t
    ∧ lg = log (populate_tree r rest).
Proof.
  unfold get_all_programs_as_tree. destruct data as [|p0 data0]; [done|].
  cbv zeta. destruct (sort_by depth_key (p0 :: data0)) as [|r rest]; [done|].
  case_bool_decide as Hc; [done|].
  destruct (reify _ _ 0) as [t'|] eqn:Hreify; [|done].
  intros [= -> <-]. by exists r, rest.
Qed.

Lemma bubble_up_lookup st i c2 :
  bubble_up st !! i = Some c2 → ∃ c1, heap st !! i = Some c1 ∧ shape c2 = shape c1.
Proof.
  intros Hi.
  pose proof (bubble_loop_shape (id_path_to_node st) (reverse (nodes_by_path st)) (heap st))
    as Hshape. fold (bubble_up st) in Hshape.
  apply (f_equal (λ l, l !! i)) in Hshape. rewrite !list_lookup_fmap, Hi in Hshape.
  destruct (heap st !! i) as [c1|]; [|done]. exists c1. split; [done|].
  simpl in Hshape. congruence.
Qed.

Lemma returned_root r rest t :
  StronglySorted (key_le depth_key) (r :: rest) →
  ¬ 1 < count_root_candidates (depth_key r) (r :: rest) →
  reify (length (bubble_up (populate_tree r rest))) (bubble_up (populate_tree r rest)) 0
    = Some t →
  set_has_descendant false (tree_data t) = node_of r.
Proof.
  intros Hs Hc Hreify. destruct (populate_tree_populated r rest Hs Hc) as [D Hpop].
  apply reify_data in Hreify as (c2 & Hc2 & ->).
  apply bubble_up_lookup in Hc2 as (c1 & Hc1 & Hshape).
  destruct (populated_record _ _ _ _ _ _ Hpop Hc1) as (q & Hq & Hd & _).
  assert (q = r) as -> by (pose proof (pop_root _ _ _ _ Hpop); congruence).
  apply (f_equal snd) in Hshape. simpl in Hshape. by rewrite Hshape, Hd.
Qed.
End returned_tree.

(** C2, as it holds of the backend copy. In every tree returned by
    [get_all_programs_as_tree] whose root has a non-empty path, and for every
    node of it, the root included, [has_descendant_expecting_software_effort]
    is true exactly when some proper descendant of the node has
    [expecting_software_efforts] true; so a node whose own flag is true and
    whose proper descendants all have it false is not flagged. *)
Theorem has_descendant_iff_proper_descendant (data : list ProgramDict)
    (t : ProgramTreeNode) (lg : list log_entry) :
  Backend.get_all_programs_as_tree data = (Ok (Some t), lg) →
  node_program_path (tree_data t) ≠ "" →
  ∀ s, s ∈ subtrees t →
    (has_descendant_expecting_software_effort (tree_data s) = true ↔
     ∃ d, d ∈ tree_descendants s ∧ expecting_software_efforts d = true)
    ∧ (expecting_software_efforts (tree_data s) = true →
       (∀ d, d ∈ tree_descendants s → expecting_software_efforts d = false) →
       has_descendant_expecting_software_effort (tree_data s) = false).
Proof.
  intros (r & rest & Hsort & Hc & Hreify & _)%get_all_programs_as_tree_ok Hroot.
  pose proof (sort_by_sorted Backend.depth_key data) as Hs. rewrite Hsort in Hs.
  pose proof (returned_root r rest t Hs Hc Hreify) as Hr.
  apply (f_equal node_program_path) in Hr. simpl in Hr. rewrite Hr in Hroot.
  destruct (populate_tree_populated r rest Hs Hc) as [D Hpop].
  pose proof (populated_tree_shaped _ _ _ _ Hpop Hroot) as Hts.
  pose proof (populated_flags_upto _ _ _ _ Hpop) as Hfl.
  pose proof (bubble_loop _ _ _ Hts Hfl) as Hfinal.
  rewrite <- (pop_nbp _ _ _ _ Hpop) in Hfinal.
  fold (Backend.bubble_up (Backend.populate_tree r rest)) in Hfinal.
  pose proof (reify_flags _ _ _ _ Hfinal Hreify) as Hloc.
  assert (∀ s, s ∈ subtrees t →
    (has_descendant_expecting_software_effort (tree_data s) = true ↔
     ∃ d, d ∈ tree_descendants s ∧ expecting_software_efforts d = true)) as Hiff.
  { intros s Hs'. apply flags_descendants. intros s' Hs''. apply Hloc.
    by eapply subtrees_trans. }
  intros s Hs'. split; [by apply Hiff|]. intros _ Hnone.
  destruct (has_descendant_expecting_software_effort (tree_data s)) eqn:Hd; [|done].
  apply (Hiff s Hs') in Hd as (d & Hd & He). rewrite (Hnone d Hd) in He. done.
Qed.

(** The theorem above at the example of the design document. *)
Lemma has_descendant_iff_proper_descendant_witness :
  ∃ t lg,
    Backend.get_all_programs_as_tree example_programs = (Ok (Some t), lg)
    ∧ node_program_path (tree_data t) ≠ ""
    ∧ ∀ s, s ∈ subtrees t →
        (has_descendant_expecting_software_effort (tree_data s) = true ↔
         ∃ d, d ∈ tree_descendants s ∧ expecting_software_efforts d = true)
        ∧ (expecting_software_efforts (tree_data s) = true →
           (∀ d, d ∈ tree_descendants s → expecting_software_efforts d = false) →
           has_descendant_expecting_software_effort (tree_data s) = false).
Proof.
  eexists _, _. split; [vm_compute; reflexivity|]. split; [discriminate|].
  eapply (has_descendant_iff_proper_descendant example_programs);
    [vm_compute; reflexivity|discriminate].
Defined.

(** C2 as stated fails when the root's path is the empty string: the
    "Bubble Up" loop skips a parent whose path is empty ([if parent_path and
    ...]), so the root stays unflagged although its child expects software
    efforts. *)
Lemma has_descendant_empty_root_counterexample :
  ¬ (∀ data t lg,
       Backend.get_all_programs_as_tree data = (Ok (Some t), lg) →
       ∀ s, s ∈ subtrees t →
         (has_descendant_expecting_software_effort (tree_data s) = true ↔
          ∃ d, d ∈ tree_descendants s ∧ expecting_software_efforts d = true)).
Proof.
  intros Hclaim.
  destruct (Backend.get_all_programs_as_tree empty_root_programs) as [res lg] eqn:Hrun.
  vm_compute in Hrun. injection Hrun as <- <-.
  specialize (Hclaim empty_root_programs _ _ eq_refl _ (subtrees_self _)).
  destruct Hclaim as [_ Hclaim]. simpl in Hclaim.
  assert (false = true) as Habs; [|done].
  apply Hclaim. eexists. split; [by left|done].
Qed.

(** C3 (backend copy). When exactly one record [r] has the smallest depth,
    [get_all_programs_as_tree] returns a tree. Its root carries the
    attributes of [r]. Going through the other records by ascending depth
    (stable), a record is inserted when its parent path is the path of a node
    inserted so far and is skipped with an orphan warning otherwise ([place]):
    the nodes of the tree are the inserted records, the log is the orphan
    warnings in order, every record is either a node or an orphan, no node
    lies at the path of an orphan or below it, and the tree has as many nodes
    as there are records less the orphans. *)
Theorem tree_root_orphans_and_size (data : list ProgramDict) (r : ProgramDict) :
  root_candidates data = [r] →
  ∃ t rest,
    sort_by Backend.depth_key data = r :: rest
    ∧ Backend.get_all_programs_as_tree data
      = (Ok (Some t), orphan_warning <$> (place r rest).2)
    ∧ Backend.set_has_descendant false (tree_data t) = node_of r
    ∧ Backend.set_has_descendant false <$> tree_nodes t ≡ₚ node_of <$> (place r rest).1
    ∧ data ≡ₚ (place r rest).1 ++ (place r rest).2
    ∧ (∀ o, o ∈ (place r rest).2 →
         parent_path (program_path o) ∉ node_program_path <$> tree_nodes t)
    ∧ (∀ o d, o ∈ (place r rest).2 → d ∈ tree_nodes t →
         node_program_path d ≠ program_path o
         ∧ ¬ descends_from (program_path o) (node_program_path d))
    ∧ tree_size t = length data - length (place r rest).2.
Proof.
  intros Hroot.
  destruct (sort_by Backend.depth_key data) as [|first rest] eqn:Hsort.
  { pose proof (sort_by_perm Backend.depth_key data) as Hp. rewrite Hsort in Hp.
    apply Permutation_nil_l in Hp. by subst data. }
  destruct (root_analysis data first rest Hsort) as (_ & Hc & Ht).
  rewrite Hroot in Hc, Ht. change (length [r]) with 1 in Hc.
  rewrite Hc in Ht. cbn [take] in Ht. injection Ht as ->.
  assert (¬ 1 < Backend.count_root_candidates (Backend.depth_key r) (r :: rest)) as Hsingle by lia.
  pose proof (sort_by_sorted Backend.depth_key data) as Hs. rewrite Hsort in Hs.
  destruct (populate_tree_populated r rest Hs Hsingle) as [D Hpop].
  destruct (bubble_up_walk r rest Hs Hsingle) as (l & Hwalk & Hperm & Hlen).
  destruct (walk_reify _ _ _ _ Hwalk) as (t & Hreify & Hnodes & _).
  set (st := Backend.populate_tree r rest) in *.
  set (h := Backend.bubble_up st) in *.
  assert (Backend.set_has_descendant false <$> tree_nodes t ≡ₚ node_of <$> (place r rest).1)
    as Hnodes_perm.
  { rewrite Hnodes, Hperm, (fmap_lookup_total_seq Backend.cell_data h).
    rewrite <- (pop_data _ _ _ _ Hpop).
    pose proof (bubble_loop_shape (Backend.id_path_to_node st)
      (reverse (Backend.nodes_by_path st)) (Backend.heap st)) as Hshape.
    fold (Backend.bubble_up st) in Hshape. fold h in Hshape.
    apply (f_equal (fmap snd)) in Hshape. rewrite <- !list_fmap_compose in Hshape.
    rewrite <- !list_fmap_compose.
    change (Backend.set_has_descendant false ∘ Backend.cell_data) with (snd ∘ shape).
    rewrite Hshape.
    assert ((snd ∘ shape) <$> Backend.heap st = Backend.cell_data <$> Backend.heap st) as ->; [|done].
    apply list_fmap_ext. intros i c Hic. simpl.
    destruct (populated_record _ _ _ _ _ _ Hpop Hic) as (q & _ & -> & _). done. }
  assert (data ≡ₚ (place r rest).1 ++ (place r rest).2) as Hdata.
  { rewrite <- (sort_by_perm Backend.depth_key data), Hsort.
    unfold place. by rewrite place_perm. }
  assert (node_program_path <$> tree_nodes t ≡ₚ program_path <$> (place r rest).1) as Hpaths.
  { apply (fmap_Permutation node_program_path) in Hnodes_perm.
    rewrite <- !list_fmap_compose in Hnodes_perm. exact Hnodes_perm. }
  exists t, rest. split; [done|]. split.
  { unfold Backend.get_all_programs_as_tree.
    destruct data as [|p0 data0]; [done|]. cbv zeta. rewrite Hsort.
    rewrite bool_decide_false by done. fold st. fold h. rewrite Hreify.
    by rewrite (pop_log _ _ _ _ Hpop). }
  split; [by apply (returned_root r rest t Hs Hsingle)|].
  split; [done|]. split; [done|]. split; [|split].
  - intros o Ho. rewrite Hpaths. by apply (pop_orph _ _ _ _ Hpop).
  - intros o d Ho Hd.
    assert (node_program_path d ∈ program_path <$> (place r rest).1) as Hin.
    { rewrite <- Hpaths. by apply list_elem_of_fmap_2. }
    split.
    + intros Heq. rewrite Heq in Hin. by apply (orphan_path_excluded _ _ _ _ Hpop o).
    + intros Hdesc. by apply (orphan_subtree_excluded _ _ _ _ Hpop o _ Ho Hdesc).
  - rewrite tree_size_nodes, Hdata, length_app.
    apply Permutation_length in Hnodes_perm. rewrite !length_fmap in Hnodes_perm. lia.
Qed.

(** The theorem above at the example of the design document, whose record
    ["2.1"] is an orphan. *)
Lemma tree_root_orphans_and_size_witness :
  root_candidates example_programs = [sample_program "1" "top" false]
  ∧ ∃ t rest,
    sort_by Backend.depth_key example_programs = sample_program "1" "top" false :: rest
    ∧ Backend.get_all_programs_as_tree example_programs
      = (Ok (Some t), orphan_warning <$> (place (sample_program "1" "top" false) rest).2)
    ∧ Backend.set_has_descendant false (tree_data t) = node_of (sample_program "1" "top" false)
    ∧ Backend.set_has_descendant false <$> tree_nodes t
      ≡ₚ node_of <$> (place (sample_program "1" "top" false) rest).1
    ∧ example_programs
      ≡ₚ (place (sample_program "1" "top" false) rest).1
         ++ (place (sample_program "1" "top" false) rest).2
    ∧ (∀ o, o ∈ (place (sample_program "1" "top" false) rest).2 →
         parent_path (program_path o) ∉ node_program_path <$> tree_nodes t)
    ∧ (∀ o d, o ∈ (place (sample_program "1" "top" false) rest).2 → d ∈ tree_nodes t →
         node_program_path d ≠ program_path o
         ∧ ¬ descends_from (program_path o) (node_program_path d))
    ∧ tree_size t = length example_programs
                    - length (place (sample_program "1" "top" false) rest).2.
Proof.
  split; [reflexivity|].
  apply (tree_root_orphans_and_size example_programs). reflexivity.
Defined.

(** C1 on the older copy: with two records at the smallest depth it picks
    the first as the root and drops the other one, raising and logging
    nothing. *)
Theorem legacy_multiple_roots_first_wins (convert : ProgramDict → NodeData) :
  2 ≤ length (root_candidates two_roots)
  ∧ Legacy.get_all_programs_as_tree convert two_roots
    = Some (TreeNode (convert (sample_program "1" "first" false)) []).
Proof. split; [vm_compute; lia|]. vm_compute. reflexivity. Qed.

(** ** The version resolver *)

Lemma foldr_Zmax_spec (d0 : Z) (ds : list Z) :
  (d0 ≤ foldr Z.max d0 ds)%Z
  ∧ (∀ d, d ∈ ds → (d ≤ foldr Z.max d0 ds)%Z)
  ∧ foldr Z.max d0 ds ∈ d0 :: ds.
Proof.
  induction ds as [|d1 ds (IH0 & IH1 & IH2)]; simpl.
  - split; [lia|]. split; [by intros ? ?%elem_of_nil|by left].
  - split; [lia|]. split.
    + intros d [Hd|Hd]%elem_of_cons; [subst d; lia|]. specialize (IH1 d Hd). lia.
    + destruct (Z.max_spec d1 (foldr Z.max d0 ds)) as [[_ Heq]|[_ Heq]]; rewrite Heq.
      * apply elem_of_cons in IH2 as [Hd|Hd]; [rewrite Hd; by left|by right; right].
      * right. by left.
Qed.

Lemma max_date_spec (ds : list Z) :
  ds ≠ [] → Service.max_date ds ∈ ds ∧ ∀ d, d ∈ ds → (d ≤ Service.max_date ds)%Z.
Proof.
  destruct ds as [|d0 ds]; [done|]. intros _. simpl.
  destruct (foldr_Zmax_spec d0 ds) as (H0 & H1 & H2). split; [done|].
  intros d [Hd|Hd]%elem_of_cons; [by subst d|by apply H1].
Qed.

(** C4 (backend copy). [_get_latest_programs] only reads; its result has one
    entry per [program_id] that has an active row, no [program_id] twice,
    each with the largest date among the active rows of that [program_id];
    it is empty when no row is active. *)
Theorem latest_active_versions (w : World) :
  ∃ latest,
    Service._get_latest_programs w
      = (Ok latest, {| db := db w; trace := trace w ++ [Select ProgramInfos];
                       uuid4_calls := uuid4_calls w |})
    ∧ NoDup latest.*1
    ∧ (∀ pid, pid ∈ latest.*1 ↔
         ∃ r, r ∈ program_infos (db w) ∧ Model.program_active r = true
              ∧ Model.program_id r = pid)
    ∧ (∀ pid d, (pid, d) ∈ latest →
         (∃ r, r ∈ program_infos (db w) ∧ Model.program_active r = true
               ∧ Model.program_id r = pid ∧ Model.date r = d)
         ∧ (∀ r, r ∈ program_infos (db w) → Model.program_active r = true →
                 Model.program_id r = pid → (Model.date r ≤ d)%Z))
    ∧ ((∀ r, r ∈ program_infos (db w) → Model.program_active r = false) → latest = []).
Proof.
  set (active := filter (λ r, Model.program_active r = true) (program_infos (db w))).
  assert (∀ r, r ∈ active ↔ r ∈ program_infos (db w) ∧ Model.program_active r = true)
    as Hactive.
  { intros r. unfold active. rewrite list_elem_of_filter. tauto. }
  assert (∀ pid, pid ∈ remove_dups (Model.program_id <$> active) ↔
            ∃ r, r ∈ program_infos (db w) ∧ Model.program_active r = true
                 ∧ Model.program_id r = pid) as Hkeys.
  { intros pid. rewrite elem_of_remove_dups, list_elem_of_fmap. split.
    - intros (r & -> & [? ?]%Hactive). eauto.
    - intros (r & ? & ? & <-). exists r. split; [done|]. by apply Hactive. }
  exists ((λ pid, (pid, Service.max_date (Model.date <$>
                     filter (λ r, Model.program_id r = pid) active)))
          <$> remove_dups (Model.program_id <$> active)).
  split; [reflexivity|].
  rewrite <- list_fmap_compose.
  change (fst ∘ _) with (@id Z). rewrite list_fmap_id.
  split; [apply NoDup_remove_dups|]. split; [done|]. split.
  - intros pid d (pid' & [= <- ->] & Hpid)%list_elem_of_fmap.
    set (group := filter (λ r, Model.program_id r = pid) active).
    apply Hkeys in Hpid as (r0 & Hr0 & Hr0a & Hr0p).
    assert (r0 ∈ group) as Hr0g.
    { apply list_elem_of_filter. split; [done|]. by apply Hactive. }
    destruct (max_date_spec (Model.date <$> group)) as [Hin Hmax].
    { intros Hnil. apply fmap_nil_inv in Hnil. rewrite Hnil in Hr0g.
      by apply elem_of_nil in Hr0g. }
    split.
    + apply list_elem_of_fmap in Hin as (r & Hd & [Hp [? ?]%Hactive]%list_elem_of_filter).
      exists r. by rewrite <- Hd.
    + intros r Hr Ha Hp. apply Hmax, list_elem_of_fmap. exists r. split; [done|].
      apply list_elem_of_filter. split; [done|]. by apply Hactive.
  - intros Hnone. assert (active = []) as ->; [|done].
    destruct active as [|r rest]; [done|].
    destruct (Hactive r) as [Hr _]. destruct Hr as [Hr Ha]; [by left|].
    rewrite (Hnone r Hr) in Ha. done.
Qed.

(** C4 on the older copy: with two active versions of one program it
    returns an entry per row, the older date included, where one entry with
    the largest date is required. The backend copy ("Fix: Explicitly group by
    program_id before annotating") returns the single entry. *)
Theorem legacy_latest_programs_per_row :
  (LegacyService._get_latest_programs two_versions_world).1
    = Ok [(101%Z, 5%Z); (101%Z, 9%Z)]
  ∧ (Service._get_latest_programs two_versions_world).1 = Ok [(101%Z, 9%Z)].
Proof. split; vm_compute; reflexivity. Qed.

(** ** Fetching one program *)

Section fetch_program.
Context (Program : Type)
  (convert : option Model.ProgramCatalogInfoModel → result Program).

Definition outcome_of_conversion (model : option Model.ProgramCatalogInfoModel)
    : result (option Program) :=
  match convert model with
  | Ok p => Ok (Some p)
  | Raise e => Raise e
  end.

Lemma lift_result_bind {A B} (r : result A) (f : A → M B) w :
  (Service.lift_result r ≫= f) w
  = match r with Ok a => f a w | Raise e => (Raise e, w) end.
Proof. unfold mbind, M_bind, Service.lift_result. by destruct r. Qed.

(** Whatever row is found, or none, goes to the conversion, and what the
    conversion yields is returned. *)
Lemma get_program_by_id_outcome id w :
  ∃ model, (Service.get_program_by_id Program convert id w).1 = outcome_of_conversion model
    ∧ ((∀ r, r ∈ program_infos (db w) → Model.program_id r ≠ id) → model = None).
Proof.
  destruct (latest_active_versions w) as (latest & Hrun & _).
  unfold Service.get_program_by_id, mbind at 1, M_bind. rewrite Hrun.
  unfold select_program_infos, record_op, get_db, mbind, M_bind, mret, M_ret. simpl.
  match goal with |- context [convert ?m] => exists m end. split.
  - unfold outcome_of_conversion. by destruct (convert _).
  - intros Hnone.
    destruct (list_find _ _) as [[i r]|] eqn:Hfind; [|done].
    apply list_find_Some in Hfind as (Hr & [_ Hid] & _).
    apply list_elem_of_lookup_2 in Hr. by destruct (Hnone r Hr).
Qed.

Lemma get_program_by_uuid_outcome id w :
  ∃ model, (Service.get_program_by_uuid Program convert id w).1 = outcome_of_conversion model
    ∧ ((∀ r, r ∈ program_infos (db w) → Model.id r ≠ id) → model = None).
Proof.
  destruct (latest_active_versions w) as (latest & Hrun & _).
  unfold Service.get_program_by_uuid, mbind at 1, M_bind. rewrite Hrun.
  unfold select_program_infos, record_op, get_db, mbind, M_bind, mret, M_ret. simpl.
  match goal with |- context [convert ?m] => exists m end. split.
  - unfold outcome_of_conversion. by destruct (convert _).
  - intros Hnone.
    destruct (list_find _ _) as [[i r]|] eqn:Hfind; [|done].
    apply list_find_Some in Hfind as (Hr & [_ Hid] & _).
    apply list_elem_of_lookup_2 in Hr. by destruct (Hnone r Hr).
Qed.
End fetch_program.

(** C9 fails on the code. With nothing stored, both fetches hand [None] to
    [_convert_program_catalog_info_to_dto] and return what it yields: the
    exception it raises, or the [Program] it builds; never the absent result
    that the docstrings ("None if no match was found") promise. *)
Theorem get_program_not_found_not_absent (Program : Type)
    (convert : option Model.ProgramCatalogInfoModel → result Program) :
  (Service.get_program_by_id Program convert 1 empty_world).1
    = outcome_of_conversion Program convert None
  ∧ (Service.get_program_by_uuid Program convert "1" empty_world).1
    = outcome_of_conversion Program convert None
  ∧ outcome_of_conversion Program convert None ≠ Ok None.
Proof.
  split; [|split].
  - destruct (get_program_by_id_outcome Program convert 1 empty_world) as (m & -> & Hm).
    rewrite Hm; [done|]. by intros r ?%elem_of_nil.
  - destruct (get_program_by_uuid_outcome Program convert "1" empty_world) as (m & -> & Hm).
    rewrite Hm; [done|]. by intros r ?%elem_of_nil.
  - unfold outcome_of_conversion. by destruct (convert None).
Qed.

(** ** Running the storage operations *)

Section runs.

Lemma profiles_set_same X t d : profiles (set_profiles X t d) X = t.
Proof. by destruct X. Qed.

Lemma profiles_set_ne X Y t d : X ≠ Y → profiles (set_profiles X t d) Y = profiles d Y.
Proof. by destruct X, Y. Qed.

Lemma set_profiles_id X d : set_profiles X (profiles d X) d = d.
Proof. by destruct d, X. Qed.

Lemma stored_id w : stored (db w) w = w.
Proof. by destruct w. Qed.

Lemma bind_run {A B} (m : M A) (f : A → M B) w :
  (m ≫= f) w = match m w with
               | (Ok a, w') => f a w'
               | (Raise e, w') => (Raise e, w')
               end.
Proof. done. Qed.

Lemma ret_run {A} (a : A) (w : World) : mret (M := M) a w = (Ok a, w).
Proof. done. Qed.

Lemma traced_traced ops ops' w : traced ops' (traced ops w) = traced (ops ++ ops') w.
Proof. unfold traced. simpl. by rewrite (assoc_L (++)). Qed.

Lemma traced_nil w : traced [] w = w.
Proof. destruct w. unfold traced. simpl. by rewrite (right_id_L [] (++)). Qed.

Lemma stored_traced d ops w : stored d (traced ops w) = traced ops (stored d w).
Proof. done. Qed.

Lemma stored_stored d d' w : stored d' (stored d w) = stored d' w.
Proof. done. Qed.

Lemma select_program_infos_run w :
  select_program_infos w = (Ok (program_infos (db w)), traced [Select ProgramInfos] w).
Proof. done. Qed.

Lemma select_effort_by_uuid_run u w :
  select_effort_by_uuid u w
  = (Ok (snd <$> list_find (λ e, Model.uuid e = u) (efforts (db w))),
     traced [Select Efforts] w).
Proof. done. Qed.

Lemma select_effort_by_pk_run k w :
  select_effort_by_pk k w
  = (Ok (snd <$> list_find (λ e, Zpos (Model.pk e) = k) (efforts (db w))),
     traced [Select Efforts] w).
Proof. done. Qed.

Lemma get_effort_by_uuid_run u w :
  get_effort_by_uuid u w
  = (match filter (λ e, Model.uuid e = u) (efforts (db w)) with
     | [] => Raise DoesNotExist
     | [effort] => Ok effort
     | _ => Raise MultipleObjectsReturned
     end, traced [Select Efforts] w).
Proof.
  unfold get_effort_by_uuid. rewrite !bind_run. simpl.
  unfold mbind, M_bind, get_db. simpl.
  by destruct (filter _ (efforts (db w))) as [|effort [|other rest]].
Qed.

Lemma hard_delete_profile_run X k w :
  hard_delete_profile X k w
  = (Ok tt, traced [Delete (Profiles X)]
              (stored (set_profiles X (delete k (profiles (db w) X)) (db w)) w)).
Proof. done. Qed.

Lemma hard_delete_effort_run effort w :
  hard_delete_effort effort w
  = (Ok tt, traced [Delete Efforts]
              (stored (set_efforts (filter (λ e, Model.pk e ≠ Model.pk effort)
                                           (efforts (db w))) (db w)) w)).
Proof. done. Qed.

Lemma create_profile_run X row w :
  create_profile X row w
  = (Ok (fresh (dom (profiles (db w) X))),
     traced [Insert_ (Profiles X)]
       (stored (set_profiles X (<[fresh (dom (profiles (db w) X)) := row]>
                                  (profiles (db w) X)) (db w)) w)).
Proof. done. Qed.

Lemma save_profile_run X k row w :
  save_profile X k row w
  = (Ok tt, traced [Update (Profiles X)]
              (stored (set_profiles X (<[k := row]> (profiles (db w) X)) (db w)) w)).
Proof. done. Qed.

Lemma save_effort_run effort w :
  save_effort effort w
  = (Ok tt, traced [Update Efforts]
              (stored (set_efforts (write_row effort (efforts (db w))) (db w)) w)).
Proof. done. Qed.

Lemma atomic_run_ok {A} (body : M A) (a : A) w w' :
  body (traced [Begin] w) = (Ok a, w') → atomic body w = (Ok a, traced [Commit] w').
Proof.
  intros Hbody. unfold atomic. rewrite bind_run. simpl.
  change {| db := db w; trace := trace w ++ [Begin]; uuid4_calls := uuid4_calls w |}
    with (traced [Begin] w).
  by rewrite Hbody.
Qed.

End runs.

(** ** Deleting an effort *)

Lemma list_filter_empty_lemma {A} (P : A → Prop) `{!∀ x, Decision (P x)} (l : list A) :
  filter P l = [] ↔ ∀ x, x ∈ l → ¬ P x.
Proof.
  induction l as [|x l IH].
  - split; [by intros _ ? ?%elem_of_nil|done].
  - rewrite filter_cons. case_decide as Hx.
    + split; [done|]. intros Hall. destruct (Hall x); [by left|done].
    + rewrite IH. split.
      * intros Hall y [->|Hy]%elem_of_cons; [done|by apply Hall].
      * intros Hall y Hy. apply Hall. by right.
Qed.

Section delete_effort.
Variable uuid_ctor : string → option string.

Lemma delete_local_run effort X w :
  (∀ k, Model.local_id effort X = Some k → is_Some (profiles (db w) X !! k)) →
  Service.delete_local effort X w
  = (Ok tt, traced (match Model.local_id effort X with
                    | Some _ => [Select (Profiles X); Delete (Profiles X)]
                    | None => []
                    end)
              (stored (without_local effort X (db w)) w)).
Proof.
  intros Hrow. unfold Service.delete_local, without_local, related_object, related.
  destruct (Model.local_id effort X) as [k|].
  - destruct (Hrow k eq_refl) as [row Hk].
    rewrite bool_decide_true by by eexists.
    rewrite !bind_run. simpl. rewrite Hk. simpl.
    rewrite hard_delete_profile_run. simpl.
    unfold traced, stored. simpl. by rewrite <- (assoc_L (++)).
  - rewrite bool_decide_false by by intros [? ?].
    rewrite ret_run, traced_nil. by destruct w.
Qed.

Lemma profiles_without_local effort Y d X :
  profiles (without_local effort Y d) X
  = match Model.local_id effort Y with
    | Some k => if decide (Y = X) then delete k (profiles d X) else profiles d X
    | None => profiles d X
    end.
Proof.
  unfold without_local. destruct (Model.local_id effort Y) as [k|]; [|done].
  case_decide as HXY.
  - subst Y. by rewrite profiles_set_same.
  - by rewrite profiles_set_ne.
Qed.

Lemma efforts_without_local effort Y d : efforts (without_local effort Y d) = efforts d.
Proof. unfold without_local. by destruct (Model.local_id effort Y). Qed.

Lemma without_local_frame effort Y d :
  program_infos (without_local effort Y d) = program_infos d
  ∧ link_field_is_m2m (without_local effort Y d) = link_field_is_m2m d.
Proof. unfold without_local. by destruct (Model.local_id effort Y). Qed.

(** The profiles of the other aspects stay where they are. *)
Lemma stored_without_local effort Y d X k :
  X ≠ Y →
  is_Some (profiles d X !! k) → is_Some (profiles (without_local effort Y d) X !! k).
Proof.
  intros HXY. rewrite profiles_without_local.
  destruct (Model.local_id effort Y); [|done]. by rewrite decide_False by done.
Qed.

(** Rows told apart by a column without duplicates. *)
Lemma NoDup_fmap_eq {A B} (f : A → B) (l : list A) x y :
  NoDup (f <$> l) → x ∈ l → y ∈ l → f x = f y → x = y.
Proof.
  intros Hnd [i Hi]%list_elem_of_lookup [j Hj]%list_elem_of_lookup Hxy.
  assert (i = j) as ->; [|congruence].
  apply (NoDup_lookup _ _ _ (f x) Hnd); rewrite list_lookup_fmap.
  - by rewrite Hi.
  - rewrite Hj. simpl. by rewrite Hxy.
Qed.

(** Under a column without duplicates [get] finds what [first] finds. *)
Lemma filter_unique {A B} `{EqDecision B} (f : A → B) (l : list A) v i x :
  NoDup (f <$> l) →
  list_find (λ e, f e = v) l = Some (i, x) → filter (λ e, f e = v) l = [x].
Proof.
  intros Hnd Hfind.
  apply list_find_Some in Hfind as (Hi & Hx & Hbefore).
  revert i Hi Hbefore. induction l as [|a l IH]; intros i Hi Hbefore; [done|].
  rewrite fmap_cons in Hnd. apply NoDup_cons in Hnd as [Ha Hnd].
  rewrite filter_cons. destruct i as [|i]; simpl in Hi.
  - injection Hi as ->. rewrite decide_True by done. f_equal.
    apply list_filter_empty_lemma. intros y Hy Hyv. apply Ha.
    apply list_elem_of_fmap. exists y. split; [congruence|done].
  - rewrite decide_False by (apply (Hbefore 0 a); [done|lia]).
    apply (IH Hnd i Hi). intros j y Hj Hlt. apply (Hbefore (S j) y); [done|lia].
Qed.

Lemma filter_none {A} (P : A → Prop) `{!∀ x, Decision (P x)} (l : list A) :
  list_find P l = None → filter P l = [].
Proof.
  intros Hnone%list_find_None. apply list_filter_empty_lemma.
  by apply Forall_forall.
Qed.

(** The deletion of the one effort of a UUID whose keys refer to stored
    rows. *)
Lemma delete_found_run effort_uuid valid_uuid effort w :
  uuid_ctor effort_uuid = Some valid_uuid →
  filter (λ e, Model.uuid e = valid_uuid) (efforts (db w)) = [effort] →
  locals_stored effort (db w) →
  ∃ w',
    Service.delete_effort_by_uuid uuid_ctor effort_uuid w = (Ok true, w')
    ∧ trace w' = trace w ++ [Select Efforts; Begin] ++ local_deletes effort
                         ++ [Delete Efforts; Commit]
    ∧ efforts (db w') = filter (λ e, Model.pk e ≠ Model.pk effort) (efforts (db w))
    ∧ (∀ X, profiles (db w') X
            = match Model.local_id effort X with
              | Some k => delete k (profiles (db w) X)
              | None => profiles (db w) X
              end)
    ∧ program_infos (db w') = program_infos (db w)
    ∧ link_field_is_m2m (db w') = link_field_is_m2m (db w)
    ∧ uuid4_calls w' = uuid4_calls w.
Proof.
  intros Hctor Hget Hstored. unfold Service.delete_effort_by_uuid. rewrite Hctor.
  rewrite bind_run. unfold try_except.
  rewrite bind_run, get_effort_by_uuid_run, Hget, ret_run.
  rewrite bind_run.
  erewrite atomic_run_ok; cycle 1.
  { rewrite !bind_run, delete_local_run by (intros k Hk; by apply (Hstored _ k)).
    rewrite !bind_run, delete_local_run
      by (intros k Hk; cbn [db traced stored];
          by apply stored_without_local, (Hstored _ k)).
    rewrite !bind_run, delete_local_run
      by (intros k Hk; cbn [db traced stored];
          by do 2 (apply stored_without_local; [done|]); apply (Hstored _ k)).
    rewrite !bind_run, delete_local_run
      by (intros k Hk; cbn [db traced stored];
          by do 3 (apply stored_without_local; [done|]); apply (Hstored _ k)).
    rewrite hard_delete_effort_run. reflexivity. }
  rewrite ret_run. eexists. split; [reflexivity|].
  cbn [db trace traced stored uuid4_calls].
  split.
  { unfold local_deletes. simpl. rewrite <- !(assoc_L (++)). simpl.
    rewrite ?(right_id_L [] (++)).
    destruct (Model.local_id effort statement_of_work_profile),
             (Model.local_id effort developer_setup),
             (Model.local_id effort technical_points_of_contact),
             (Model.local_id effort work_location); done. }
  split; [cbn [efforts set_efforts]; by rewrite !efforts_without_local|].
  split.
  - intros X. change (profiles (set_efforts ?es ?d) X) with (profiles d X).
    rewrite !profiles_without_local.
    destruct X;
      destruct (Model.local_id effort statement_of_work_profile),
               (Model.local_id effort developer_setup),
               (Model.local_id effort technical_points_of_contact),
               (Model.local_id effort work_location); done.
  - cbn [program_infos link_field_is_m2m set_efforts].
    split; [|split; [|done]].
    + by rewrite !(proj1 (without_local_frame _ _ _)).
    + by rewrite !(proj2 (without_local_frame _ _ _)).
Qed.


End delete_effort.



(** ** Saving an effort: the profiles *)

Section save_profiles.
Variable uuid4 : nat → string.

Lemma related_run e X w :
  ∃ ops, related e X w = (Ok (linked_profile X e (db w)), traced ops w).
Proof.
  unfold related, linked_profile. destruct (Model.local_id e X) as [k|]; simpl.
  - exists [Select (Profiles X)].
    unfold mbind, M_bind, record_op, get_db, mret, M_ret. simpl.
    by destruct (profiles (db w) X !! k).
  - exists []. by rewrite ret_run, traced_nil.
Qed.

Lemma create_effort_relation_run d X w :
  d ≠ ∅ →
  Service._create_effort_relation (Some d) X w
  = (Ok (Some (fresh (dom (profiles (db w) X)))),
     traced [Insert_ (Profiles X)]
       (stored (set_profiles X (<[fresh (dom (profiles (db w) X)) := d]>
                                  (profiles (db w) X)) (db w)) w)).
Proof. intros Hd. unfold Service._create_effort_relation. by rewrite bool_decide_true. Qed.

Lemma unchanged_world X w ops :
  traced ops w = traced ops (stored (set_profiles X (profiles (db w) X) (db w)) w).
Proof. by rewrite set_profiles_id, stored_id. Qed.

(** [manage_local_profile] computes [reconcile] on the linked profile. *)
Lemma manage_local_profile_run e flag input X w :
  ∃ ops,
    Service.manage_local_profile e flag input X X w
    = (Ok (reconcile flag input (linked_profile X e (db w)) (profiles (db w) X)).1,
       traced ops
         (stored (set_profiles X
                    (reconcile flag input (linked_profile X e (db w)) (profiles (db w) X)).2
                    (db w)) w)).
Proof.
  unfold Service.manage_local_profile. destruct (related_run e X w) as [ops Hrel].
  rewrite bind_run, Hrel. unfold reconcile.
  destruct flag.
  - destruct (linked_profile X e (db w)) as [[k row]|].
    + exists (ops ++ [Delete (Profiles X)]).
      rewrite bind_run, hard_delete_profile_run, ret_run.
      by rewrite stored_traced, traced_traced.
    + exists ops. rewrite bind_run, !ret_run. simpl. by rewrite <- unchanged_world.
  - destruct input as [d|].
    + destruct (linked_profile X e (db w)) as [[k row]|].
      * exists (ops ++ [Update (Profiles X)]).
        rewrite bind_run, save_profile_run, ret_run.
        by rewrite stored_traced, traced_traced.
      * case_bool_decide as Hd.
        -- exists (ops ++ [Insert_ (Profiles X)]).
           rewrite create_effort_relation_run by done.
           by rewrite stored_traced, traced_traced.
        -- exists ops. unfold Service._create_effort_relation.
           rewrite bool_decide_false by (intros Hne; by apply Hne).
           rewrite ret_run. simpl.
           by rewrite <- unchanged_world.
    + exists ops. rewrite ret_run. simpl. by rewrite <- unchanged_world.
Qed.

(** Nothing that the other aspects do reaches the table or the key of
    [X]. *)
Lemma linked_profile_frame X Y k t e d :
  X ≠ Y →
  linked_profile Y (Service.set_local X k e) (set_profiles X t d) = linked_profile Y e d.
Proof.
  intros HXY. unfold linked_profile. simpl.
  by rewrite fn_lookup_insert_ne, profiles_set_ne.
Qed.

Lemma linked_profile_scalars X data program parent e d :
  linked_profile X (Service.update_scalars data program parent e) d = linked_profile X e d.
Proof. done. Qed.

(** The state after the [if instance:] branch. *)
Lemma update_effort_run data program parent e w :
  ∃ ops e' d',
    Service.update_effort data program parent e w = (Ok e', traced ops (stored d' w))
    ∧ Model.pk e' = Model.pk e
    ∧ Model.uuid e' = Model.uuid e
    ∧ (∀ X, Model.local_id e' X
            = (reconcile (Payload.inherit data X) (Payload.profile data X)
                 (linked_profile X e (db w)) (profiles (db w) X)).1
          ∧ profiles d' X
            = (reconcile (Payload.inherit data X) (Payload.profile data X)
                 (linked_profile X e (db w)) (profiles (db w) X)).2)
    ∧ efforts d' = write_row e' (efforts (db w))
    ∧ program_infos d' = program_infos (db w)
    ∧ link_field_is_m2m d' = link_field_is_m2m (db w).
Proof.
  unfold Service.update_effort.
  set (e0 := Service.update_scalars data program parent e).
  rewrite bind_run.
  destruct (manage_local_profile_run e0 (Payload.inherit data statement_of_work_profile)
    (Payload.profile data statement_of_work_profile) statement_of_work_profile w)
    as [ops1 ->].
  set (r1 := reconcile _ _ (linked_profile statement_of_work_profile e0 (db w)) _).
  rewrite bind_run.
  match goal with |- context [Service.manage_local_profile ?i ?f ?p ?X ?X ?w'] =>
    destruct (manage_local_profile_run i f p X w') as [ops2 ->] end.
  cbn [db traced stored].
  rewrite linked_profile_frame by done. rewrite profiles_set_ne by done.
  set (r2 := reconcile _ _ (linked_profile technical_points_of_contact e0 (db w)) _).
  rewrite bind_run.
  match goal with |- context [Service.manage_local_profile ?i ?f ?p ?X ?X ?w'] =>
    destruct (manage_local_profile_run i f p X w') as [ops3 ->] end.
  cbn [db traced stored].
  rewrite !linked_profile_frame by done. rewrite !profiles_set_ne by done.
  set (r3 := reconcile _ _ (linked_profile developer_setup e0 (db w)) _).
  rewrite bind_run.
  match goal with |- context [Service.manage_local_profile ?i ?f ?p ?X ?X ?w'] =>
    destruct (manage_local_profile_run i f p X w') as [ops4 ->] end.
  cbn [db traced stored].
  rewrite !linked_profile_frame by done. rewrite !profiles_set_ne by done.
  set (r4 := reconcile _ _ (linked_profile work_location e0 (db w)) _).
  rewrite bind_run, save_effort_run, ret_run.
  rewrite !stored_traced, !traced_traced, !stored_stored.
  eexists _, _, _. split; [reflexivity|].
  split; [done|]. split; [done|]. split; [|done].
  intros X. destruct X; done.
Qed.
End save_profiles.

(** ** Saving an effort: the linked efforts *)

Section save_links.
Context {builtins : Py.Builtins}.
Variable uuid4 : nat → string.

Lemma resolve_identifier_run identifier w :
  int_accepts identifier = true →
  ∃ ops, Service.resolve_identifier_to_instance identifier w
         = (Ok (resolve_in (efforts (db w)) identifier), traced ops w).
Proof.
  unfold Service.resolve_identifier_to_instance, resolve_in, int_accepts.
  destruct identifier as [s|]; simpl; [|exists []; by rewrite ret_run, traced_nil].
  intros Hint.
  destruct (String.eqb s "") eqn:Hs; simpl;
    [exists []; by rewrite ret_run, traced_nil|].
  rewrite bind_run, select_effort_by_uuid_run.
  destruct (list_find (λ e, Model.uuid e = s) (efforts (db w))) as [[i e]|]; simpl.
  - exists [Select Efforts]. by rewrite ret_run.
  - destruct (Py.isdigit s).
    + destruct (Py.int s) as [pk|]; [|done].
      exists ([Select Efforts] ++ [Select Efforts]).
      rewrite bind_run. unfold Service.lift_result.
      by rewrite select_effort_by_pk_run, traced_traced.
    + exists [Select Efforts]. by rewrite ret_run.
Qed.


Lemma link_step_run acc raw_item w :
  int_accepts (Service.extract_identifier raw_item) = true →
  ∃ ops, Service.link_step acc raw_item w
         = (Ok (acc.1 ++ resolved_targets (efforts (db w)) [raw_item],
                acc.2 ++ [stored_identifier (efforts (db w)) raw_item]),
            traced ops w).
Proof.
  intros Hint. unfold Service.link_step, resolved_targets, stored_identifier.
  destruct (resolve_identifier_run (Service.extract_identifier raw_item) w Hint)
    as [ops Hres].
  exists ops. rewrite bind_run, Hres. simpl.
  destruct (resolve_in _ _); rewrite ret_run; simpl; [done|].
  by rewrite (right_id_L [] (++)).
Qed.

Lemma for_each_link_run raw_links acc w :
  forallb (λ raw_item, int_accepts (Service.extract_identifier raw_item)) raw_links
    = true →
  ∃ ops, Service.for_each Service.link_step acc raw_links w
         = (Ok (acc.1 ++ resolved_targets (efforts (db w)) raw_links,
                acc.2 ++ (stored_identifier (efforts (db w)) <$> raw_links)),
            traced ops w).
Proof.
  revert acc w. induction raw_links as [|raw_item raw_links IH]; intros acc w Hint.
  - exists []. simpl. by rewrite ret_run, traced_nil, !(right_id_L [] (++)), <- surjective_pairing.
  - cbn [forallb] in Hint. apply andb_prop in Hint as [Hint1 Hint].
    destruct (link_step_run acc raw_item w Hint1) as [ops1 H1].
    cbn [Service.for_each]. rewrite bind_run, H1.
    match goal with |- context [Service.for_each _ ?a _ ?w'] =>
      destruct (IH a w' Hint) as [ops2 ->] end.
    exists (ops1 ++ ops2). rewrite traced_traced. cbn [db traced fst snd].
    unfold resolved_targets. simpl.
    destruct (resolve_in _ _); simpl; by rewrite <- !(assoc_L (++)).
Qed.

Lemma link_efforts_run instance raw_links w :
  forallb (λ raw_item, int_accepts (Service.extract_identifier raw_item)) raw_links
    = true →
  ∃ ops,
    Service.link_efforts instance raw_links w
    = (Ok tt,
       traced ops
         (stored (set_efforts
                    (write_row
                       (Service.set_linked
                          (linked_value (link_field_is_m2m (db w)) (efforts (db w)) raw_links)
                          instance)
                       (efforts (db w)))
                    (db w)) w)).
Proof.
  intros Hint. unfold Service.link_efforts. rewrite bind_run. cbn [get_db].
  destruct (for_each_link_run raw_links ([], []) w Hint) as [ops Hloop].
  rewrite bind_run, Hloop. cbn [fst snd app]. unfold linked_value.
  destruct (link_field_is_m2m (db w)).
  - exists (ops ++ [Update EffortLinks]). unfold Service.set_links.
    unfold mbind, M_bind, record_op, get_db, put_db. simpl.
    unfold traced, stored. simpl. by rewrite (assoc_L (++)).
  - exists (ops ++ [Update Efforts]). rewrite save_effort_run.
    by rewrite stored_traced, traced_traced.
Qed.
End save_links.

(** ** Saving an effort: the call as a whole *)

Section write_row_facts.
Implicit Types (rows : list Model.SoftwareEffortModel) (e : Model.SoftwareEffortModel).

Lemma elem_of_write_row e' rows x :
  x ∈ write_row e' rows ↔
  ∃ y, y ∈ rows ∧ x = if decide (Model.pk y = Model.pk e') then e' else y.
Proof.
  unfold write_row. rewrite list_elem_of_fmap. split; intros (y & ? & ?); eauto.
Qed.

Lemma write_row_member e e' rows :
  e ∈ rows → Model.pk e' = Model.pk e → e' ∈ write_row e' rows.
Proof.
  intros He Hpk. apply elem_of_write_row. exists e. split; [done|].
  by rewrite decide_True.
Qed.

Lemma write_row_unique e' rows x :
  x ∈ write_row e' rows → Model.pk x = Model.pk e' → x = e'.
Proof.
  intros (y & Hy & ->)%elem_of_write_row. by case_decide.
Qed.

End write_row_facts.

Section save_update.
Context {builtins : Py.Builtins}.
Variable uuid4 : nat → string.
Context (id : Z) (data : Payload.SoftwareEffort) (w : World)
  (j : nat) (program : Model.ProgramCatalogInfoModel)
  (u : string) (i : nat) (e : Model.SoftwareEffortModel).
Hypothesis Hprogram :
  list_find (λ r, Model.program_id r = id) (program_infos (db w)) = Some (j, program).
Hypothesis Huuid : Payload.uuid data = Some u.
Hypothesis Hu : u ≠ "".
Hypothesis Heffort : list_find (λ x, Model.uuid x = u) (efforts (db w)) = Some (i, e).
Hypothesis Haccepted : links_accepted data = true.

Lemma parent_lookup_run w0 :
  ∃ ops parent,
    (if Py.truthy_str (Payload.parent_uuid data)
     then select_effort_by_uuid (default "" (Payload.parent_uuid data))
     else mret None) w0 = (Ok parent, traced ops w0).
Proof.
  destruct (Py.truthy_str (Payload.parent_uuid data)).
  - eexists [_], _. by rewrite select_effort_by_uuid_run.
  - exists [], None. by rewrite ret_run, traced_nil.
Qed.



End save_update.

(** ** The profile reconciliation rule *)









(** ** Saving the same payload twice *)




(** ** Creating an effort *)

Section save_create.
Variable uuid4 : nat → string.

(** A profile of the creation branch touches neither the efforts nor the
    programs. *)
Lemma create_local_run data X w :
  ∃ k ops d1,
    Service.create_local data X w = (Ok k, traced ops (stored d1 w))
    ∧ efforts d1 = efforts (db w)
    ∧ program_infos d1 = program_infos (db w)
    ∧ link_field_is_m2m d1 = link_field_is_m2m (db w).
Proof.
  unfold Service.create_local.
  destruct (negb (Payload.inherit data X)
            && bool_decide (is_Some (Payload.profile data X))).
  - unfold Service._create_effort_relation.
    destruct (Payload.profile data X) as [d|].
    + case_bool_decide.
      * rewrite bind_run, create_profile_run, ret_run.
        eexists _, _, _. split; [reflexivity|]. by destruct X.
      * exists None, [], (db w). by rewrite ret_run, stored_id, traced_nil.
    + exists None, [], (db w). by rewrite ret_run, stored_id, traced_nil.
  - exists None, [], (db w). by rewrite ret_run, stored_id, traced_nil.
Qed.

Lemma pk_le_max (rows : list Model.SoftwareEffortModel) y :
  y ∈ rows → (Model.pk y ≤ foldr Pos.max 1 (Model.pk <$> rows))%positive.
Proof.
  induction 1 as [y rows|y x rows _ IH]; simpl; [apply Pos.le_max_l|].
  etrans; [apply IH|]. apply Pos.le_max_r.
Qed.

(** The key of a created row is not in the table. *)
Lemma next_pk_fresh (rows : list Model.SoftwareEffortModel) y :
  y ∈ rows → Model.pk y ≠ Pos.succ (foldr Pos.max 1%positive (Model.pk <$> rows)).
Proof. intros Hy%pk_le_max. lia. Qed.

(** The state after the [else] branch. *)
Lemma create_effort_run data program parent w :
  ∃ instance w',
    Service.create_effort uuid4 data program parent w = (Ok instance, w')
    ∧ efforts (db w') = efforts (db w) ++ [instance]
    ∧ Model.pk instance
      = Pos.succ (foldr Pos.max 1%positive (Model.pk <$> efforts (db w)))
    ∧ Model.uuid instance = uuid4 (uuid4_calls w)
    ∧ program_infos (db w') = program_infos (db w)
    ∧ link_field_is_m2m (db w') = link_field_is_m2m (db w).
Proof.
  unfold Service.create_effort.
  destruct (create_local_run data statement_of_work_profile w)
    as (k1 & ops1 & d1 & H1 & He1 & Hp1 & Hm1).
  rewrite bind_run, H1. clear H1. set (w1 := traced ops1 (stored d1 w)).
  destruct (create_local_run data technical_points_of_contact w1)
    as (k2 & ops2 & d2 & H2 & He2 & Hp2 & Hm2).
  rewrite bind_run, H2. clear H2. set (w2 := traced ops2 (stored d2 w1)).
  destruct (create_local_run data developer_setup w2)
    as (k3 & ops3 & d3 & H3 & He3 & Hp3 & Hm3).
  rewrite bind_run, H3. clear H3. set (w3 := traced ops3 (stored d3 w2)).
  destruct (create_local_run data work_location w3)
    as (k4 & ops4 & d4 & H4 & He4 & Hp4 & Hm4).
  rewrite bind_run, H4. clear H4.
  subst w1 w2 w3. cbn [db traced stored] in *.
  unfold Service.create_effort_row. eexists _, _. split; [reflexivity|].
  cbn [db traced stored uuid4_calls efforts set_efforts program_infos link_field_is_m2m
       Model.pk Model.uuid].
  rewrite He4, He3, He2, He1. split; [done|]. split; [done|]. split; [done|].
  split; congruence.
Qed.
End save_create.

(** ** Resolving linked efforts *)

Section same_keys.
Context {builtins : Py.Builtins}.
Implicit Types (rows : list Model.SoftwareEffortModel).






End same_keys.

(** ** Saving the links: either branch *)

Section save_any.
Context {builtins : Py.Builtins}.
Variable uuid4 : nat → string.

(** Step 2 leaves the effort as the one row of its key. *)
Lemma upsert_run data program w :
  ∃ instance w1,
    Service.upsert_effort uuid4 data program w = (Ok instance, w1)
    ∧ instance ∈ efforts (db w1)
    ∧ (∀ y, y ∈ efforts (db w1) → Model.pk y = Model.pk instance → y = instance)
    ∧ link_field_is_m2m (db w1) = link_field_is_m2m (db w)
    ∧ match upsert_target data w with
      | Some e => Model.pk instance = Model.pk e
      | None => Model.pk instance ∉ Model.pk <$> efforts (db w)
      end.
Proof.
  unfold Service.upsert_effort. rewrite bind_run.
  destruct (parent_lookup_run data w) as (ops0 & parent & ->).
  rewrite bind_run.
  assert (∃ ops1,
    (if Py.truthy_str (Payload.uuid data)
     then select_effort_by_uuid (default "" (Payload.uuid data))
     else mret None) (traced ops0 w)
    = (Ok (upsert_target data w), traced ops1 w)) as (ops1 & ->).
  { unfold upsert_target, effort_of. destruct (Py.truthy_str (Payload.uuid data)).
    - eexists. by rewrite select_effort_by_uuid_run, traced_traced.
    - exists ops0. by rewrite ret_run. }
  destruct (upsert_target data w) as [e|] eqn:Htarget.
  - destruct (update_effort_run data program parent e (traced ops1 w))
      as (ops2 & e' & d' & -> & Hpk & _ & _ & Heff & _ & Hm2m).
    cbn [db traced] in Heff, Hm2m.
    assert (e ∈ efforts (db w)) as He.
    { unfold upsert_target, effort_of in Htarget.
      destruct (Py.truthy_str (Payload.uuid data)); [|done].
      destruct (list_find _ (efforts (db w))) as [[i e0]|] eqn:Hfind; [|done].
      injection Htarget as ->.
      apply list_find_Some in Hfind as (Hi & _). by eapply list_elem_of_lookup_2. }
    eexists _, _. split; [reflexivity|]. cbn [db traced stored]. rewrite Heff.
    split; [by apply (write_row_member e)|].
    split; [intros y Hy Hpky; by apply (write_row_unique e' (efforts (db w)))|].
    done.
  - destruct (create_effort_run uuid4 data program parent (traced ops1 w))
      as (instance & w1 & -> & Heff & Hpk & _ & _ & Hm2m).
    cbn [db traced] in Heff, Hpk, Hm2m.
    eexists _, _. split; [reflexivity|]. rewrite Heff.
    split; [apply elem_of_app; right; apply list_elem_of_singleton; done|].
    split.
    + intros y [Hy|Hy%list_elem_of_singleton]%elem_of_app Hpky; [|done].
      rewrite Hpk in Hpky. by destruct (next_pk_fresh _ _ Hy).
    + split; [done|]. rewrite Hpk.
      intros (y & Hpky & Hy)%list_elem_of_fmap.
      by destruct (next_pk_fresh _ _ Hy).
Qed.

End save_any.








(** ** The hierarchy: outcomes, shape, and the older copy *)

(** X1. When two or more records are at the smallest depth, the backend
    copy of [get_all_programs_as_tree] builds no tree: it logs the integrity
    error with their number, then each of them by name and path in the order
    of the records, and raises the [ValueError] with that number. *)
Theorem multiple_roots_logged_and_raised (data : list ProgramDict) :
  2 ≤ length (root_candidates data) →
  Backend.get_all_programs_as_tree data =
    (Raise (ValueError (length (root_candidates data))),
     LogIntegrityError (length (root_candidates data)) ::
       ((λ p, LogCandidateRoot (name p) (program_path p)) <$> root_candidates data)).
Proof. exact (backend_multiple_roots_raise data). Qed.

(** The theorem above on [two_roots]. *)
Lemma multiple_roots_logged_and_raised_witness :
  2 ≤ length (root_candidates two_roots)
  ∧ Backend.get_all_programs_as_tree two_roots =
      (Raise (ValueError (length (root_candidates two_roots))),
       LogIntegrityError (length (root_candidates two_roots)) ::
         ((λ p, LogCandidateRoot (name p) (program_path p)) <$> root_candidates two_roots)).
Proof.
  split; [vm_compute; lia|].
  apply (multiple_roots_logged_and_raised two_roots). vm_compute. lia.
Defined.

Section tree_outcomes.
Import Backend.

Lemma sort_by_cons (data : list ProgramDict) :
  data ≠ [] → ∃ first rest, sort_by depth_key data = first :: rest.
Proof.
  intros Hdata. destruct (sort_by depth_key data) as [|first rest] eqn:Hsort; [|eauto].
  pose proof (sort_by_perm depth_key data) as Hp. rewrite Hsort in Hp.
  apply Permutation_nil_l in Hp. by subst data.
Qed.

(** With one record at the top the tree is returned. *)
Lemma single_root_returned data first rest :
  sort_by depth_key data = first :: rest →
  ¬ 1 < count_root_candidates (depth_key first) (first :: rest) →
  ∃ t, get_all_programs_as_tree data = (Ok (Some t), log (populate_tree first rest)).
Proof.
  intros Hsort Hsingle.
  pose proof (sort_by_sorted depth_key data) as Hs. rewrite Hsort in Hs.
  destruct (bubble_up_walk first rest Hs Hsingle) as (l & Hwalk & _ & _).
  destruct (walk_reify _ _ _ _ Hwalk) as (t & Hreify & _ & _).
  exists t. unfold get_all_programs_as_tree.
  destruct data as [|p0 data0]; [done|]. cbv zeta. rewrite Hsort.
  rewrite bool_decide_false by done. by rewrite Hreify.
Qed.
End tree_outcomes.

(** X2. [get_all_programs_as_tree] returns [None] exactly for no records;
    it raises exactly when two or more records are at the smallest depth,
    and then the [ValueError] with their number, never another exception;
    in every other case it returns a tree. *)
Theorem get_all_programs_as_tree_outcomes (data : list ProgramDict) :
  ((Backend.get_all_programs_as_tree data).1 = Ok None ↔ data = [])
  ∧ (∀ e, (Backend.get_all_programs_as_tree data).1 = Raise e ↔
       2 ≤ length (root_candidates data)
       ∧ e = ValueError (length (root_candidates data)))
  ∧ (data ≠ [] → length (root_candidates data) < 2 →
       ∃ t, (Backend.get_all_programs_as_tree data).1 = Ok (Some t)).
Proof.
  destruct (decide (data = [])) as [->|Hdata].
  { split; [done|]. split; [|done]. intros e. simpl. split; [done|]. intros [? _]. lia. }
  destruct (sort_by_cons data Hdata) as (first & rest & Hsort).
  destruct (root_analysis data first rest Hsort) as (_ & Hcount & _).
  destruct (decide (2 ≤ length (root_candidates data))) as [Hmany|Hone].
  - assert ((Backend.get_all_programs_as_tree data).1
            = Raise (ValueError (length (root_candidates data)))) as ->.
    { unfold Backend.get_all_programs_as_tree.
      destruct data as [|p0 data0]; [done|]. cbv zeta. rewrite Hsort, Hcount.
      by rewrite bool_decide_true by lia. }
    split; [done|]. split; [|lia].
    intros e. split; [intros [= <-]; done|intros [_ ->]; done].
  - destruct (single_root_returned data first rest Hsort) as [t Ht]; [lia|].
    rewrite Ht. simpl. split; [done|]. split; [|eauto].
    intros e. split; [done|]. intros [? _]. lia.
Qed.

Section tree_structure.
Import Backend.

(** What holds of every cell with its reified children holds of every
    subtree read back. *)
Lemma reify_subtrees (Q : ProgramTreeNode → Prop) h :
  (∀ i c cs, h !! i = Some c →
     Forall2 (λ j tj, ∃ cj, h !! j = Some cj ∧ tree_data tj = cell_data cj)
             (cell_children c) cs →
     Q (TreeNode (cell_data c) cs)) →
  ∀ fuel i t, reify fuel h i = Some t → ∀ s, s ∈ subtrees t → Q s.
Proof.
  intros HQ. induction fuel as [|fuel IH]; intros i t; simpl; [done|].
  destruct (h !! i) as [c|] eqn:Hi; simpl; [|done].
  destruct (mapM (reify fuel h) (cell_children c)) as [ts|] eqn:Hm; simpl; [|done].
  intros [= <-] s. apply mapM_Some_1 in Hm.
  simpl. intros [->|(tj & Hs & Htj)%list_elem_of_bind]%elem_of_cons.
  - apply (HQ i c ts Hi). eapply Forall2_impl; [exact Hm|].
    intros j tj Hr. simpl in Hr. by apply reify_data in Hr as (cj & ? & ?); eauto.
  - apply list_elem_of_lookup in Htj as [n Hn].
    destruct (Forall2_lookup_r _ _ _ _ _ Hm Hn) as (j & Hj & Hr).
    by eapply IH.
Qed.
End tree_structure.

(** The children of a returned tree continue the path of their parent. *)
Lemma returned_children_paths (data : list ProgramDict)
    (t : ProgramTreeNode) (lg : list log_entry) :
  Backend.get_all_programs_as_tree data = (Ok (Some t), lg) →
  ∀ s c, s ∈ subtrees t → c ∈ tree_children s →
    Backend.get_parent_id_path (node_program_path (tree_data c))
      = node_program_path (tree_data s)
    ∧ Path.depth (node_program_path (tree_data c))
      = S (Path.depth (node_program_path (tree_data s))).
Proof.
  intros Hrun.
  apply get_all_programs_as_tree_ok in Hrun as (r & rest & Hsort & Hsingle & Hreify & _).
  pose proof (sort_by_sorted Backend.depth_key data) as Hs. rewrite Hsort in Hs.
  destruct (populate_tree_populated r rest Hs Hsingle) as [D Hpop].
  intros s c Hsub. revert c.
  refine (reify_subtrees
            (λ s, ∀ c, c ∈ tree_children s →
               Backend.get_parent_id_path (node_program_path (tree_data c))
                 = node_program_path (tree_data s)
               ∧ Path.depth (node_program_path (tree_data c))
                 = S (Path.depth (node_program_path (tree_data s))))
            (Backend.bubble_up (Backend.populate_tree r rest)) _ _ _ _ Hreify s Hsub).
  clear s Hsub. intros i c2 cs Hi Hcs tc Htc. simpl in Htc |- *.
  apply list_elem_of_lookup in Htc as [n Hn].
  destruct (Forall2_lookup_r _ _ _ _ _ Hcs Hn) as (j & Hj & cj2 & Hcj2 & Hdata).
  apply list_elem_of_lookup_2 in Hj.
  apply bubble_up_lookup in Hi as (c1 & Hc1 & Hshape1).
  apply bubble_up_lookup in Hcj2 as (cj1 & Hcj1 & Hshapej).
  pose proof (f_equal fst Hshape1) as Hchildren.
  pose proof (f_equal (node_program_path ∘ snd) Hshape1) as Hd1.
  pose proof (f_equal (node_program_path ∘ snd) Hshapej) as Hdj.
  simpl in Hchildren, Hd1, Hdj.
  rewrite Hdata, Hdj, Hd1. rewrite Hchildren in Hj.
  destruct (pop_child _ _ _ _ Hpop i c1 j Hc1 Hj) as (Hij & cj & Hcj & Hmap).
  assert (cj = cj1) as -> by congruence.
  destruct (pop_map_some _ _ _ _ Hpop _ _ Hmap) as (c' & Hc' & Hpath).
  assert (c' = c1) as -> by congruence.
  unfold path_of in Hpath.
  destruct (populated_parent_depth _ _ _ _ _ _ Hpop Hcj) as [Hdot _]; [lia|].
  unfold path_of in Hdot.
  rewrite get_parent_id_path_spec. split; [done|].
  rewrite Hpath. symmetry. by apply parent_path_depth.
Qed.

(** X3. In a tree returned by [get_all_programs_as_tree] every node hangs
    under the node of its parent path: the path of a child without its
    last segment is the path of the node it is a child of, one segment
    shorter. *)
Theorem tree_children_under_parent_path (data : list ProgramDict)
    (t : ProgramTreeNode) (lg : list log_entry) :
  Backend.get_all_programs_as_tree data = (Ok (Some t), lg) →
  ∀ s c, s ∈ subtrees t → c ∈ tree_children s →
    Backend.get_parent_id_path (node_program_path (tree_data c))
      = node_program_path (tree_data s)
    ∧ Path.depth (node_program_path (tree_data c))
      = S (Path.depth (node_program_path (tree_data s))).
Proof. apply returned_children_paths. Qed.

(** The theorem above on [example_programs]. *)
Lemma tree_children_under_parent_path_witness :
  ∃ t lg,
    Backend.get_all_programs_as_tree example_programs = (Ok (Some t), lg)
    ∧ ∀ s c, s ∈ subtrees t → c ∈ tree_children s →
        Backend.get_parent_id_path (node_program_path (tree_data c))
          = node_program_path (tree_data s)
        ∧ Path.depth (node_program_path (tree_data c))
          = S (Path.depth (node_program_path (tree_data s))).
Proof.
  eexists _, _. split; [vm_compute; reflexivity|].
  eapply (tree_children_under_parent_path example_programs).
  vm_compute. reflexivity.
Defined.

(** ** The older copy builds the same hierarchy *)

Section legacy_tree.
Import Backend.
Variable convert : ProgramDict → NodeData.

(** The two loops keep the same references, children and lookup table;
    [qs] are the records of the cells. *)
Definition mirrors (stL : Legacy.build_state) (stB : build_state)
    (qs : list ProgramDict) : Prop :=
  Legacy.id_path_to_node stL = id_path_to_node stB
  ∧ cell_children <$> Legacy.heap stL = cell_children <$> heap stB
  ∧ cell_data <$> Legacy.heap stL = convert <$> qs
  ∧ cell_data <$> heap stB = node_of <$> qs.

Lemma mirrors_step stL stB qs p :
  mirrors stL stB qs →
  ∃ qs', mirrors (Legacy.populate_step convert stL p) (populate_step stB p) qs'
         ∧ ∀ q, q ∈ qs' → q ∈ qs ∨ q = p.
Proof.
  intros (Hmap & Hchildren & HdataL & HdataB).
  unfold Legacy.populate_step, populate_step.
  change (Legacy.get_parent_id_path (program_path p)) with (parent_path (program_path p)).
  rewrite get_parent_id_path_spec, Hmap.
  destruct (id_path_to_node stB !! parent_path (program_path p)) as [parent|].
  - exists (qs ++ [p]). split; [|intros q [?|?%list_elem_of_singleton]%elem_of_app; auto].
    assert (length (Legacy.heap stL) = length (heap stB)) as Hlen.
    { apply (f_equal length) in Hchildren. by rewrite !length_fmap in Hchildren. }
    unfold mirrors. cbn [Legacy.id_path_to_node Legacy.heap id_path_to_node heap].
    rewrite Hlen. split; [done|]. rewrite !fmap_app. split; [|split].
    + rewrite !(list_fmap_alter cell_children _ (λ l, l ++ [length (heap stB)]))
        by (by apply Forall_true).
      by rewrite Hchildren.
    + rewrite (list_fmap_alter cell_data _ id) by (by apply Forall_true).
      rewrite list_alter_id by done. by rewrite HdataL.
    + rewrite (list_fmap_alter cell_data _ id) by (by apply Forall_true).
      rewrite list_alter_id by done. by rewrite HdataB.
  - exists qs. split; [done|auto].
Qed.

Lemma mirrors_foldl ps stL stB qs :
  mirrors stL stB qs →
  ∃ qs', mirrors (foldl (Legacy.populate_step convert) stL ps) (foldl populate_step stB ps) qs'
         ∧ ∀ q, q ∈ qs' → q ∈ qs ∨ q ∈ ps.
Proof.
  revert stL stB qs. induction ps as [|p ps IH]; intros stL stB qs Hm; simpl.
  - exists qs. split; [done|auto].
  - destruct (mirrors_step stL stB qs p Hm) as (qs1 & Hm1 & Hqs1).
    destruct (IH _ _ _ Hm1) as (qs' & Hm' & Hqs'). exists qs'. split; [done|].
    intros q Hq. destruct (Hqs' q Hq) as [Hq1|?]; [|right; by right].
    destruct (Hqs1 q Hq1) as [?| ->]; [by left|right; by left].
Qed.

(** Heaps with the same children read back as trees of the same shape. *)
Lemma reify_rel (R : NodeData → NodeData → Prop) h h' :
  cell_children <$> h = cell_children <$> h' →
  (∀ i c c', h !! i = Some c → h' !! i = Some c' → R (cell_data c) (cell_data c')) →
  ∀ fuel i t, reify fuel h i = Some t →
    ∃ t', reify fuel h' i = Some t' ∧ tree_rel R t t'.
Proof.
  intros Hchildren HR. induction fuel as [|fuel IH]; intros i t; simpl; [done|].
  destruct (h !! i) as [c|] eqn:Hi; simpl; [|done].
  destruct (mapM (reify fuel h) (cell_children c)) as [ts|] eqn:Hm; simpl; [|done].
  intros [= <-].
  pose proof (f_equal (λ l, l !! i) Hchildren) as Hci.
  simpl in Hci. rewrite !list_lookup_fmap, Hi in Hci.
  destruct (h' !! i) as [c'|] eqn:Hi'; [|done]. injection Hci as Hci. simpl.
  rewrite <- Hci.
  assert (∃ ts', mapM (reify fuel h') (cell_children c) = Some ts'
                 ∧ Forall2 (tree_rel R) ts ts') as (ts' & -> & Hts).
  { apply mapM_Some_1 in Hm. clear Hi Hci.
    induction Hm as [|j tj js tjs Hj _ IHm].
    - exists []. by split.
    - destruct (IH j tj Hj) as (tj' & Hj' & Hrel).
      destruct IHm as (ts' & Hts' & Hrels).
      exists (tj' :: ts'). split; [|by constructor].
      apply mapM_Some_2. constructor; [done|]. by apply mapM_Some_1. }
  simpl. eexists. split; [reflexivity|]. constructor; [|done]. by eapply HR.
Qed.
End legacy_tree.

(** X4. Whenever [get_all_programs_as_tree] of the backend copy returns a
    tree, the older copy returns, for any conversion of a record to a node,
    a tree of the same shape, and the nodes at the same position are made
    from the same record (the backend's node is that record's node up to
    its [has_descendant] flag, the older copy's is its conversion). *)
Theorem legacy_tree_same_shape (convert : ProgramDict → NodeData)
    (data : list ProgramDict) (t : ProgramTreeNode) (lg : list log_entry) :
  Backend.get_all_programs_as_tree data = (Ok (Some t), lg) →
  ∃ t',
    Legacy.get_all_programs_as_tree convert data = Some t'
    ∧ tree_rel (λ d d', ∃ q, q ∈ data
                             ∧ Backend.set_has_descendant false d = node_of q
                             ∧ d' = convert q) t t'.
Proof.
  intros Hrun.
  apply get_all_programs_as_tree_ok in Hrun as (r & rest & Hsort & _ & Hreify & _).
  unfold Legacy.get_all_programs_as_tree.
  destruct data as [|p0 data0]; [discriminate Hsort|].
  rewrite Hsort.
  set (stL0 := {| Legacy.heap := [ {| Backend.cell_data := convert r;
                                      Backend.cell_children := [] |} ];
                  Legacy.id_path_to_node := {[ program_path r := 0 ]} |}).
  destruct (mirrors_foldl convert rest stL0
              {| Backend.heap := [Backend.new_node r];
                 Backend.id_path_to_node := {[ program_path r := 0 ]};
                 Backend.nodes_by_path := [0];
                 Backend.log := [] |} [r])
    as (qs & (Hmap & Hchildren & HdataL & HdataB) & Hqs); [done|].
  fold (Backend.populate_tree r rest) in Hchildren, HdataB, Hmap.
  set (stL := foldl (Legacy.populate_step convert) stL0 rest) in *.
  set (stB := Backend.populate_tree r rest) in *.
  pose proof (bubble_loop_shape (Backend.id_path_to_node stB)
                (reverse (Backend.nodes_by_path stB)) (Backend.heap stB)) as Hshape.
  fold (Backend.bubble_up stB) in Hshape.
  assert (length (Legacy.heap stL) = length (Backend.bubble_up stB)) as ->.
  { pose proof (f_equal length Hchildren) as Hl1.
    pose proof (f_equal length Hshape) as Hl2.
    rewrite !length_fmap in Hl1. rewrite !length_fmap in Hl2. congruence. }
  eapply (reify_rel _ (Backend.bubble_up stB) (Legacy.heap stL)); [| |exact Hreify].
  - rewrite Hchildren. apply (f_equal (fmap fst)) in Hshape.
    by rewrite <- !list_fmap_compose in Hshape.
  - intros i c2 cL Hc2 HcL.
    apply bubble_up_lookup in Hc2 as (c1 & Hc1 & Hs).
    pose proof (f_equal (λ l, l !! i) HdataL) as HL.
    pose proof (f_equal (λ l, l !! i) HdataB) as HB.
    simpl in HL, HB. rewrite !list_lookup_fmap in HL, HB.
    rewrite HcL in HL. rewrite Hc1 in HB.
    destruct (qs !! i) as [q|] eqn:Hq; [|done].
    injection HL as HL. injection HB as HB.
    exists q. split.
    + apply list_elem_of_lookup_2 in Hq.
      rewrite <- (sort_by_perm Backend.depth_key (p0 :: data0)), Hsort.
      destruct (Hqs q Hq) as [->%list_elem_of_singleton|?]; [by left|by right].
    + split; [|done]. apply (f_equal snd) in Hs. simpl in Hs. by rewrite Hs, HB.
Qed.

(** The theorem above on [example_programs], the nodes of the older copy
    being made as in the backend copy. *)
Lemma legacy_tree_same_shape_witness :
  ∃ t lg,
    Backend.get_all_programs_as_tree example_programs = (Ok (Some t), lg)
    ∧ ∃ t',
        Legacy.get_all_programs_as_tree node_of example_programs = Some t'
        ∧ tree_rel (λ d d', ∃ q, q ∈ example_programs
                                 ∧ Backend.set_has_descendant false d = node_of q
                                 ∧ d' = node_of q) t t'.
Proof.
  eexists _, _. split; [vm_compute; reflexivity|].
  eapply (legacy_tree_same_shape node_of example_programs).
  vm_compute. reflexivity.
Defined.

(** ** Paths *)

(** X5. The two copies compute the parent path of every string alike:
    splitting at the dots, dropping the last segment and joining again
    (older copy) is taking what precedes the last dot, or the empty string
    when there is no dot (backend copy). *)
Theorem parent_path_copies_agree (path : string) :
  Legacy.get_parent_id_path path = Backend.get_parent_id_path path.
Proof.
  unfold Legacy.get_parent_id_path, Backend.get_parent_id_path.
  apply PathFacts.join_removelast_split.
Qed.

Lemma rsplit1_head_segment s :
  Path.has_dot s = true →
  ∃ seg, Path.has_dot seg = false ∧ s = Path.rsplit1_head s +:+ String "." seg.
Proof.
  induction s as [|c s IH]; simpl; [done|].
  destruct (Path.is_dot c) eqn:Hc, (Path.has_dot s) eqn:Hs; simpl; intros Hdot; try done.
  - destruct (IH eq_refl) as (seg & Hseg & Heq). exists seg. split; [done|].
    by rewrite Heq at 1.
  - exists s. split; [done|]. by rewrite (PathFacts.is_dot_eq c Hc).
  - destruct (IH eq_refl) as (seg & Hseg & Heq). exists seg. split; [done|].
    by rewrite Heq at 1.
Qed.

(** X6. For a path with a dot [get_parent_id_path] removes exactly the last
    segment: the path is the parent path, a dot and a segment without dots,
    and it is one segment deeper than the parent path; for a path without a
    dot the parent path is empty. *)
Theorem get_parent_id_path_strips_last_segment (path : string) :
  (Path.has_dot path = true →
     Path.depth path = S (Path.depth (Backend.get_parent_id_path path))
     ∧ ∃ seg, Path.has_dot seg = false
              ∧ path = Backend.get_parent_id_path path +:+ String "." seg)
  ∧ (Path.has_dot path = false → Backend.get_parent_id_path path = "").
Proof.
  unfold Backend.get_parent_id_path. split; intros Hdot; rewrite Hdot; simpl; [|done].
  split; [symmetry; by apply PathFacts.depth_rsplit1_head|].
  by apply rsplit1_head_segment.
Qed.

(** ** Deleting: what a second call finds *)

(** X7. Where no two efforts share a UUID and the keys of the effort refer
    to stored profiles, a deletion succeeds and cannot be repeated: the
    second call with the same text finds nothing, returns [False] and leaves
    the tables as the first call left them. *)
Theorem delete_effort_twice (uuid_ctor : string → option string)
    (effort_uuid valid_uuid : string) (i : nat) (effort : Model.SoftwareEffortModel)
    (w : World) :
  uuid_ctor effort_uuid = Some valid_uuid →
  list_find (λ e, Model.uuid e = valid_uuid) (efforts (db w)) = Some (i, effort) →
  NoDup (Model.uuid <$> efforts (db w)) →
  locals_stored effort (db w) →
  ∃ w1 w2,
    Service.delete_effort_by_uuid uuid_ctor effort_uuid w = (Ok true, w1)
    ∧ Service.delete_effort_by_uuid uuid_ctor effort_uuid w1 = (Ok false, w2)
    ∧ db w2 = db w1.
Proof.
  intros Hctor Hfind Hnodup Hstored.
  destruct (delete_found_run uuid_ctor effort_uuid valid_uuid effort w Hctor
              (filter_unique Model.uuid _ _ _ _ Hnodup Hfind) Hstored)
    as (w1 & Hrun & _ & Heff & _).
  exists w1. rewrite Hrun. unfold Service.delete_effort_by_uuid. rewrite Hctor.
  rewrite bind_run. unfold try_except.
  rewrite bind_run, get_effort_by_uuid_run.
  assert (filter (λ e, Model.uuid e = valid_uuid) (efforts (db w1)) = []) as ->.
  { apply list_filter_empty_lemma. rewrite Heff.
    intros y [Hpk Hy]%list_elem_of_filter Huuid.
    apply list_find_Some in Hfind as (Hi & Hu & _).
    apply list_elem_of_lookup_2 in Hi.
    apply Hpk. f_equal.
    apply (NoDup_fmap_eq Model.uuid (efforts (db w))); [done..|congruence]. }
  eexists. split; [done|]. split; [reflexivity|done].
Qed.

(** The theorem above on [sample_world], the UUID text accepted as it
    is. *)
Lemma delete_effort_twice_witness :
  (Some : string → option string) "e-1" = Some "e-1"
  ∧ list_find (λ e, Model.uuid e = "e-1") (efforts (db sample_world))
    = Some (0, sample_effort)
  ∧ NoDup (Model.uuid <$> efforts (db sample_world))
  ∧ locals_stored sample_effort (db sample_world)
  ∧ ∃ w1 w2,
      Service.delete_effort_by_uuid Some "e-1" sample_world = (Ok true, w1)
      ∧ Service.delete_effort_by_uuid Some "e-1" w1 = (Ok false, w2)
      ∧ db w2 = db w1.
Proof.
  assert (locals_stored sample_effort (db sample_world)) as Hstored.
  { intros X k. destruct X; intros [= <-]; by eexists. }
  split; [reflexivity|]. split; [reflexivity|].
  split; [apply NoDup_singleton|]. split; [exact Hstored|].
  apply (delete_effort_twice Some "e-1" "e-1" 0 sample_effort sample_world);
    [reflexivity|reflexivity|apply NoDup_singleton|exact Hstored].
Defined.

(** ** Deleting: the calls that raise *)

Section delete_raises.




End delete_raises.



(** ** Saving: the calls that change nothing *)

(** X8. Without effort data [save_efforts_for_program] returns at once; for
    a [program_id] that no program row has it returns after the one lookup.
    In both cases it returns normally, opens no transaction and writes
    nothing. *)
Theorem save_without_program_writes_nothing {builtins : Py.Builtins}
    (uuid4 : nat → string) (id : Z)
    (new_effort_data : option Payload.SoftwareEffort) (w : World) :
  Service.save_efforts_for_program uuid4 id None w = (Ok tt, w)
  ∧ (list_find (λ r, Model.program_id r = id) (program_infos (db w)) = None →
     ∃ ops,
       Service.save_efforts_for_program uuid4 id new_effort_data w = (Ok tt, traced ops w)
       ∧ Forall (λ op, ∃ t, op = Select t) ops).
Proof.
  split; [done|]. intros Hnone. unfold Service.save_efforts_for_program.
  destruct new_effort_data as [data|].
  - rewrite bind_run, select_program_infos_run. cbn [db traced]. rewrite Hnone.
    exists [Select ProgramInfos]. split; [done|]. repeat constructor. by eexists.
  - exists []. by rewrite ret_run, traced_nil.
Qed.

(** The theorem above on a store without programs. *)
Lemma save_without_program_writes_nothing_witness :
  Service.save_efforts_for_program sample_uuid4 101 None empty_world = (Ok tt, empty_world)
  ∧ list_find (λ r, Model.program_id r = 101%Z) (program_infos (db empty_world)) = None
  ∧ ∃ ops,
      Service.save_efforts_for_program sample_uuid4 101 (Some sample_payload) empty_world
        = (Ok tt, traced ops empty_world)
      ∧ Forall (λ op, ∃ t, op = Select t) ops.
Proof.
  destruct (save_without_program_writes_nothing sample_uuid4 101 (Some sample_payload)
              empty_world) as [Hnone Hmissing].
  split; [exact Hnone|]. split; [reflexivity|]. apply Hmissing. reflexivity.
Defined.

(** ** Saving: the call in its two steps *)

Section save_steps.
Context {builtins : Py.Builtins}.
Variable uuid4 : nat → string.

(** A profile of the creation branch follows the rule for an effort
    without a linked profile. *)
Lemma create_local_reconciled data X w :
  ∃ ops,
    Service.create_local data X w
    = (Ok (reconcile (Payload.inherit data X) (Payload.profile data X) None
             (profiles (db w) X)).1,
       traced ops
         (stored (set_profiles X
                    (reconcile (Payload.inherit data X) (Payload.profile data X) None
                       (profiles (db w) X)).2
                    (db w)) w)).
Proof.
  unfold Service.create_local, reconcile.
  destruct (Payload.inherit data X); simpl.
  { exists []. rewrite ret_run. by rewrite <- unchanged_world, traced_nil. }
  destruct (Payload.profile data X) as [d|]; simpl.
  - case_bool_decide; cbn [fst snd].
    + exists [Insert_ (Profiles X)]. by rewrite bind_run, create_profile_run, ret_run.
    + exists []. rewrite ret_run. by rewrite <- unchanged_world, traced_nil.
  - exists []. rewrite ret_run. by rewrite <- unchanged_world, traced_nil.
Qed.

(** The state after the [else] branch, field by field. *)
Lemma create_effort_fields data program parent w :
  ∃ instance w',
    Service.create_effort uuid4 data program parent w = (Ok instance, w')
    ∧ efforts (db w') = efforts (db w) ++ [instance]
    ∧ Model.pk instance
      = Pos.succ (foldr Pos.max 1%positive (Model.pk <$> efforts (db w)))
    ∧ Model.uuid instance = uuid4 (uuid4_calls w)
    ∧ Model.name instance = Payload.name data
    ∧ Model.program_catalog_info instance = Model.id program
    ∧ Model.parent instance = Model.uuid <$> parent
    ∧ Model.inherit instance = Payload.inherit data
    ∧ Model.linked_software_efforts instance
      = (if link_field_is_m2m (db w) then Model.ManyToMany ∅ else Model.JsonList [])
    ∧ (∀ X, Model.local_id instance X
            = (reconcile (Payload.inherit data X) (Payload.profile data X) None
                 (profiles (db w) X)).1
          ∧ profiles (db w') X
            = (reconcile (Payload.inherit data X) (Payload.profile data X) None
                 (profiles (db w) X)).2)
    ∧ program_infos (db w') = program_infos (db w)
    ∧ link_field_is_m2m (db w') = link_field_is_m2m (db w)
    ∧ uuid4_calls w' = S (uuid4_calls w).
Proof.
  unfold Service.create_effort.
  destruct (create_local_reconciled data statement_of_work_profile w) as [ops1 H1].
  rewrite bind_run, H1. clear H1.
  set (r1 := reconcile _ _ None (profiles (db w) statement_of_work_profile)).
  match goal with |- context [Service.create_local _ technical_points_of_contact ≫= _] =>
    idtac end.
  destruct (create_local_reconciled data technical_points_of_contact
              (traced ops1 (stored (set_profiles statement_of_work_profile r1.2 (db w)) w)))
    as [ops2 H2].
  rewrite bind_run, H2. clear H2. cbn [db traced stored].
  rewrite profiles_set_ne by done.
  set (r2 := reconcile _ _ None (profiles (db w) technical_points_of_contact)).
  match goal with |- context [(Service.create_local _ developer_setup ≫= _) ?w0] =>
    destruct (create_local_reconciled data developer_setup w0) as [ops3 H3] end.
  rewrite bind_run, H3. clear H3. cbn [db traced stored].
  rewrite !profiles_set_ne by done.
  set (r3 := reconcile _ _ None (profiles (db w) developer_setup)).
  match goal with |- context [(Service.create_local _ work_location ≫= _) ?w0] =>
    destruct (create_local_reconciled data work_location w0) as [ops4 H4] end.
  rewrite bind_run, H4. clear H4. cbn [db traced stored].
  rewrite !profiles_set_ne by done.
  set (r4 := reconcile _ _ None (profiles (db w) work_location)).
  unfold Service.create_effort_row. eexists _, _. split; [reflexivity|].
  cbn [db traced stored uuid4_calls efforts set_efforts program_infos link_field_is_m2m
       Model.pk Model.uuid Model.name Model.program_catalog_info Model.parent
       Model.inherit Model.linked_software_efforts Model.local_id].
  assert (∀ d X t, efforts (set_profiles X t d) = efforts d) as Heff by done.
  assert (∀ d X t, program_infos (set_profiles X t d) = program_infos d) as Hinfos by done.
  assert (∀ d X t, link_field_is_m2m (set_profiles X t d) = link_field_is_m2m d)
    as Hm2m by done.
  rewrite !Heff, !Hinfos, !Hm2m.
  repeat (split; [done|]). split; [|done].
  intros X. change (profiles (set_efforts ?es ?d) X) with (profiles d X).
  destruct X; split; try done;
    rewrite ?profiles_set_same, ?profiles_set_ne by done; by rewrite ?profiles_set_same.
Qed.


(** The two lookups of steps 1 and 2. *)
Lemma upsert_lookups_run data w (k : option Model.SoftwareEffortModel →
                                     option Model.SoftwareEffortModel →
                                     M Model.SoftwareEffortModel) :
  ∃ ops,
    ((if Py.truthy_str (Payload.parent_uuid data)
      then select_effort_by_uuid (default "" (Payload.parent_uuid data))
      else mret None) ≫= λ parent_instance,
     (if Py.truthy_str (Payload.uuid data)
      then select_effort_by_uuid (default "" (Payload.uuid data))
      else mret None) ≫= λ instance,
     k parent_instance instance) w
    = k (parent_read data w) (upsert_target data w) (traced ops w).
Proof.
  unfold parent_read, upsert_target, effort_of. rewrite bind_run.
  destruct (Py.truthy_str (Payload.parent_uuid data));
    destruct (Py.truthy_str (Payload.uuid data));
    rewrite ?select_effort_by_uuid_run, ?ret_run, bind_run,
            ?select_effort_by_uuid_run, ?ret_run, ?traced_traced;
    eexists; try reflexivity.
  by rewrite traced_nil.
Qed.


(** Step 2 without such an effort. *)
Lemma upsert_create_full data program w :
  upsert_target data w = None →
  ∃ instance w1,
    Service.upsert_effort uuid4 data program w = (Ok instance, w1)
    ∧ efforts (db w1) = efforts (db w) ++ [instance]
    ∧ (Model.pk instance ∉ Model.pk <$> efforts (db w))
    ∧ Model.uuid instance = uuid4 (uuid4_calls w)
    ∧ Model.name instance = Payload.name data
    ∧ Model.program_catalog_info instance = Model.id program
    ∧ Model.parent instance = Model.uuid <$> parent_read data w
    ∧ Model.inherit instance = Payload.inherit data
    ∧ Model.linked_software_efforts instance
      = (if link_field_is_m2m (db w) then Model.ManyToMany ∅ else Model.JsonList [])
    ∧ (∀ X, Model.local_id instance X
            = (reconcile (Payload.inherit data X) (Payload.profile data X) None
                 (profiles (db w) X)).1
          ∧ profiles (db w1) X
            = (reconcile (Payload.inherit data X) (Payload.profile data X) None
                 (profiles (db w) X)).2)
    ∧ program_infos (db w1) = program_infos (db w)
    ∧ link_field_is_m2m (db w1) = link_field_is_m2m (db w)
    ∧ uuid4_calls w1 = S (uuid4_calls w).
Proof.
  intros Htarget. unfold Service.upsert_effort.
  destruct (upsert_lookups_run data w
              (λ parent_instance instance,
                 match instance with
                 | Some existing =>
                     Service.update_effort data program parent_instance existing
                 | None => Service.create_effort uuid4 data program parent_instance
                 end)) as [ops ->].
  rewrite Htarget.
  destruct (create_effort_fields data program (parent_read data w) (traced ops w))
    as (instance & w1 & Hrun & Heff & Hpk & Hrest).
  rewrite Hrun. exists instance, w1. split; [done|]. split; [done|].
  cbn [db traced uuid4_calls] in *. split; [|done].
  rewrite Hpk. intros (y & Hpky & Hy)%list_elem_of_fmap.
  by destruct (next_pk_fresh _ _ Hy).
Qed.

(** The call as step 2 followed by step 3. *)
Lemma save_steps_run id data w j program :
  list_find (λ r, Model.program_id r = id) (program_infos (db w)) = Some (j, program) →
  links_accepted data = true →
  ∃ ops instance w1 w',
    Service.upsert_effort uuid4 data program (traced ops w) = (Ok instance, w1)
    ∧ Service.save_efforts_for_program uuid4 id (Some data) w = (Ok tt, w')
    ∧ efforts (db w')
      = match Payload.linked_software_efforts data with
        | None => efforts (db w1)
        | Some raw_links =>
            write_row
              (Service.set_linked
                 (linked_value (link_field_is_m2m (db w1)) (efforts (db w1)) raw_links)
                 instance)
              (efforts (db w1))
        end
    ∧ (∀ X, profiles (db w') X = profiles (db w1) X)
    ∧ program_infos (db w') = program_infos (db w1)
    ∧ link_field_is_m2m (db w') = link_field_is_m2m (db w1)
    ∧ uuid4_calls w' = uuid4_calls w1.
Proof.
  intros Hprogram Haccepted. unfold Service.save_efforts_for_program.
  rewrite bind_run, select_program_infos_run. cbn [db traced]. rewrite Hprogram.
  destruct (upsert_run uuid4 data program (traced ([Select ProgramInfos] ++ [Begin]) w))
    as (instance & w1 & Hup & _).
  exists ([Select ProgramInfos] ++ [Begin]), instance, w1.
  rewrite <- traced_traced in Hup |- *.
  unfold links_accepted in Haccepted.
  destruct (Payload.linked_software_efforts data) as [raw_links|] eqn:Hlinks.
  - destruct (link_efforts_run instance raw_links w1 Haccepted) as (ops2 & Hlink).
    assert (Service.save_transaction uuid4 data program
              (traced [Begin] (traced [Select ProgramInfos] w))
            = Service.link_efforts instance raw_links w1) as Hrun.
    { unfold Service.save_transaction. by rewrite bind_run, Hup, Hlinks. }
    rewrite Hlink in Hrun. rewrite (atomic_run_ok _ _ _ _ Hrun).
    eexists. split; [done|]. split; [reflexivity|].
    cbn [db traced stored efforts set_efforts uuid4_calls program_infos
         link_field_is_m2m]. done.
  - assert (Service.save_transaction uuid4 data program
              (traced [Begin] (traced [Select ProgramInfos] w)) = (Ok tt, w1)) as Hrun.
    { unfold Service.save_transaction. by rewrite bind_run, Hup, Hlinks, ret_run. }
    rewrite (atomic_run_ok _ _ _ _ Hrun).
    eexists. split; [done|]. split; [reflexivity|]. done.
Qed.
End save_steps.

(** ** Saving: what a creation and an update leave *)

Section write_row_more.
Implicit Types (rows : list Model.SoftwareEffortModel) (e : Model.SoftwareEffortModel).

Lemma write_row_snoc_fresh e e' rows :
  Model.pk e' = Model.pk e → (Model.pk e ∉ Model.pk <$> rows) →
  write_row e' (rows ++ [e]) = rows ++ [e'].
Proof.
  intros Hpk Hfresh. unfold write_row. rewrite fmap_app. f_equal.
  - rewrite <- (list_fmap_id rows) at 2. apply list_fmap_ext.
    intros n y Hy%list_elem_of_lookup_2. case_decide as Hy'; [|done].
    destruct Hfresh. apply list_elem_of_fmap. exists y. split; [congruence|done].
  - simpl. by rewrite decide_True.
Qed.


End write_row_more.

(** The rule for an effort without a linked profile, case by case. *)
Lemma reconcile_unlinked data X k t (table : gmap positive (gmap string string)) :
  reconcile (Payload.inherit data X) (Payload.profile data X) None table = (k, t) →
  (Payload.inherit data X = false →
   ∀ d, Payload.profile data X = Some d → d ≠ ∅ →
     ∃ k', table !! k' = None ∧ k = Some k' ∧ t = <[k' := d]> table)
  ∧ (Payload.inherit data X = true ∨ ¬ supplies data X → k = None ∧ t = table).
Proof.
  unfold reconcile. intros Hr. split.
  - intros Hinh d Hd Hne. rewrite Hinh, Hd in Hr.
    rewrite bool_decide_true in Hr by done. injection Hr as <- <-.
    exists (fresh (dom table)). split; [|done]. apply not_elem_of_dom, is_fresh.
  - intros Hno. destruct (Payload.inherit data X); [by injection Hr as <- <-|].
    destruct Hno as [?|Hno]; [done|].
    destruct (Payload.profile data X) as [d|] eqn:Hd; [|by injection Hr as <- <-].
    case_bool_decide as Hne; [|by injection Hr as <- <-].
    destruct Hno. by exists d.
Qed.

(** The creation branch in full, from the store before to the store
    after. *)
Lemma save_create_full {builtins : Py.Builtins} (uuid4 : nat → string) id data w j program :
  list_find (λ r, Model.program_id r = id) (program_infos (db w)) = Some (j, program) →
  upsert_target data w = None →
  links_accepted data = true →
  ∃ w' instance,
    Service.save_efforts_for_program uuid4 id (Some data) w = (Ok tt, w')
    ∧ efforts (db w') = efforts (db w) ++ [instance]
    ∧ (Model.pk instance ∉ Model.pk <$> efforts (db w))
    ∧ Model.uuid instance = uuid4 (uuid4_calls w)
    ∧ uuid4_calls w' = S (uuid4_calls w)
    ∧ Model.name instance = Payload.name data
    ∧ Model.program_catalog_info instance = Model.id program
    ∧ Model.parent instance = Model.uuid <$> parent_read data w
    ∧ Model.inherit instance = Payload.inherit data
    ∧ (∀ X, Model.local_id instance X
            = (reconcile (Payload.inherit data X) (Payload.profile data X) None
                 (profiles (db w) X)).1
          ∧ profiles (db w') X
            = (reconcile (Payload.inherit data X) (Payload.profile data X) None
                 (profiles (db w) X)).2)
    ∧ program_infos (db w') = program_infos (db w)
    ∧ link_field_is_m2m (db w') = link_field_is_m2m (db w).
Proof.
  intros Hprogram Htarget Haccepted.
  destruct (save_steps_run uuid4 id data w j program Hprogram Haccepted)
    as (ops & instance0 & w1 & w' & Hup & Hrun & Heff & Hprof & Hinfos & Hm2m & Hcalls).
  destruct (upsert_create_full uuid4 data program (traced ops w) Htarget)
    as (instance1 & w1' & Hup' & Heff1 & Hfresh & Huuid & Hname & Hprog & Hparent
        & Hinh & _ & Hlocal & Hinfos1 & Hm2m1 & Hcalls1).
  rewrite Hup in Hup'. injection Hup' as <- <-.
  cbn [db traced uuid4_calls] in Heff1, Hfresh, Huuid, Hparent, Hlocal, Hcalls1,
    Hinfos1, Hm2m1.
  change (parent_read data (traced ops w)) with (parent_read data w) in Hparent.
  set (instance :=
    match Payload.linked_software_efforts data with
    | None => instance0
    | Some raw_links =>
        Service.set_linked
          (linked_value (link_field_is_m2m (db w1)) (efforts (db w1)) raw_links) instance0
    end).
  assert (Model.pk instance = Model.pk instance0
          ∧ Model.uuid instance = Model.uuid instance0
          ∧ Model.name instance = Model.name instance0
          ∧ Model.program_catalog_info instance = Model.program_catalog_info instance0
          ∧ Model.parent instance = Model.parent instance0
          ∧ Model.inherit instance = Model.inherit instance0
          ∧ Model.local_id instance = Model.local_id instance0)
    as (Hi1 & Hi2 & Hi3 & Hi4 & Hi5 & Hi6 & Hi7).
  { unfold instance. by destruct (Payload.linked_software_efforts data). }
  exists w', instance. split; [done|]. split.
  { rewrite Heff. unfold instance.
    destruct (Payload.linked_software_efforts data) as [raw_links|]; [|done].
    rewrite Heff1. by apply write_row_snoc_fresh. }
  rewrite Hi1, Hi2, Hi3, Hi4, Hi5, Hi6, Hi7, Hcalls, Hinfos, Hm2m.
  do 7 (split; [done|]). split; [|done].
  intros X. rewrite Hprof. apply Hlocal.
Qed.

(** X9. A call whose payload's UUID finds no effort (or that has none), and
    whose links hold no identifier that [isdigit] accepts and [int] rejects,
    adds one effort row and changes no other: the row has a key of its own
    and the UUID that the model generates, not the payload's; its name,
    program, parent and inherit flags are the payload's; for an aspect with
    [inherit_X] false and data it has a profile row of its own with that
    data, for any other aspect no profile and the table is unchanged. *)
Theorem save_creates_effort_under_new_uuid {builtins : Py.Builtins}
    (uuid4 : nat → string) (id : Z)
    (data : Payload.SoftwareEffort) (w : World) (j : nat)
    (program : Model.ProgramCatalogInfoModel) :
  list_find (λ r, Model.program_id r = id) (program_infos (db w)) = Some (j, program) →
  upsert_target data w = None →
  links_accepted data = true →
  ∃ w' instance,
    Service.save_efforts_for_program uuid4 id (Some data) w = (Ok tt, w')
    ∧ efforts (db w') = efforts (db w) ++ [instance]
    ∧ (Model.pk instance ∉ Model.pk <$> efforts (db w))
    ∧ Model.uuid instance = uuid4 (uuid4_calls w)
    ∧ uuid4_calls w' = S (uuid4_calls w)
    ∧ Model.name instance = Payload.name data
    ∧ Model.program_catalog_info instance = Model.id program
    ∧ Model.parent instance = Model.uuid <$> parent_read data w
    ∧ Model.inherit instance = Payload.inherit data
    ∧ ∀ X,
        (Payload.inherit data X = false →
         ∀ d, Payload.profile data X = Some d → d ≠ ∅ →
           ∃ k, profiles (db w) X !! k = None
                ∧ Model.local_id instance X = Some k
                ∧ profiles (db w') X = <[k := d]> (profiles (db w) X))
        ∧ (Payload.inherit data X = true ∨ ¬ supplies data X →
           Model.local_id instance X = None
           ∧ profiles (db w') X = profiles (db w) X).
Proof.
  intros Hprogram Htarget Haccepted.
  destruct (save_create_full uuid4 id data w j program Hprogram Htarget Haccepted)
    as (w' & instance & Hrun & Heff & Hfresh & Huuid & Hcalls & Hname & Hprog
        & Hparent & Hinh & Hlocal & _).
  exists w', instance. do 9 (split; [done|]).
  intros X. destruct (Hlocal X) as [Hk Ht].
  apply (reconcile_unlinked data X). rewrite Hk, Ht. by destruct (reconcile _ _ _ _).
Qed.

(** The theorem above on [unmatched_payload] and a store with one
    program. *)
Lemma save_creates_effort_under_new_uuid_witness :
  list_find (λ r, Model.program_id r = 101%Z) (program_infos (db program_world))
    = Some (0, {| Model.id := "a"; Model.program_id := 101;
                  Model.program_active := true; Model.date := 5 |})
  ∧ upsert_target unmatched_payload program_world = None
  ∧ links_accepted unmatched_payload = true
  ∧ ∃ w' instance,
      Service.save_efforts_for_program sample_uuid4 101 (Some unmatched_payload)
        program_world = (Ok tt, w')
      ∧ efforts (db w') = efforts (db program_world) ++ [instance]
      ∧ (Model.pk instance ∉ Model.pk <$> efforts (db program_world))
      ∧ Model.uuid instance = sample_uuid4 (uuid4_calls program_world)
      ∧ uuid4_calls w' = S (uuid4_calls program_world)
      ∧ Model.name instance = Payload.name unmatched_payload
      ∧ Model.program_catalog_info instance = "a"
      ∧ Model.parent instance = Model.uuid <$> parent_read unmatched_payload program_world
      ∧ Model.inherit instance = Payload.inherit unmatched_payload
      ∧ ∀ X,
          (Payload.inherit unmatched_payload X = false →
           ∀ d, Payload.profile unmatched_payload X = Some d → d ≠ ∅ →
             ∃ k, profiles (db program_world) X !! k = None
                  ∧ Model.local_id instance X = Some k
                  ∧ profiles (db w') X = <[k := d]> (profiles (db program_world) X))
          ∧ (Payload.inherit unmatched_payload X = true
             ∨ ¬ supplies unmatched_payload X →
             Model.local_id instance X = None
             ∧ profiles (db w') X = profiles (db program_world) X).
Proof.
  split; [reflexivity|]. split; [reflexivity|]. split; [reflexivity|].
  apply (save_creates_effort_under_new_uuid sample_uuid4 101 unmatched_payload
           program_world 0
           {| Model.id := "a"; Model.program_id := 101;
              Model.program_active := true; Model.date := 5 |});
    reflexivity.
Defined.







(** ** Saving twice *)




(** ** Links that are kept as a relation *)




(** ** Links that [int] rejects *)

Section rejected_links.
Context {builtins : Py.Builtins}.
Variable uuid4 : nat → string.


End rejected_links.



(** ** Creating and deleting *)

Lemma list_find_snoc {A} (P : A → Prop) `{!∀ x, Decision (P x)} (l : list A) x :
  list_find P l = None → P x → list_find P (l ++ [x]) = Some (length l, x).
Proof.
  intros Hnone Hx. induction l as [|y l IH]; simpl in *.
  - by rewrite decide_True.
  - destruct (decide (P y)); [done|].
    destruct (list_find P l) as [[? ?]|]; [done|]. by rewrite IH.
Qed.

Lemma filter_snoc_fresh (rows : list Model.SoftwareEffortModel) e :
  (Model.pk e ∉ Model.pk <$> rows) →
  filter (λ y, Model.pk y ≠ Model.pk e) (rows ++ [e]) = rows.
Proof.
  intros Hfresh. rewrite filter_app, filter_cons_False, filter_nil by (by intros []).
  rewrite (right_id_L [] (++)). induction rows as [|y rows IH]; [done|].
  rewrite filter_cons_True.
  - f_equal. apply IH. intros Hin. apply Hfresh. by right.
  - intros Heq. apply Hfresh. rewrite <- Heq. by left.
Qed.

Lemma database_eq d d' :
  program_infos d = program_infos d' → efforts d = efforts d' →
  (∀ X, profiles d X = profiles d' X) →
  link_field_is_m2m d = link_field_is_m2m d' → d = d'.
Proof.
  destruct d, d'. simpl. intros -> -> Hprof ->.
  pose proof (Hprof statement_of_work_profile) as H1.
  pose proof (Hprof technical_points_of_contact) as H2.
  pose proof (Hprof developer_setup) as H3.
  pose proof (Hprof work_location) as H4.
  simpl in *. by subst.
Qed.

(** X14. Creating an effort and deleting it under the UUID it was given
    restores the tables: where no effort has the UUID about to be generated
    and that UUID is well formed and canonical, a call that creates an
    effort, its links holding no identifier that [isdigit] accepts and [int]
    rejects, followed by [delete_effort_by_uuid] on the new UUID leaves the
    efforts, the four profile tables and the programs as they were. *)
Theorem create_then_delete_restores {builtins : Py.Builtins}
    (uuid_ctor : string → option string)
    (uuid4 : nat → string) (id : Z) (data : Payload.SoftwareEffort) (w : World)
    (j : nat) (program : Model.ProgramCatalogInfoModel) :
  list_find (λ r, Model.program_id r = id) (program_infos (db w)) = Some (j, program) →
  upsert_target data w = None →
  links_accepted data = true →
  uuid_ctor (uuid4 (uuid4_calls w)) = Some (uuid4 (uuid4_calls w)) →
  list_find (λ e, Model.uuid e = uuid4 (uuid4_calls w)) (efforts (db w)) = None →
  ∃ w1 w2,
    Service.save_efforts_for_program uuid4 id (Some data) w = (Ok tt, w1)
    ∧ Service.delete_effort_by_uuid uuid_ctor (uuid4 (uuid4_calls w)) w1 = (Ok true, w2)
    ∧ length (efforts (db w1)) = S (length (efforts (db w)))
    ∧ db w2 = db w.
Proof.
  intros Hprogram Htarget Haccepted Hctor Hunused.
  destruct (save_create_full uuid4 id data w j program Hprogram Htarget Haccepted)
    as (w1 & instance & Hrun & Heff & Hfresh & Huuid & _ & _ & _ & _ & _ & Hlocal
        & Hinfos & Hm2m).
  assert (filter (λ e, Model.uuid e = uuid4 (uuid4_calls w)) (efforts (db w1))
          = [instance]) as Hget.
  { rewrite Heff, filter_app, (filter_none _ _ Hunused).
    by rewrite filter_cons_True, filter_nil. }
  assert (locals_stored instance (db w1)) as Hstored.
  { intros X k. destruct (Hlocal X) as [-> ->].
    unfold reconcile. destruct (Payload.inherit data X); [done|].
    destruct (Payload.profile data X) as [d|]; [|done].
    case_bool_decide; [|done]. cbn [fst snd]. intros [= <-].
    rewrite lookup_insert_eq. by eexists. }
  destruct (delete_found_run uuid_ctor _ _ instance w1 Hctor Hget Hstored)
    as (w2 & Hdel & _ & Heff2 & Hprof2 & Hinfos2 & Hm2m2 & _).
  exists w1, w2. split; [done|]. split; [done|].
  split; [rewrite Heff, length_app; simpl; lia|].
  apply database_eq.
  - congruence.
  - rewrite Heff2, Heff. by apply filter_snoc_fresh.
  - intros X. rewrite Hprof2. destruct (Hlocal X) as [-> ->].
    unfold reconcile. destruct (Payload.inherit data X); [done|].
    destruct (Payload.profile data X) as [d|]; [|done].
    case_bool_decide; [|done]. cbn [fst snd].
    apply delete_insert_id, not_elem_of_dom, is_fresh.
  - congruence.
Qed.

(** The theorem above on [unmatched_payload], the UUID text accepted as
    it is. *)
Lemma create_then_delete_restores_witness :
  list_find (λ r, Model.program_id r = 101%Z) (program_infos (db sample_world))
    = Some (0, {| Model.id := "a"; Model.program_id := 101;
                  Model.program_active := true; Model.date := 5 |})
  ∧ upsert_target unmatched_payload sample_world = None
  ∧ links_accepted unmatched_payload = true
  ∧ (Some : string → option string) (sample_uuid4 (uuid4_calls sample_world))
    = Some (sample_uuid4 (uuid4_calls sample_world))
  ∧ list_find (λ e, Model.uuid e = sample_uuid4 (uuid4_calls sample_world))
      (efforts (db sample_world)) = None
  ∧ ∃ w1 w2,
      Service.save_efforts_for_program sample_uuid4 101 (Some unmatched_payload)
        sample_world = (Ok tt, w1)
      ∧ Service.delete_effort_by_uuid Some (sample_uuid4 (uuid4_calls sample_world)) w1
        = (Ok true, w2)
      ∧ length (efforts (db w1)) = S (length (efforts (db sample_world)))
      ∧ db w2 = db sample_world.
Proof.
  split; [reflexivity|]. split; [reflexivity|]. split; [reflexivity|].
  split; [reflexivity|]. split; [reflexivity|].
  apply (create_then_delete_restores Some sample_uuid4 101 unmatched_payload
           sample_world 0
           {| Model.id := "a"; Model.program_id := 101;
              Model.program_active := true; Model.date := 5 |});
    reflexivity.
Defined.

(** ** The latest versions, and the reads that use them *)

Section latest.

Lemma latest_programs_run w :
  ∃ latest,
    Service._get_latest_programs w = (Ok latest, traced [Select ProgramInfos] w)
    ∧ latest.*2 = latest_dates (program_infos (db w)).
Proof.
  eexists. split; [reflexivity|].
  unfold latest_dates. by rewrite <- list_fmap_compose.
Qed.

(** A date is among the latest exactly when it is the largest date of the
    active rows of some program. *)
Lemma elem_of_latest_dates rows x :
  x ∈ latest_dates rows ↔
  ∃ r, r ∈ rows ∧ Model.program_active r = true ∧ Model.date r = x
       ∧ ∀ r', r' ∈ rows → Model.program_active r' = true →
               Model.program_id r' = Model.program_id r → (Model.date r' ≤ x)%Z.
Proof.
  set (w := {| db := {| program_infos := rows; efforts := [];
                        statement_of_work_profiles := ∅;
                        technical_point_of_contacts := ∅; developer_setups := ∅;
                        work_locations := ∅; link_field_is_m2m := false |};
               trace := []; uuid4_calls := 0 |}).
  destruct (latest_active_versions w) as (latest & Hrun & _ & Hkeys & Hmax & _).
  destruct (latest_programs_run w) as (latest' & Hrun' & Hdates).
  rewrite Hrun in Hrun'. injection Hrun' as <-.
  change (program_infos (db w)) with rows in *. rewrite <- Hdates. split.
  - intros ([pid d] & -> & Hin)%list_elem_of_fmap. simpl.
    destruct (Hmax pid d Hin) as ((r & Hr & Ha & Hpid & Hd) & Hle).
    exists r. do 3 (split; [done|]). intros r' Hr' Ha' Hpid'. apply Hle; congruence.
  - intros (r & Hr & Ha & Hd & Hle).
    assert (Model.program_id r ∈ latest.*1) as ([pid d] & Hpid & Hin)%list_elem_of_fmap.
    { apply Hkeys. eauto. }
    simpl in Hpid. subst pid.
    destruct (Hmax _ d Hin) as ((r0 & Hr0 & Ha0 & Hpid0 & Hd0) & Hle0).
    assert (d = x) as <-.
    { apply Z.le_antisymm.
      - rewrite <- Hd0. by apply Hle.
      - rewrite <- Hd. by apply Hle0. }
    apply list_elem_of_fmap. by exists (Model.program_id r, d).
Qed.

(** A program with an active row has a row dated at one of the latest
    dates: its own latest active version. *)
Lemma active_program_has_latest rows id :
  (∃ r, r ∈ rows ∧ Model.program_active r = true ∧ Model.program_id r = id) →
  ∃ r, r ∈ rows ∧ Model.program_active r = true ∧ Model.program_id r = id
       ∧ Model.date r ∈ latest_dates rows
       ∧ ∀ r', r' ∈ rows → Model.program_active r' = true →
               Model.program_id r' = id → (Model.date r' ≤ Model.date r)%Z.
Proof.
  intros Hactive.
  set (w := {| db := {| program_infos := rows; efforts := [];
                        statement_of_work_profiles := ∅;
                        technical_point_of_contacts := ∅; developer_setups := ∅;
                        work_locations := ∅; link_field_is_m2m := false |};
               trace := []; uuid4_calls := 0 |}).
  destruct (latest_active_versions w) as (latest & Hrun & _ & Hkeys & Hmax & _).
  change (program_infos (db w)) with rows in *.
  apply Hkeys in Hactive as ([pid d] & Hpid & Hin)%list_elem_of_fmap.
  simpl in Hpid. subst pid.
  destruct (Hmax _ d Hin) as ((r & Hr & Ha & Hpid & Hd) & Hle).
  exists r. do 3 (split; [done|]). split.
  - apply elem_of_latest_dates. exists r. do 3 (split; [done|]).
    intros r' Hr' Ha' Hpid'. rewrite Hd. apply Hle; congruence.
  - intros r' Hr' Ha' Hpid'. rewrite Hd. by apply Hle.
Qed.
End latest.

(** X15. [_get_latest_programs] of the backend copy only reads; its result
    has exactly one entry for each [program_id] that has an active row,
    carrying the largest date among the active rows of that [program_id],
    and is empty when no row is active. *)
Theorem backend_latest_programs_grouped (w : World) :
  ∃ latest,
    Service._get_latest_programs w = (Ok latest, traced [Select ProgramInfos] w)
    ∧ NoDup latest.*1
    ∧ (∀ pid, pid ∈ latest.*1 ↔
         ∃ r, r ∈ program_infos (db w) ∧ Model.program_active r = true
              ∧ Model.program_id r = pid)
    ∧ (∀ pid d, (pid, d) ∈ latest →
         (∃ r, r ∈ program_infos (db w) ∧ Model.program_active r = true
               ∧ Model.program_id r = pid ∧ Model.date r = d)
         ∧ (∀ r, r ∈ program_infos (db w) → Model.program_active r = true →
                 Model.program_id r = pid → (Model.date r ≤ d)%Z))
    ∧ ((∀ r, r ∈ program_infos (db w) → Model.program_active r = false) → latest = []).
Proof. exact (latest_active_versions w). Qed.

Lemma list_find_iff {A} (P Q : A → Prop) `{!∀ x, Decision (P x)} `{!∀ x, Decision (Q x)}
    (l : list A) :
  (∀ x, P x ↔ Q x) → list_find P l = list_find Q l.
Proof.
  intros HPQ. induction l as [|x l IH]; simpl; [done|].
  destruct (decide (P x)) as [HP|HP].
  - by rewrite decide_True by (by apply HPQ).
  - rewrite decide_False by (by rewrite <- HPQ). by rewrite IH.
Qed.

Section program_reads.
Context (Program : Type)
  (convert : option Model.ProgramCatalogInfoModel → result Program).

Lemma get_program_by_id_run id w :
  Service.get_program_by_id Program convert id w
  = (outcome_of_conversion Program convert
       (snd <$> list_find (λ r, (Model.program_active r = true
                                 ∧ Model.date r ∈ latest_dates (program_infos (db w)))
                                ∧ Model.program_id r = id)
                          (program_infos (db w))),
     traced [Select ProgramInfos; Select ProgramInfos] w).
Proof.
  destruct (latest_programs_run w) as (latest & Hrun & Hdates).
  unfold Service.get_program_by_id. rewrite bind_run, Hrun.
  rewrite bind_run, select_program_infos_run. cbn [db traced].
  rewrite (list_find_iff _
             (λ r, (Model.program_active r = true
                    ∧ Model.date r ∈ latest_dates (program_infos (db w)))
                   ∧ Model.program_id r = id))
    by (intros r; unfold Service.current_active; by rewrite Hdates).
  rewrite lift_result_bind. unfold outcome_of_conversion.
  destruct (convert _); by rewrite ?ret_run, traced_traced.
Qed.

Lemma get_program_by_uuid_run id w :
  Service.get_program_by_uuid Program convert id w
  = (outcome_of_conversion Program convert
       (snd <$> list_find (λ r, (Model.program_active r = true
                                 ∧ Model.date r ∈ latest_dates (program_infos (db w)))
                                ∧ Model.id r = id)
                          (program_infos (db w))),
     traced [Select ProgramInfos; Select ProgramInfos] w).
Proof.
  destruct (latest_programs_run w) as (latest & Hrun & Hdates).
  unfold Service.get_program_by_uuid. rewrite bind_run, Hrun.
  rewrite bind_run, select_program_infos_run. cbn [db traced].
  rewrite (list_find_iff _
             (λ r, (Model.program_active r = true
                    ∧ Model.date r ∈ latest_dates (program_infos (db w)))
                   ∧ Model.id r = id))
    by (intros r; unfold Service.current_active; by rewrite Hdates).
  rewrite lift_result_bind. unfold outcome_of_conversion.
  destruct (convert _); by rewrite ?ret_run, traced_traced.
Qed.
End program_reads.

(** X16. [get_program_by_id] only reads, and what it hands to the
    conversion is a row exactly when the program has an active row; the row
    is then an active row of that [program_id] whose date is the latest date
    of some program, which need not be the program's own. *)
Theorem get_program_by_id_finds_active_row (Program : Type)
    (convert : option Model.ProgramCatalogInfoModel → result Program)
    (id : Z) (w : World) :
  ∃ model,
    (Service.get_program_by_id Program convert id w).1
      = outcome_of_conversion Program convert model
    ∧ db (Service.get_program_by_id Program convert id w).2 = db w
    ∧ (is_Some model ↔
       ∃ r, r ∈ program_infos (db w) ∧ Model.program_active r = true
            ∧ Model.program_id r = id)
    ∧ ∀ r, model = Some r →
        r ∈ program_infos (db w) ∧ Model.program_active r = true
        ∧ Model.program_id r = id
        ∧ Model.date r ∈ latest_dates (program_infos (db w)).
Proof.
  rewrite get_program_by_id_run. eexists. split; [reflexivity|]. split; [done|].
  destruct (list_find _ _) as [[i r]|] eqn:Hfind; simpl.
  - apply list_find_Some in Hfind as (Hi & [[Ha Hd] Hid] & _).
    apply list_elem_of_lookup_2 in Hi. split.
    + split; [eauto|by eexists].
    + by intros ? [= <-].
  - split; [|done]. split; [by intros [? ?]|].
    intros Hactive. exfalso.
    apply active_program_has_latest in Hactive as (r & Hr & Ha & Hid & Hd & _).
    apply list_find_None in Hfind. rewrite Forall_forall in Hfind.
    by apply (Hfind r Hr).
Qed.

(** X17. [get_program_by_uuid] finds the current version by its storage
    id: where no two rows share an id, the id of an active row that carries
    the largest date among the active rows of its program yields that very
    row for the conversion. *)
Theorem get_program_by_uuid_finds_current_version (Program : Type)
    (convert : option Model.ProgramCatalogInfoModel → result Program)
    (w : World) (r : Model.ProgramCatalogInfoModel) :
  NoDup (Model.id <$> program_infos (db w)) →
  r ∈ program_infos (db w) →
  Model.program_active r = true →
  (∀ r', r' ∈ program_infos (db w) → Model.program_active r' = true →
         Model.program_id r' = Model.program_id r → (Model.date r' ≤ Model.date r)%Z) →
  (Service.get_program_by_uuid Program convert (Model.id r) w).1
    = outcome_of_conversion Program convert (Some r).
Proof.
  intros Hnodup Hr Ha Hmax. rewrite get_program_by_uuid_run. simpl. f_equal.
  assert (Model.date r ∈ latest_dates (program_infos (db w))) as Hd.
  { apply elem_of_latest_dates. exists r. by do 3 (split; [done|]). }
  destruct (list_find _ _) as [[i r0]|] eqn:Hfind; simpl.
  - apply list_find_Some in Hfind as (Hi & [_ Hid] & _).
    apply list_elem_of_lookup_2 in Hi. f_equal.
    by apply (NoDup_fmap_eq Model.id (program_infos (db w))).
  - apply list_find_None in Hfind. rewrite Forall_forall in Hfind.
    by destruct (Hfind r Hr).
Qed.

(** The theorem above on the later version of [two_versions_world], with a
    conversion that hands the row back. *)
Lemma get_program_by_uuid_finds_current_version_witness :
  NoDup (Model.id <$> program_infos (db two_versions_world))
  ∧ {| Model.id := "b"; Model.program_id := 101;
       Model.program_active := true; Model.date := 9 |}
    ∈ program_infos (db two_versions_world)
  ∧ Model.program_active {| Model.id := "b"; Model.program_id := 101;
                            Model.program_active := true; Model.date := 9 |} = true
  ∧ Forall (λ r', Model.program_active r' = true → Model.program_id r' = 101%Z →
                  (Model.date r' ≤ 9)%Z) (program_infos (db two_versions_world))
  ∧ (Service.get_program_by_uuid (option Model.ProgramCatalogInfoModel) Ok "b"
       two_versions_world).1
    = outcome_of_conversion (option Model.ProgramCatalogInfoModel) Ok
        (Some {| Model.id := "b"; Model.program_id := 101;
                 Model.program_active := true; Model.date := 9 |}).
Proof.
  assert (Forall (λ r', Model.program_active r' = true → Model.program_id r' = 101%Z →
                        (Model.date r' ≤ 9)%Z) (program_infos (db two_versions_world)))
    as Hmax.
  { repeat constructor; simpl; lia. }
  split; [apply (bool_decide_unpack _); vm_compute; exact I|].
  split; [by right; left|].
  split; [reflexivity|]. split; [exact Hmax|].
  apply (get_program_by_uuid_finds_current_version
           (option Model.ProgramCatalogInfoModel) Ok two_versions_world
           {| Model.id := "b"; Model.program_id := 101;
              Model.program_active := true; Model.date := 9 |}).
  - apply (bool_decide_unpack _). vm_compute. exact I.
  - by right; left.
  - reflexivity.
  - intros r' Hr'. rewrite Forall_forall in Hmax. exact (Hmax r' Hr').
Defined.

(** ** Reading the efforts of a program *)

Section efforts_reads.
Context {Item SoftwareEffort : Type}.
Variable serialize : Model.SoftwareEffortModel → result Item.
Variable model_validate : Item → result SoftwareEffort.

(** The rows found, serialized and then validated. *)
Definition efforts_read (id : Z) (d : Database) : result (option (list SoftwareEffort)) :=
  match program_read id d with
  | None => Ok None
  | Some program =>
      match ServiceReads.each serialize (efforts_of program d) with
      | Raise e => Raise e
      | Ok serialized_data =>
          match ServiceReads.each model_validate serialized_data with
          | Raise e => Raise e
          | Ok dtos => Ok (Some dtos)
          end
      end
  end.

Lemma get_efforts_for_program_run id w :
  ∃ ops,
    ServiceReads.get_efforts_for_program serialize model_validate id w
    = (efforts_read id (db w), traced ops w)
    ∧ Forall (λ op, ∃ t, op = Select t) ops.
Proof.
  destruct (latest_programs_run w) as (latest & Hrun & Hdates).
  unfold ServiceReads.get_efforts_for_program, efforts_read, program_read.
  rewrite bind_run, Hrun. rewrite bind_run, select_program_infos_run. cbn [db traced].
  rewrite (list_find_iff _
             (λ r, Model.program_id r = id
                   ∧ Model.date r ∈ latest_dates (program_infos (db w))))
    by (intros r; by rewrite Hdates).
  destruct (list_find _ _) as [[i program]|]; simpl.
  - exists [Select ProgramInfos; Select ProgramInfos; Select Efforts; Select Efforts].
    split; [|repeat constructor; by eexists].
    unfold efforts_of.
    rewrite bind_run. cbn [record_op]. rewrite bind_run. cbn [record_op].
    rewrite bind_run. cbn [get_db db].
    rewrite lift_result_bind.
    destruct (ServiceReads.each serialize _) as [items|ex];
      [rewrite lift_result_bind;
       destruct (ServiceReads.each model_validate items) as [dtos|ex];
       rewrite ?ret_run|];
      unfold traced; simpl; by rewrite <- !(assoc_L (++)).
  - exists [Select ProgramInfos; Select ProgramInfos].
    split; [|repeat constructor; by eexists].
    by rewrite ret_run, traced_traced.
Qed.
End efforts_reads.

(** X18. [get_efforts_for_program] of the backend copy only reads. For a
    [program_id] that no row has it returns [None] and raises nothing; for a
    program with an active row it does not return [None]: it returns the
    efforts attached to the row it finds, or raises what the serializer or
    the validation raises. *)
Theorem get_efforts_for_program_none_or_list {Item SoftwareEffort : Type}
    (serialize : Model.SoftwareEffortModel → result Item)
    (model_validate : Item → result SoftwareEffort) (id : Z) (w : World) :
  db (ServiceReads.get_efforts_for_program serialize model_validate id w).2 = db w
  ∧ ((∀ r, r ∈ program_infos (db w) → Model.program_id r ≠ id) →
     (ServiceReads.get_efforts_for_program serialize model_validate id w).1 = Ok None)
  ∧ ((∃ r, r ∈ program_infos (db w) ∧ Model.program_active r = true
           ∧ Model.program_id r = id) →
     (ServiceReads.get_efforts_for_program serialize model_validate id w).1 ≠ Ok None).
Proof.
  destruct (get_efforts_for_program_run serialize model_validate id w) as (ops & -> & _).
  split; [done|]. cbn [fst]. unfold efforts_read, program_read. split.
  - intros Hnone.
    destruct (list_find _ _) as [[i r]|] eqn:Hfind; [|done].
    apply list_find_Some in Hfind as (Hi & [Hid _] & _).
    apply list_elem_of_lookup_2 in Hi. by destruct (Hnone r Hi).
  - intros Hactive.
    apply active_program_has_latest in Hactive as (r & Hr & _ & Hid & Hd & _).
    destruct (list_find _ _) as [[i r0]|] eqn:Hfind; simpl.
    + destruct (ServiceReads.each serialize _); [|done].
      by destruct (ServiceReads.each model_validate _).
    + apply list_find_None in Hfind. rewrite Forall_forall in Hfind.
      by destruct (Hfind r Hr).
Qed.



(** ** Every node lies below the root *)

Lemma descends_from_parent a c s :
  Path.has_dot c = true → parent_path c = a → descends_from c s → descends_from a s.
Proof.
  intros Hdot Hparent. induction 1 as [s Hs Hc|s Hs _ IH].
  - apply descends_deeper; [done|]. rewrite Hc. by apply descends_child.
  - by apply descends_deeper.
Qed.

Lemma descendants_descend (t : ProgramTreeNode) :
  (∀ s c, s ∈ subtrees t → c ∈ tree_children s →
     Backend.get_parent_id_path (node_program_path (tree_data c))
       = node_program_path (tree_data s)
     ∧ Path.depth (node_program_path (tree_data c))
       = S (Path.depth (node_program_path (tree_data s)))) →
  ∀ d, d ∈ tree_descendants t →
    descends_from (node_program_path (tree_data t)) (node_program_path d).
Proof.
  induction t as [d0 cs IH] using ProgramTreeNode_ind. intros Hshape d.
  unfold tree_descendants. simpl. intros (c & Hd & Hc)%list_elem_of_bind.
  destruct (Hshape (TreeNode d0 cs) c (subtrees_self _) Hc) as [Hparent Hdepth].
  simpl in Hparent, Hdepth. rewrite get_parent_id_path_spec in Hparent.
  assert (Path.has_dot (node_program_path (tree_data c)) = true) as Hdot.
  { apply PathFacts.depth_has_dot. pose proof (PathFacts.depth_pos (node_program_path d0)).
    lia. }
  rewrite tree_nodes_cons in Hd. apply elem_of_cons in Hd as [->|Hd].
  - by apply descends_child.
  - apply (descends_from_parent _ (node_program_path (tree_data c))); [done..|].
    rewrite Forall_forall in IH. apply (IH c Hc); [|done].
    intros s c' Hs Hc'. apply Hshape; [|done]. by eapply subtrees_child.
Qed.

(** X20. In a tree returned by [get_all_programs_as_tree] the path of every
    node other than the root lies below the path of the root, and the path
    of every proper descendant of a node below the path of that node:
    removing final segments from the one leads to the other. *)
Theorem tree_nodes_descend_from_ancestors (data : list ProgramDict)
    (t : ProgramTreeNode) (lg : list log_entry) :
  Backend.get_all_programs_as_tree data = (Ok (Some t), lg) →
  ∀ s d, s ∈ subtrees t → d ∈ tree_descendants s →
    descends_from (node_program_path (tree_data s)) (node_program_path d).
Proof.
  intros Hrun s d Hs. apply descendants_descend.
  intros s' c Hs' Hc. apply (returned_children_paths data t lg Hrun); [|done].
  by eapply subtrees_trans.
Qed.

(** The theorem above on [example_programs]. *)
Lemma tree_nodes_descend_from_ancestors_witness :
  ∃ t lg,
    Backend.get_all_programs_as_tree example_programs = (Ok (Some t), lg)
    ∧ ∀ s d, s ∈ subtrees t → d ∈ tree_descendants s →
        descends_from (node_program_path (tree_data s)) (node_program_path d).
Proof.
  eexists _, _. split; [vm_compute; reflexivity|].
  eapply (tree_nodes_descend_from_ancestors example_programs).
  vm_compute. reflexivity.
Defined.

(** ** Siblings keep the order of the records *)

(** The records that belong under a node of path [parent]. *)
Definition under (parent : string) (q : ProgramDict) : Prop :=
  Path.has_dot (program_path q) = true ∧ parent_path (program_path q) = parent.

#[global] Instance under_dec parent q : Decision (under parent q).
Proof. unfold under. apply _. Defined.

Section sibling_order.
Import Backend.
Variable r : ProgramDict.

(** Between two turns of the loop: the children of every node are the
    records met so far that belong under it, in the order met. *)
Definition ordered (met : list ProgramDict) (st : build_state) : Prop :=
  ∀ i c, heap st !! i = Some c →
    Forall2 (λ j q, ∃ cj, heap st !! j = Some cj ∧ cell_data cj = node_of q)
            (cell_children c) (filter (under (path_of c)) met).

Lemma under_depth parent q :
  under parent q → depth_key q = S (Path.depth parent).
Proof. intros [Hdot <-]. unfold depth_key. symmetry. by apply parent_path_depth. Qed.

Lemma ordered_step D acc st met p :
  populated r D acc st →
  NoDup (program_path <$> acc.1) →
  Forall (λ q, depth_key q ≤ depth_key p) met →
  depth_key r < depth_key p →
  ordered met st → ordered (met ++ [p]) (populate_step st p).
Proof.
  intros Hpop Hnodup Hmet Hdeep Hord i c. unfold populate_step.
  rewrite get_parent_id_path_spec. set (pp := parent_path (program_path p)).
  assert (Path.has_dot (program_path p) = true) as Hdot.
  { apply PathFacts.depth_has_dot. pose proof (PathFacts.depth_pos (program_path r)).
    unfold depth_key in *. lia. }
  assert (path_of <$> heap st = program_path <$> acc.1) as Hpaths.
  { pose proof (f_equal (fmap node_program_path) (pop_data _ _ _ _ Hpop)) as Hd.
    by rewrite <- !list_fmap_compose in Hd. }
  destruct (id_path_to_node st !! pp) as [pi|] eqn:Hpp; cbn [heap].
  - destruct (pop_map_some _ _ _ _ Hpop pp pi Hpp) as (cpi & Hcpi & Hpath).
    assert (∀ j cj q, heap st !! j = Some cj → cell_data cj = node_of q →
              ∃ cj', (alter (append_child (length (heap st))) pi (heap st)
                        ++ [new_node p]) !! j = Some cj'
                     ∧ cell_data cj' = node_of q) as Hkeep.
    { intros j cj q Hj Hq. eexists. split; [apply lookup_extended; right; eauto|].
      by rewrite extended_same_data. }
    intros [[-> ->]|(c0 & Hc0 & ->)]%lookup_extended.
    + simpl. rewrite (proj2 (list_filter_empty_lemma (under (program_path p)) (met ++ [p])));
        [constructor|].
      intros q Hq Hunder. apply under_depth in Hunder.
      apply elem_of_app in Hq as [Hq|Hq%list_elem_of_singleton].
      * rewrite Forall_forall in Hmet. specialize (Hmet q Hq).
        unfold depth_key in *. lia.
      * subst q. unfold depth_key in *. lia.
    + unfold path_of. rewrite extended_same_data. fold (path_of c0).
      rewrite filter_app. specialize (Hord i c0 Hc0).
      assert (Forall2 (λ j q, ∃ cj, (alter (append_child (length (heap st))) pi (heap st)
                                       ++ [new_node p]) !! j = Some cj
                                    ∧ cell_data cj = node_of q)
                (cell_children c0) (filter (under (path_of c0)) met)) as Hold.
      { eapply Forall2_impl; [exact Hord|]. intros j q (cj & Hj & Hq). by eapply Hkeep. }
      destruct (decide (pi = i)) as [->|Hne].
      * assert (c0 = cpi) as -> by congruence. simpl.
        rewrite filter_cons_True, filter_nil by (by split).
        apply Forall2_app; [done|]. constructor; [|constructor].
        exists (new_node p). split; [apply lookup_extended; by left|done].
      * rewrite filter_cons_False, filter_nil, (right_id_L [] (++)); [done|].
        intros [_ Hpc]. apply Hne.
        apply (NoDup_lookup (path_of <$> heap st) pi i pp).
        -- by rewrite Hpaths.
        -- by rewrite list_lookup_fmap, Hcpi, <- Hpath.
        -- rewrite list_lookup_fmap, Hc0. simpl. by rewrite <- Hpc.
  - intros Hi. rewrite filter_app, filter_cons_False, filter_nil, (right_id_L [] (++)).
    + exact (Hord i c Hi).
    + intros [_ Hpc]. apply (pop_map_none _ _ _ _ Hpop) in Hpp. apply Hpp.
      rewrite <- Hpaths. fold pp in Hpc. rewrite Hpc.
      apply list_elem_of_fmap. exists c. split; [done|]. by eapply list_elem_of_lookup_2.
Qed.

Lemma place_step_perm acc p :
  (place_step acc p).1 ++ (place_step acc p).2 ≡ₚ acc.1 ++ acc.2 ++ [p].
Proof.
  unfold place_step. case_bool_decide; simpl.
  - rewrite <- !(assoc_L (++)). f_equiv. apply Permutation_app_comm.
  - done.
Qed.

Lemma ordered_foldl records : ∀ D acc st met,
  populated r D acc st →
  NoDup (program_path <$> acc.1 ++ acc.2 ++ records) →
  StronglySorted (key_le depth_key) records →
  (∀ p, p ∈ records → D ≤ depth_key p ∧ depth_key r < depth_key p) →
  Forall (λ q, ∀ p, p ∈ records → depth_key q ≤ depth_key p) met →
  ordered met st →
  ordered (met ++ records) (foldl populate_step st records).
Proof.
  induction records as [|p records IH]; intros D acc st met Hpop Hnodup Hsorted Hdeep Hmet Hord.
  { simpl. by rewrite (right_id_L [] (++)). }
  apply StronglySorted_inv in Hsorted as [Hsorted Hp]. rewrite Forall_forall in Hp.
  destruct (Hdeep p) as [HD Hr]; [by left|].
  simpl. rewrite cons_middle, (assoc_L (++)).
  apply (IH (depth_key p) (place_step acc p)).
  - by apply (populated_step r D).
  - assert ((place_step acc p).1 ++ (place_step acc p).2 ++ records
            ≡ₚ acc.1 ++ acc.2 ++ p :: records) as ->; [|done].
    rewrite (assoc_L (++) (place_step acc p).1), place_step_perm.
    by rewrite <- !(assoc_L (++)).
  - done.
  - intros p' Hp'. split; [apply (Hp p' Hp')|]. apply Hdeep. by right.
  - rewrite Forall_app. split.
    + eapply Forall_impl; [exact Hmet|]. intros q Hq p' Hp'. apply Hq. by right.
    + constructor; [|constructor]. intros p' Hp'. apply (Hp p' Hp').
  - apply (ordered_step D acc); [done| | |done|done].
    + rewrite fmap_app in Hnodup. by apply NoDup_app in Hnodup as [? _].
    + eapply Forall_impl; [exact Hmet|]. intros q Hq. apply Hq. by left.
Qed.
End sibling_order.

Lemma Forall2_join {A B C D} (P : A → B → Prop) (Q : A → C → Prop)
    (f : B → D) (g : C → D) l xs ys :
  Forall2 P l xs → Forall2 Q l ys →
  (∀ a x y, P a x → Q a y → f x = g y) → f <$> xs = g <$> ys.
Proof.
  intros HP. revert ys. induction HP as [|a x l xs Hax _ IH]; intros ys HQ Hfg.
  - by apply Forall2_nil_inv_l in HQ as ->.
  - apply Forall2_cons_inv_l in HQ as (y & ys' & Hay & HQ & ->).
    rewrite !fmap_cons. f_equal; [by eapply Hfg|by apply IH].
Qed.

(** X21. Where the records have distinct paths, the children of every node
    of a returned tree are the nodes of the records that belong under it
    (their path, without its last segment, is the node's path), one each,
    in the order in which the records were given; the [has_descendant] flag,
    which the loop sets afterwards, is left aside. *)
Theorem tree_children_in_record_order (data : list ProgramDict)
    (t : ProgramTreeNode) (lg : list log_entry) :
  NoDup (program_path <$> data) →
  Backend.get_all_programs_as_tree data = (Ok (Some t), lg) →
  ∀ s, s ∈ subtrees t →
    Backend.set_has_descendant false ∘ tree_data <$> tree_children s
    = node_of <$>
        filter (λ q, Path.has_dot (program_path q) = true
                     ∧ parent_path (program_path q) = node_program_path (tree_data s))
               data.
Proof.
  intros Hnodup Hrun.
  apply get_all_programs_as_tree_ok in Hrun as (r & rest & Hsort & Hsingle & Hreify & _).
  pose proof (sort_by_sorted Backend.depth_key data) as Hs. rewrite Hsort in Hs.
  destruct (populate_tree_populated r rest Hs Hsingle) as [D Hpop].
  assert (ordered rest (Backend.populate_tree r rest)) as Hord.
  { apply (ordered_foldl r rest (Backend.depth_key r) ([r], []) _ []).
    - apply populated_initial.
    - change (NoDup (program_path <$> r :: rest)).
      rewrite <- Hsort. by rewrite (sort_by_perm Backend.depth_key data).
    - by apply StronglySorted_inv in Hs as [? _].
    - intros p Hp. pose proof (single_root_deeper r rest Hs Hsingle p Hp). lia.
    - constructor.
    - intros i c Hi. apply list_lookup_singleton_Some in Hi as [-> <-]. constructor. }
  intros s Hsub.
  refine (reify_subtrees
            (λ s, Backend.set_has_descendant false ∘ tree_data <$> tree_children s
                  = node_of <$>
                      filter (λ q, Path.has_dot (program_path q) = true
                                   ∧ parent_path (program_path q)
                                     = node_program_path (tree_data s)) data)
            (Backend.bubble_up (Backend.populate_tree r rest)) _ _ _ _ Hreify s Hsub).
  clear s Hsub. intros i c2 cs Hi Hcs. simpl.
  apply bubble_up_lookup in Hi as (c1 & Hc1 & Hshape).
  pose proof (f_equal fst Hshape) as Hchildren.
  pose proof (f_equal (node_program_path ∘ snd) Hshape) as Hpath.
  simpl in Hchildren, Hpath. rewrite Hpath. fold (path_of c1).
  assert (filter (λ q, Path.has_dot (program_path q) = true
                       ∧ parent_path (program_path q) = path_of c1) data
          = filter (under (path_of c1)) rest) as ->.
  { set (k := S (Path.depth (path_of c1))).
    assert (∀ l : list ProgramDict, filter (under (path_of c1)) l
                 = filter (under (path_of c1)) (filter (λ q, Backend.depth_key q = k) l))
      as Hk.
    { intros l. rewrite list_filter_filter. apply list_filter_iff.
      intros q. split; [|by intros [? _]]. intros Hq. split; [done|].
      by apply under_depth. }
    etrans; [apply (list_filter_iff _ (under (path_of c1))); by intros q|].
    rewrite (Hk data), <- (sort_by_filter_key Backend.depth_key k data), Hsort, <- Hk.
    apply filter_cons_False. intros Hr%under_depth.
    destruct (populated_record _ _ _ _ _ _ Hpop Hc1) as (q & Hq & _ & Hqpath).
    apply list_elem_of_lookup_2 in Hq.
    pose proof (populated_ins_cases r _ _ _ Hpop q Hq) as Hcase.
    rewrite Hqpath in Hr. fold (Backend.depth_key q) in Hr.
    destruct Hcase as [->|[? _]]; lia. }
  rewrite Hchildren in Hcs.
  eapply Forall2_join; [exact Hcs|exact (Hord i c1 Hc1)|].
  intros j tj q (cj2 & Hcj2 & Hdata) (cj1 & Hcj1 & Hq). simpl.
  apply bubble_up_lookup in Hcj2 as (cj1' & Hcj1' & Hshapej).
  assert (cj1' = cj1) as -> by congruence.
  pose proof (f_equal snd Hshapej) as Hd. simpl in Hd.
  by rewrite Hdata, Hd, Hq.
Qed.

(** The theorem above on [example_programs]. *)
Lemma tree_children_in_record_order_witness :
  NoDup (program_path <$> example_programs)
  ∧ ∃ t lg,
      Backend.get_all_programs_as_tree example_programs = (Ok (Some t), lg)
      ∧ ∀ s, s ∈ subtrees t →
          Backend.set_has_descendant false ∘ tree_data <$> tree_children s
          = node_of <$>
              filter (λ q, Path.has_dot (program_path q) = true
                           ∧ parent_path (program_path q)
                             = node_program_path (tree_data s))
                     example_programs.
Proof.
  split; [apply (bool_decide_unpack _); vm_compute; exact I|].
  eexists _, _. split; [vm_compute; reflexivity|].
  eapply (tree_children_in_record_order example_programs).
  - apply (bool_decide_unpack _). vm_compute. exact I.
  - vm_compute. reflexivity.
Defined.
